(** * RIssmed / RNAmediator: constraint folding and region selection

    A shallow embedding of the constraint-folding wrappers of
    [RNAmediator/Tweaks/RNAtweaks.py], of the BED collector
    [RIssmed/CollectConsResults.py] and of the BigWig collector
    [RNAmediator/GenerateBigWig.py], with the properties the specification
    states about them.

    Python integers are [Z]; Python floats and [np.float64] are binary64
    ([PrimFloat.float]); [str] is [string] (ASCII); a call that raises is a
    [Raise]; a function whose body is wrapped in [try: ... except Exception:
    log.error(...)] returns [None] when the body raises. *)

From Stdlib Require Import ZArith List String Ascii Bool Lia Floats DecimalString DecimalZ.
From stdpp Require Import base option list strings gmap.

#[local] Set Warnings "-inexact-float".

Local Open Scope string_scope.
Local Open Scope Z_scope.

(** ** Python primitives *)

Module Py.

(** Exceptions the modelled code can raise. *)
Inductive value_error :=
| StartGreaterThanEnd (start end_ : Z)
| StartOutOfBounds (start : Z)
| EndOutOfBounds (end_ seqlen : Z)
| WronglyFormatted
| NotAPlfoldString
| EmptySeparator
| FloatNaNToInt
| AmbiguousTruthValue
| ShapeMismatch
| NotAFloat (s : string).

Inductive exn :=
| ValueError (e : value_error)
| NotImplementedError
| IndexError
| TypeError
| KeyError
| OverflowError
| AssertionError
| AttributeError.

Inductive result (A : Type) :=
| Ok (a : A)
| Raise (e : exn).
Arguments Ok {A} a.
Arguments Raise {A} e.

#[export] Instance result_ret : MRet result := fun _ a => Ok a.

#[export] Instance result_bind : MBind result := fun _ _ k r =>
  match r with
  | Ok a => k a
  | Raise e => Raise e
  end.

(** [try: body / except Exception: log.error] around a whole function
    body: the function returns [None] when the body raised. *)
Definition caught {A} (r : result A) : option A :=
  match r with
  | Ok a => Some a
  | Raise _ => None
  end.

(** [for x in xs: body], the loop variables threaded as [S]; the first
    exception ends the loop. *)
Definition for_each {S X : Type} (body : S -> X -> result S) (xs : list X)
    (init : result S) : result S :=
  foldl (fun acc x => st ← acc; body st x) init xs.

(** Two outcomes agree up to [R]: both results, related, or the same
    exception. *)
Definition result_rel {S1 S2 : Type} (R : S1 -> S2 -> Prop)
    (r1 : result S1) (r2 : result S2) : Prop :=
  match r1, r2 with
  | Ok a, Ok b => R a b
  | Raise e1, Raise e2 => e1 = e2
  | _, _ => False
  end.

Definition is_Ok {A} (r : result A) : bool :=
  match r with Ok _ => true | Raise _ => false end.

(** [range(a, b)] *)
Definition range (a b : Z) : list Z :=
  map (fun i => a + Z.of_nat i) (seq 0 (Z.to_nat (b - a))).

(** Index resolution of [l[x]]: a negative index counts from the end. *)
Definition index (n : nat) (x : Z) : option nat :=
  if (0 <=? x) && (x <? Z.of_nat n) then Some (Z.to_nat x)
  else if (- Z.of_nat n <=? x) && (x <? 0) then Some (Z.to_nat (Z.of_nat n + x))
  else None.

(** [l[x]] *)
Definition getitem {A} (l : list A) (x : Z) : result A :=
  match index (length l) x with
  | Some i => match l !! i with Some a => Ok a | None => Raise IndexError end
  | None => Raise IndexError
  end.

(** [l[x] = v] *)
Definition setitem {A} (l : list A) (x : Z) (v : A) : result (list A) :=
  match index (length l) x with
  | Some i => Ok (<[i:=v]> l)
  | None => Raise IndexError
  end.

(** Truth value of an optional integer argument ([None] and [0] are
    false). *)
Definition truthy (x : option Z) : bool :=
  match x with
  | Some z => negb (z =? 0)
  | None => false
  end.

Definition TAB : string := String (ascii_of_nat 9) EmptyString.
Definition NL : string := String (ascii_of_nat 10) EmptyString.

(** [len(s)] *)
Definition len (s : string) : Z := Z.of_nat (String.length s).

(** [s.startswith(p)] *)
Definition startswith (p s : string) : bool := String.prefix p s.

(** [s[n:]] *)
Fixpoint drop_chars (n : nat) (s : string) : string :=
  match n, s with
  | O, _ => s
  | S k, String _ s' => drop_chars k s'
  | S _, EmptyString => EmptyString
  end.

(** [s.replace(old, new)]: leftmost non-overlapping occurrences. [skip]
    counts the characters of a matched occurrence still to be dropped. *)
Fixpoint replace_aux (old new : string) (skip : nat) (s : string) : string :=
  match s with
  | EmptyString => EmptyString
  | String c s' =>
      match skip with
      | S k => replace_aux old new k s'
      | O =>
          if String.prefix old s
          then new ++ replace_aux old new (String.length old - 1) s'
          else String c (replace_aux old new 0 s')
      end
  end.

(** With an empty [old] Python puts [new] before every character and at
    the end. *)
Fixpoint intersperse (new s : string) : string :=
  match s with
  | EmptyString => new
  | String c s' => new ++ String c (intersperse new s')
  end.

Definition replace (old new s : string) : string :=
  match old with
  | EmptyString => intersperse new s
  | _ => replace_aux old new 0 s
  end.

(** [s.split(sep)] for a non-empty separator: the first field and the
    remaining ones. *)
Fixpoint split_aux (sep : string) (skip : nat) (s : string) : string * list string :=
  match s with
  | EmptyString => (EmptyString, [])
  | String c s' =>
      match skip with
      | S k => split_aux sep k s'
      | O =>
          if String.prefix sep s
          then (EmptyString,
                let '(f, r) := split_aux sep (String.length sep - 1) s' in f :: r)
          else let '(f, r) := split_aux sep 0 s' in (String c f, r)
      end
  end.

Definition split (sep s : string) : result (list string) :=
  match sep with
  | EmptyString => Raise (ValueError EmptySeparator)
  | _ => let '(f, r) := split_aux sep 0 s in Ok (f :: r)
  end.

(** [sep.join(l)] *)
Fixpoint join (sep : string) (l : list string) : string :=
  match l with
  | [] => EmptyString
  | [x] => x
  | x :: rest => x ++ sep ++ join sep rest
  end.

(** [needle in s] *)
Fixpoint contains (needle s : string) : bool :=
  String.prefix needle s ||
  match s with
  | EmptyString => false
  | String _ s' => contains needle s'
  end.

(** [s.upper()] on ASCII text. *)
Definition upper_ascii (c : ascii) : ascii :=
  let n := nat_of_ascii c in
  if (97 <=? n)%nat && (n <=? 122)%nat then ascii_of_nat (n - 32) else c.

Fixpoint upper (s : string) : string :=
  match s with
  | EmptyString => EmptyString
  | String c s' => String (upper_ascii c) (upper s')
  end.

End Py.

Import Py.


(** ** Constraint handling of [RNAtweaks.py] *)

Module RNAtweaks.

(** [_check_constraint(sequence_length, start, end)] *)
Definition _check_constraint (sequence_length start end_ : Z) : result unit :=
  if end_ <? start then Raise (ValueError (StartGreaterThanEnd start end_))
  else if start <? 0 then Raise (ValueError (StartOutOfBounds start))
  else if sequence_length <? end_ then Raise (ValueError (EndOutOfBounds end_ sequence_length))
  else Ok tt.

(** One pass of [for x in range(start, end): seq[x] = value[x - start]]. *)
Definition mutate_region (value : list ascii) (start end_ : Z) (seq : list ascii)
  : result (list ascii) :=
  for_each (fun seq x => c ← getitem value (x - start); setitem seq x c)
           (range start end_) (Ok seq).

(** [_mutate(sequence, start, end, value, fstart=None, fend=None)]; [None]
    when the body raised. *)
Definition _mutate (sequence : string) (start end_ : Z) (value : string)
    (fstart fend : option Z) : option string :=
  caught (
    let seq := list_ascii_of_string sequence in
    let value := list_ascii_of_string value in
    seq ← mutate_region value start end_ seq;
    seq ← (if truthy fstart && truthy fend
           then mutate_region value (default 0 fstart) (default 0 fend) seq
           else Ok seq);
    Ok (string_of_list_ascii seq)).

(** *** The folding engine seen from the wrappers

    ViennaRNA is an external collaborator. A fold compound is modelled by
    what the wrappers hand to it: the sequence and model details it is
    built from and the constraint calls made on it, in order. *)

Record md := {
  max_bp_span : Z;
  window_size : Z;
  temperature : float
}.

Inductive fc_call :=
| hc_add_bp_nonspecific (x d : Z)
| hc_add_up (x : Z).

Record fold_compound := {
  fc_sequence : string;
  fc_md : md;
  fc_calls : list fc_call
}.

(** [RNA.fold_compound(sequence, md, RNA.OPTION_WINDOW)] *)
Definition new_fold_compound (sequence : string) (m : md) : fold_compound :=
  {| fc_sequence := sequence; fc_md := m; fc_calls := [] |}.

Definition fc_add (fc : fold_compound) (calls : list fc_call) : fold_compound :=
  {| fc_sequence := fc_sequence fc; fc_md := fc_md fc;
     fc_calls := (fc_calls fc ++ calls)%list |}.

(** [_constrain_paired(fc, start, end, fstart=None, fend=None)] *)
Definition _constrain_paired (fc : fold_compound) (start end_ : Z)
    (fstart fend : option Z) : fold_compound :=
  let fc := fc_add fc (map (fun x => hc_add_bp_nonspecific x 0)
                           (range (start + 1) (end_ + 1))) in
  if truthy fstart && truthy fend
  then fc_add fc (map (fun x => hc_add_bp_nonspecific x 0)
                      (range (default 0 fstart + 1) (default 0 fend + 1)))
  else fc.

(** [_constrain_unpaired(fc, start, end, fstart=None, fend=None)] *)
Definition _constrain_unpaired (fc : fold_compound) (start end_ : Z)
    (fstart fend : option Z) : fold_compound :=
  let fc := fc_add fc (map hc_add_up (range (start + 1) (end_ + 1))) in
  if truthy fstart && truthy fend
  then fc_add fc (map hc_add_up (range (default 0 fstart + 1) (default 0 fend + 1)))
  else fc.

(** [_constrain_paired_soft]: raises before touching the fold compound. *)
Definition _constrain_paired_soft (fc : fold_compound) (start end_ : Z)
    (value : string) (fstart fend : option Z) : result fold_compound :=
  Raise NotImplementedError.

(** [fc.sc_add_up(x, value)] with the text [consval] for [value], as the
    wrappers pass it: the engine takes a number for the energy and raises
    on a text. *)
Definition sc_add_up (fc : fold_compound) (x : Z) (value : string) : result fold_compound :=
  Raise TypeError.

(** [_constrain_unpaired_soft(fc, start, end, value, fstart=None, fend=None)];
    [None] when the body raised, that is with the first call of the engine. *)
Definition _constrain_unpaired_soft (fc : fold_compound) (start end_ : Z)
    (value : string) (fstart fend : option Z) : option fold_compound :=
  caught (
    fc ← for_each (fun fc x => sc_add_up fc x value) (range (start + 1) (end_ + 1)) (Ok fc);
    if truthy fstart && truthy fend
    then for_each (fun fc x => sc_add_up fc x value)
                  (range (default 0 fstart + 1) (default 0 fend + 1)) (Ok fc)
    else Ok fc).

(** *** Windowed folding wrappers *)

Inductive warning :=
| WindowShrunk (window seqlen : Z)
| SpanShrunk (span window : Z).

(** The check "for window and span length" both wrappers make. *)
Definition shrink_window_span (seqlen window span : Z) : Z * Z * list warning :=
  let '(window, w1) :=
    if seqlen <? window then (seqlen, [WindowShrunk window seqlen])
    else (window, []) in
  let '(span, w2) :=
    if window <? span then (window, [SpanShrunk span window])
    else (span, []) in
  (window, span, (w1 ++ w2)%list).

(** A constraint tuple [(mode, start, end)]. *)
Record constraint_entry := {
  c_mode : string;
  c_start : Z;
  c_end : Z
}.

(** [str(x)] of a value that is a string or [None]. *)
Definition str_of_optional (x : option string) : string :=
  match x with
  | Some s => s
  | None => "None"
  end.

(** [entry[0] if constype in ["hard", "soft"] else "mutate"] *)
Definition entry_mode (constype : string) (entry : constraint_entry) : string :=
  if String.eqb constype "hard" || String.eqb constype "soft"
  then c_mode entry else "mutate".

(** The body of [for entry in constraint:] in [api_rnaplfold]. The loop
    carries the variables [sequence] and [fc]; [fc] is [None] once a
    constraint function has returned [None], and a constraint function
    called on [None] returns [None] again (its first call raises, or it
    returns what it was given). *)
Definition api_constraint_entry (constype consval : string) (m : md) (seqlen : Z)
    (st : option string * option fold_compound) (entry : constraint_entry)
  : result (option string * option fold_compound) :=
  let '(sequence, fc) := st in
  let mode := entry_mode constype entry in
  let start := c_start entry in
  let end_ := c_end entry in
  let value := consval in
  _ ← _check_constraint seqlen start end_;
  if String.eqb mode "paired" || String.eqb mode "p" && String.eqb constype "hard"
  then Ok (sequence, fc ← fc; Some (_constrain_paired fc start end_ None None))
  else if String.eqb mode "unpaired" || String.eqb mode "u" && String.eqb constype "hard"
  then Ok (sequence, fc ← fc; Some (_constrain_unpaired fc start end_ None None))
  else if String.eqb mode "mutate"
  then let sequence := _mutate (str_of_optional sequence) start (end_ - 1) value None None in
       Ok (sequence, Some (new_fold_compound (str_of_optional sequence) m))
  else if String.eqb mode "unpaired" || String.eqb mode "u" && String.eqb constype "soft"
  then Ok (sequence, fc ← fc; _constrain_unpaired_soft fc start end_ value None None)
  else if String.eqb mode "paired" || String.eqb mode "p" && String.eqb constype "soft"
  then Raise NotImplementedError
  else Raise (ValueError WronglyFormatted).

(** The loop variables of two runs of the loop that differ in the model
    details only: the same sequence, and a compound in both or in neither. *)
Definition same_run (a b : option string * option fold_compound) : Prop :=
  a.1 = b.1 /\ (a.2 = None <-> b.2 = None).

(** What [api_rnaplfold] asks of the engine:
    [fc.probs_window(region, RNA.PROBS_WINDOW_UP, _up_callback, data)]. *)
Record probs_window_call := {
  pw_fc : fold_compound;
  pw_region : Z;
  pw_warnings : list warning
}.

(** [api_rnaplfold(sequence, window, span, region, temperature, constype,
    consval, constraint)] up to the call of the engine; on [None] the call
    [fc.probs_window] raises. *)
Definition api_rnaplfold (sequence : string) (window span region : Z)
    (temp : float) (constype consval : string)
    (constraint : option (list constraint_entry)) : result probs_window_call :=
  let sequence := replace "T" "U" (upper sequence) in
  let '(window, span, warnings) := shrink_window_span (len sequence) window span in
  let m := {| max_bp_span := span; window_size := window; temperature := temp |} in
  let fc := new_fold_compound sequence m in
  st ← match constraint with
       | Some entries =>
           let seqlen := len sequence in
           for_each (api_constraint_entry constype consval m seqlen) entries
                    (Ok (Some sequence, Some fc))
       | None => Ok (Some sequence, Some fc)
       end;
  fc ← match st.2 with
       | Some fc => Ok fc
       | None => Raise AttributeError
       end;
  Ok {| pw_fc := fc; pw_region := region; pw_warnings := warnings |}.

(** A line [f"{const} {start+1} {0} {end - start}\n"] of the command file
    handed to [RNAplfold --commands]. *)
Record command_line := {
  cl_const : string;
  cl_first : Z;
  cl_partner : Z;
  cl_length : Z
}.

(** The body of [for entry in constraint:] in [cmd_rnaplfold]. The loop
    carries [sequence] and [constraint_string]. *)
Definition cmd_constraint_entry (constype consval : string) (seqlen : Z)
    (st : string * list command_line) (entry : constraint_entry)
  : result (string * list command_line) :=
  let '(sequence, constraint_string) := st in
  let mode := entry_mode constype entry in
  let start := c_start entry in
  let end_ := c_end entry in
  let value := consval in
  let line const := {| cl_const := const; cl_first := start + 1;
                       cl_partner := 0; cl_length := end_ - start |} in
  _ ← _check_constraint seqlen start end_;
  if String.eqb mode "paired" || String.eqb mode "p"
  then Ok (sequence, (constraint_string ++ [line "F"])%list)
  else if String.eqb mode "unpaired" || String.eqb mode "u"
  then Ok (sequence, (constraint_string ++ [line "P"])%list)
  else if String.eqb mode "mutate"
  then Ok (str_of_optional (_mutate sequence start (end_ - 1) value None None),
           constraint_string)
  else if (String.eqb mode "unpaired" || String.eqb mode "u") && String.eqb constype "soft"
  then Ok (sequence, (constraint_string ++ [line "E"])%list)
  else if (String.eqb mode "paired" || String.eqb mode "p") && String.eqb constype "soft"
  then Raise NotImplementedError
  else Raise (ValueError WronglyFormatted).

(** The [RNAplfold] process [cmd_rnaplfold] starts: options [-W], [-L],
    [--commands], [-u], [-T] and the sequence written to its input. *)
Record rnaplfold_process := {
  proc_W : Z;
  proc_L : Z;
  proc_commands : list command_line;
  proc_u : Z;
  proc_T : float;
  proc_stdin : string;
  proc_warnings : list warning
}.

(** [cmd_rnaplfold(sequence, window, span, region, temperature, constype,
    consval, constraint)] up to the start of the process. *)
Definition cmd_rnaplfold (sequence : string) (window span region : Z)
    (temp : float) (constype consval : string)
    (constraint : option (list constraint_entry)) : result rnaplfold_process :=
  st ← match constraint with
       | Some entries =>
           let seqlen := len sequence in
           for_each (cmd_constraint_entry constype consval seqlen) entries
                    (Ok (sequence, []))
       | None => Ok (sequence, [])
       end;
  let '(sequence, constraint_string) := st in
  let '(window, span, warnings) := shrink_window_span (len sequence) window span in
  Ok {| proc_W := window; proc_L := span; proc_commands := constraint_string;
        proc_u := region; proc_T := temp; proc_stdin := sequence;
        proc_warnings := warnings |}.

(** The invariant of a constraint region: [0 <= start <= end <= length]. *)
Definition in_bounds (seqlen : Z) (entry : constraint_entry) : Prop :=
  0 <= c_start entry /\ c_start entry <= c_end entry /\ c_end entry <= seqlen.

(** The errors [_check_constraint] raises. *)
Definition constraint_out_of_bounds (e : exn) : bool :=
  match e with
  | ValueError (StartGreaterThanEnd _ _)
  | ValueError (StartOutOfBounds _)
  | ValueError (EndOutOfBounds _ _) => true
  | _ => false
  end.

(** *** Energies of a whole-sequence fold *)

(** [k_t] of [_calc_nrg], the literal of the source. *)
Definition k_t : float := 0.61632077549999997%float.

(** [_calc_nrg(bpp)]; [math_log] is [math.log]. *)
Definition _calc_nrg (math_log : float -> float) (bpp : float) : float :=
  if PrimFloat.ltb 0 bpp
  then PrimFloat.mul (PrimFloat.mul (-1)%float k_t) (math_log bpp)
  else 0%float.

(** An entry ["base\tmate\tprob"] of the list [_get_bppm] returns. *)
Record bpp_entry := {
  bp_base : Z;
  bp_mate : Z;
  bp_prob : float
}.

(** [_calc_bpp(bppm)] *)
Definition _calc_bpp (bppm : list bpp_entry) : float :=
  foldl (fun bpp entry => PrimFloat.add bpp (bp_prob entry)) 0%float bppm.

(** Values stored in a [FoldOutput]. *)
Inductive pyval :=
| VNone
| VInt (z : Z)
| VFloat (f : float)
| VStr (s : string)
| VBppm (bppm : list bpp_entry).

(** [float(z)] of an integer: the nearest binary64, ties to even; an
    integer beyond the range of the floats raises. *)
Definition float_of_int (z : Z) : result float :=
  let f := SF2Prim (binary_normalize prec emax z 0 false) in
  if PrimFloat.is_infinity f then Raise OverflowError else Ok f.

(** [a - b] on stored values: integers and floats subtract, an integer
    next to a float is converted first; [None], a text or a list raise. *)
Definition py_sub (a b : pyval) : result pyval :=
  match a, b with
  | VInt x, VInt y => Ok (VInt (x - y))
  | VFloat x, VFloat y => Ok (VFloat (PrimFloat.sub x y))
  | VInt x, VFloat y => x ← float_of_int x; Ok (VFloat (PrimFloat.sub x y))
  | VFloat x, VInt y => y ← float_of_int y; Ok (VFloat (PrimFloat.sub x y))
  | _, _ => Raise TypeError
  end.

(** A [FoldOutput]: the annotation under key [anno] and one dictionary
    per condition. *)
Record FoldOutput := {
  fo_anno : option string;
  fo_conditions : gmap string (gmap string pyval)
}.

Definition valid_condition (condition : string) : bool :=
  bool_decide (condition ∈ ["unconstrained"; "constraint"; "pairedconstraint";
                            "constraint_unpaired"; "constraint_paired";
                            "secondconstraint_unpaired"; "secondconstraint_paired";
                            "bothconstraint_unpaired"; "bothconstraint_paired"]).

(** [self[condition].update({key: v})] *)
Definition fo_update (condition key : string) (v : pyval) (self : FoldOutput)
  : result FoldOutput :=
  match fo_conditions self !! condition with
  | Some d =>
      Ok {| fo_anno := fo_anno self;
            fo_conditions := <[condition := <[key := v]> d]> (fo_conditions self) |}
  | None => Raise KeyError
  end.

(** [self[condition][key]] *)
Definition fo_get (condition key : string) (self : FoldOutput) : result pyval :=
  match fo_conditions self !! condition with
  | Some d => match d !! key with Some v => Ok v | None => Raise KeyError end
  | None => Raise KeyError
  end.

(** Truth value of [self.get(condition)]: the key is present and its
    dictionary is not empty. *)
Definition fo_has (condition : string) (self : FoldOutput) : bool :=
  match fo_conditions self !! condition with
  | Some d => negb (bool_decide (size d = 0%nat))
  | None => false
  end.

(** [FoldOutput(condition, anno, gibbs)] *)
Definition FoldOutput_init (condition : string) (anno : option string) (gibbs : pyval)
  : result FoldOutput :=
  if negb (valid_condition condition) then Raise AssertionError
  else
    let self := {| fo_anno := anno; fo_conditions := {[ condition := ∅ ]} |} in
    self ← fo_update condition "gibbs" gibbs self;
    self ← fo_update condition "constraint" VNone self;
    self ← fo_update condition "bppm" (VBppm []) self;
    self ← fo_update condition "bpp" VNone self;
    self ← fo_update condition "nrg" VNone self;
    self ← fo_update condition "ddg" VNone self;
    fo_update condition "dnrg" VNone self.

(** [self.from_rnamediator_fold_compound(fc, condition, constr, start, end)].
    [gibbs] is what [_calc_gibbs(fc)] returned (a float, or [None] when the
    engine raised) and [bppm] what [_get_bppm(fc.bpp(), start, end)]
    returned. *)
Definition from_rnamediator_fold_compound (math_log : float -> float)
    (self : FoldOutput) (condition : string) (constr : pyval)
    (gibbs : pyval) (bppm : list bpp_entry) : result FoldOutput :=
  if negb (valid_condition condition) then Raise AssertionError
  else
    let self :=
      if negb (fo_has condition self)
      then {| fo_anno := fo_anno self;
              fo_conditions := <[condition := ∅]> (fo_conditions self) |}
      else self in
    self ← fo_update condition "constraint" constr self;
    self ← fo_update condition "gibbs" gibbs self;
    self ← fo_update condition "bppm" (VBppm bppm) self;
    let bpp := _calc_bpp bppm in
    self ← fo_update condition "bpp" (VFloat bpp) self;
    let nrg := _calc_nrg math_log bpp in
    self ← fo_update condition "nrg" (VFloat nrg) self;
    if fo_has "unconstrained" self && negb (String.eqb condition "unconstrained")
    then
      g ← fo_get "unconstrained" "gibbs" self;
      ddg ← py_sub g gibbs;
      self ← fo_update condition "ddg" ddg self;
      n ← fo_get "unconstrained" "nrg" self;
      dnrg ← py_sub n (VFloat nrg);
      fo_update condition "dnrg" dnrg self
    else
      self ← fo_update condition "ddg" (VInt 0) self;
      fo_update condition "dnrg" (VInt 0) self.

(** The object [FoldOutput("constraint_paired")] creates. *)
Definition fold_output_constraint_paired : FoldOutput :=
  {| fo_anno := None;
     fo_conditions :=
       {[ "constraint_paired" :=
            <["dnrg" := VNone]> (<["ddg" := VNone]> (<["nrg" := VNone]> (<["bpp" := VNone]>
            (<["bppm" := VBppm []]> (<["constraint" := VNone]> (<["gibbs" := VNone]> ∅)))))) ]} |}.

End RNAtweaks.

(** ** Floats of the collectors *)

Module NP.

(** [np.isnan(x)] *)
Definition isnan (x : float) : bool := negb (PrimFloat.eqb x x).

(** [int(x)] of a float: truncation towards zero; [nan] and the
infinities raise. *)
Definition int_of_float (x : float) : result Z :=
  match Prim2SF x with
  | S754_zero _ => Ok 0
  | S754_infinity _ => Raise OverflowError
  | S754_nan => Raise (ValueError FloatNaNToInt)
  | S754_finite s m e =>
      let magnitude := if 0 <=? e then Z.pos m * 2 ^ e else Z.pos m / 2 ^ (- e) in
      Ok (if s then - magnitude else magnitude)
  end.

(** Truth value of a one-dimensional array: empty is false, one element
is that element's truth value, more elements raise. *)
Definition truth (a : list float) : result bool :=
  match a with
  | [] => Ok false
  | [x] => Ok (negb (PrimFloat.eqb x 0))
  | _ => Raise (ValueError AmbiguousTruthValue)
  end.

(** [a + b] on one-dimensional arrays, with broadcasting of a single
element. *)
Definition add (a b : list float) : result (list float) :=
  match a, b with
  | [x], _ => Ok (map (PrimFloat.add x) b)
  | _, [y] => Ok (map (fun x => PrimFloat.add x y) a)
  | _, _ =>
      if Nat.eqb (length a) (length b)
      then Ok (zip_with PrimFloat.add a b)
      else Raise (ValueError ShapeMismatch)
  end.

(** [a[i:j]] *)
Definition slice {A} (a : list A) (i j : Z) : list A :=
  let n := Z.of_nat (length a) in
  let clamp k := if k <? 0 then Z.max 0 (n + k) else Z.min n k in
  let i := clamp i in
  let j := clamp j in
  take (Z.to_nat (j - i)) (drop (Z.to_nat i) a).

End NP.

(** ** [CollectConsResults.py]: selection of BED records *)

Module CollectConsResults.

(** A line of [Collection_unpaired.bed.gz] or [Collection_paired.bed.gz]:
the fields that [judge_diff] joins with tabs, before [str] is applied.
The name field is [goi|cons|gcons]. *)
Record bed_record := {
  bed_chrom : string;
  bed_gpos : Z;
  bed_gend : Z;
  bed_goi : string;
  bed_cons : string;
  bed_gcons : Z * Z;
  bed_value : float;
  bed_strand : string;
  bed_dist : Z;
  bed_raw : Z
}.

(** The parts of the file name [judge_diff] splits off, with the two
integers of [cons] and of [reg] parsed. *)
Record window_name := {
  wn_goi : string;
  wn_chrom : string;
  wn_strand : string;
  wn_cons : string;
  wn_cs : Z;
  wn_ce : Z;
  wn_ws : Z;
  wn_we : Z
}.

(** The scan variables of [judge_diff] after the coordinates are fitted
to the window and to the genome. *)
Record scan := {
  sc_name : window_name;
  sc_cs : Z;
  sc_ce : Z;
  sc_ws : Z;
  sc_we : Z;
  sc_ulim : Z;
  sc_border1 : float;
  sc_border2 : float;
  sc_noc : list float
}.

(** [dist]: the distance of [pos] to the constraint, "up or downstream". *)
Definition distance (s : scan) (pos : Z) : Z :=
  if sc_ce s <? pos then (pos - sc_ce s) * -1 else sc_cs s - pos.

(** [gpos]: the genomic start of the record for [pos]. *)
Definition genomic_pos (s : scan) (pos : Z) : Z :=
  if negb (String.eqb (wn_strand (sc_name s)) "-")
  then pos + sc_ws s
  else sc_we s - pos - sc_ulim s - 1.

(** The record appended for position [pos] with difference [value]. *)
Definition bed_line (s : scan) (pos : Z) (value : float) : result bed_record :=
  let cs := sc_cs s in
  let ce := sc_ce s in
  let ws := sc_ws s in
  let we := sc_we s in
  let strand := wn_strand (sc_name s) in
  let dist := distance s pos in
  let gpos := genomic_pos s pos in
  let gend := gpos + sc_ulim s in
  let gcons := if negb (String.eqb strand "-") then (cs + ws, ce + ws)
               else (we - ce - 1, we - cs) in
  n ← getitem (sc_noc s) pos;
  raw ← NP.int_of_float n;
  Ok {| bed_chrom := wn_chrom (sc_name s); bed_gpos := gpos; bed_gend := gend;
        bed_goi := wn_goi (sc_name s); bed_cons := wn_cons (sc_name s);
        bed_gcons := gcons; bed_value := value; bed_strand := strand;
        bed_dist := dist; bed_raw := raw |}.

(** [if border1 < c[pos] and c[pos] < border2: out.append(...)] *)
Definition judge_value (s : scan) (c : list float) (pos : Z) (out : list bed_record)
  : result (list bed_record) :=
  v ← getitem c pos;
  if PrimFloat.ltb (sc_border1 s) v && PrimFloat.ltb v (sc_border2 s)
  then r ← bed_line s pos v; Ok (out ++ [r])%list
  else Ok out.

(** The body of [for pos in range(len(uc)):]; the loop carries
[(out['u'], out['p'])]. *)
Definition judge_pos (s : scan) (uc pc : list float)
    (out : list bed_record * list bed_record) (pos : Z)
  : result (list bed_record * list bed_record) :=
  if negb ((sc_cs s <=? pos) && (pos <? sc_ce s + 1))
  then
    u ← judge_value s uc pos out.1;
    p ← judge_value s pc pos out.2;
    Ok (u, p)
  else Ok out.

(** The first lines of [judge_diff]: the constraint fitted to the window
(0-based) and the window fitted to the genome. *)
Definition fit (name : window_name) (gs ge ulim : Z) (border1 border2 : float)
    (noc : list float) : scan :=
  let ws := wn_ws name in
  let we := wn_we name in
  let cs := wn_cs name - ws - 1 in
  let ce := wn_ce name - ws - 1 in
  let '(ws, we) :=
    if negb (String.eqb (wn_strand name) "-")
    then (ws + gs - 1, we + gs)
    else (ge - we - 1, ge - ws) in
  {| sc_name := name; sc_cs := cs; sc_ce := ce; sc_ws := ws; sc_we := we;
     sc_ulim := ulim; sc_border1 := border1; sc_border2 := border2;
     sc_noc := noc |}.

(** [judge_diff(raw, u, p, gs, ge, ulim, cutoff, border, outdir)] up to
the call of [savelists]: the lists [(out['u'], out['p'])]. [name] is the
split file name of [raw], [border1, border2] the two floats of [border],
and [noc], [uc], [pc] the arrays [pl_to_array] read from [raw], [u], [p]. *)
Definition judge_diff (name : window_name) (gs ge ulim : Z)
    (cutoff border1 border2 : float) (noc uc pc : list float)
  : result (list bed_record * list bed_record) :=
  let s := fit name gs ge ulim border1 border2 noc in
  n ← getitem noc (sc_ce s);
  if PrimFloat.ltb cutoff (PrimFloat.abs n)
  then for_each (judge_pos s uc pc) (range 0 (Z.of_nat (length uc))) (Ok ([], []))
  else Ok ([], []).

(** What [savelists] gets to write: nothing when [judge_diff] raised (the
exception is logged and the call to [savelists] skipped). *)
Definition written (out : result (list bed_record * list bed_record))
  : list bed_record * list bed_record :=
  match out with
  | Ok lists => lists
  | Raise _ => ([], [])
  end.

(** [r] is the record the scan makes of position [pos] of the difference
profile [c]: the position is outside the constraint, its difference lies
between the borders, and the raw value converts to an integer. *)
Definition selected (s : scan) (c : list float) (r : bed_record) (pos : Z) : Prop :=
  0 <= pos /\ ~ (sc_cs s <= pos <= sc_ce s) /\
  exists v, getitem c pos = Ok v /\
            PrimFloat.ltb (sc_border1 s) v = true /\
            PrimFloat.ltb v (sc_border2 s) = true /\
            bed_line s pos v = Ok r.

End CollectConsResults.

(** ** [GenerateBigWig.py]: selection of BigWig entries *)

Module GenerateBigWig.

(** One entry of a track. [create_bw_entries] appends to four parallel
lists [chroms], [starts], [ends], [values]; an entry is one position of
the four. *)
Record bw_entry := {
  bw_chrom : string;
  bw_start : Z;
  bw_end : Z;
  bw_value : float
}.

(** The three tracks [raw], [uc], [pc] and the orientation they are
filed under ([None] while the loop has not run). *)
Record bw_tracks := {
  bw_raw : list bw_entry;
  bw_uc : list bw_entry;
  bw_pc : list bw_entry;
  bw_orient : option string
}.

(** The parts of the file name [create_bw_entries] splits off, with the
integers of [cons] and of [reg] parsed ([reg] is ["0-0"] for a file that
is not a difference). *)
Record bw_name := {
  bn_chrom : string;
  bn_cs : Z;
  bn_ce : Z;
  bn_ws : Z;
  bn_we : Z
}.

(** The loop variables that do not change during the scan. *)
Record bw_scan := {
  bs_fname : string;
  bs_chrom : string;
  bs_gstrand : string;
  bs_ws : Z;
  bs_we : Z;
  bs_ulim : Z;
  bs_border : float;
  bs_noc : list float;
  bs_oc : option (list float)
}.

(** Truth value of [oc]: [None] is false, an array has the truth value
NumPy gives it. *)
Definition oc_truth (oc : option (list float)) : result bool :=
  match oc with
  | None => Ok false
  | Some a => NP.truth a
  end.

(** [border < abs(a[pos]) and not np.isnan(a[pos])] *)
Definition exceeds (border : float) (v : float) : bool :=
  PrimFloat.ltb border (PrimFloat.abs v) && negb (NP.isnan v).

(** [if oc and tag in fname and border < abs(oc[pos]) and not
np.isnan(oc[pos]): append] *)
Definition scan_constrained (s : bw_scan) (tag : string) (pos gpos gend : Z)
    (track : list bw_entry) : result (list bw_entry) :=
  t ← oc_truth (bs_oc s);
  if t && contains tag (bs_fname s)
  then
    v ← getitem (default [] (bs_oc s)) pos;
    if exceeds (bs_border s) v
    then Ok (track ++ [{| bw_chrom := bs_chrom s; bw_start := gpos; bw_end := gend;
                          bw_value := v |}])%list
    else Ok track
  else Ok track.

(** The body of [for pos in range(len(noc)):] *)
Definition scan_pos (s : bw_scan) (t : bw_tracks) (pos : Z) : result bw_tracks :=
  let '(gpos, orient) :=
    if negb (String.eqb (bs_gstrand s) "-")
    then (pos + bs_ws s - bs_ulim s + 1, "fw")
    else (bs_we s - pos, "re") in
  let gend := gpos + 1 in
  v ← getitem (bs_noc s) pos;
  let raw :=
    if exceeds (bs_border s) v
    then (bw_raw t ++ [{| bw_chrom := bs_chrom s; bw_start := gpos; bw_end := gend;
                          bw_value := v |}])%list
    else bw_raw t in
  uc ← scan_constrained s "diffnu" pos gpos gend (bw_uc t);
  pc ← scan_constrained s "diffnp" pos gpos gend (bw_pc t);
  Ok {| bw_raw := raw; bw_uc := uc; bw_pc := pc; bw_orient := Some orient |}.

(** The scan of [create_bw_entries] and the filing by [fill_array], which
needs [orient]: with an empty [noc] the name is unbound. *)
Definition scan_all (s : bw_scan) : result bw_tracks :=
  t ← for_each (scan_pos s) (range 0 (Z.of_nat (length (bs_noc s))))
        (Ok {| bw_raw := []; bw_uc := []; bw_pc := []; bw_orient := None |});
  match bw_orient t with
  | Some _ => Ok t
  | None => Raise TypeError
  end.

(** The chromosome name as [create_bw_entries] rewrites it. *)
Definition chrom_name (chrom : string) : string :=
  if negb (String.eqb (substring 0 2 chrom) "chr")
  then if String.eqb (substring 0 2 chrom) "CHR"
       then "chr" ++ substring 3 (String.length chrom - 3) chrom
       else "chr" ++ chrom
  else chrom.

(** [create_bw_entries(fname, goi, gstrand, gs, ge, cutoff, border, ulim,
padding, chromstr)]. [name] is the split file name; [load] is
[_pl_to_array] ([None] when the file cannot be read) and [nanmean] is
[np.nanmean]. The result is [None] when the body raised. *)
Definition create_bw_entries (load : string -> Z -> option (list float))
    (nanmean : list float -> float)
    (fname : string) (name : bw_name) (gstrand : string) (gs ge : Z)
    (cutoff border : float) (ulim : Z) : option bw_tracks :=
  caught (
    let chrom := chrom_name (bn_chrom name) in
    let ws := bn_ws name in
    let we := bn_we name in
    let cs := bn_cs name - ws in
    let ce := bn_ce name - ws in
    let '(ws, we) :=
      if negb (String.eqb gstrand "-")
      then (ws + gs - 2, we + gs - 2)
      else (ge - we, ge - ws) in
    let border := PrimFloat.abs border in
    noc ← (if negb (contains "diff" fname)
           then Ok (load fname ulim)
           else
             let uncons := replace "diffnp_" "" (replace "diffnu_" "" fname) in
             fn ← split uncons "_";
             fn ← setitem fn 3 "raw";
             let uncons := join "_" fn in
             Ok (load uncons ulim));
    noc ← match noc with Some a => Ok a | None => Raise TypeError end;
    oc ← (if contains "diff" fname &&
             PrimFloat.leb (PrimFloat.abs (nanmean (NP.slice noc cs (ce + 1)))) cutoff
          then
            oc ← (if contains "diffnu" fname || contains "diffnp" fname
                  then match load fname ulim with
                       | Some a => Ok a
                       | None => Raise TypeError
                       end
                  else Raise TypeError);
            sum ← NP.add noc oc;
            Ok (Some sum)
          else Ok None);
    scan_all {| bs_fname := fname; bs_chrom := chrom; bs_gstrand := gstrand;
                bs_ws := ws; bs_we := we; bs_ulim := ulim; bs_border := border;
                bs_noc := noc; bs_oc := oc |}).


End GenerateBigWig.

(** ** [PLFoldOutput]: unpaired probabilities and their text *)

Module PLFold.

(** [str(z)] of an integer. *)
Definition str_int (z : Z) : string := NilZero.string_of_int (Z.to_int z).

(** The characters of the text of a finite float: digits, [.], [e], [+]
and [-]. *)
Definition numeric_char (c : ascii) : bool :=
  let n := nat_of_ascii c in
  (48 <=? n)%nat && (n <=? 57)%nat ||
  Ascii.eqb c "." || Ascii.eqb c "e" || Ascii.eqb c "+" || Ascii.eqb c "-".

Definition digit_char (c : ascii) : Prop :=
  (48 <= nat_of_ascii c <= 57)%nat.

(** What the text of a [PLFoldOutput] needs of [np.float64]: rounding to
7 decimals, [str], [float] and [np.isclose] with [rtol=0], [atol=1e-7] and
[equal_nan=True]. [regular] describes the cells of a profile: NaN, or a
number of moderate size such as a probability or a difference of two.
The laws are the facts about binary64, its shortest decimal text and its
rounding that the text round trip rests on. *)
Class FloatText := {
  cell : Type;
  nan : cell;
  isnan : cell -> bool;
  round7 : cell -> cell;
  float_str : cell -> string;
  float_parse : string -> option cell;
  isclose : cell -> cell -> bool;
  regular : cell -> Prop;
  str_nan : forall x, isnan x = true -> float_str (round7 x) = "nan";
  str_numeric : forall x, regular x -> isnan x = false ->
    float_str (round7 x) <> "" /\
    Forall (fun c => numeric_char c = true) (list_ascii_of_string (float_str (round7 x)));
  parse_str : forall x, regular x -> isnan x = false ->
    float_parse (float_str (round7 x)) = Some (round7 x);
  close_round : forall x, regular x -> isnan x = false ->
    isclose (round7 x) x = true /\ isclose x (round7 x) = true;
  close_nan : forall x, isnan x = true -> isclose nan x = true /\ isclose x nan = true
}.

Section PLFoldOutput.
Context {FT : FloatText}.

(** A two-dimensional array, row by row; [[]] is the empty
one-dimensional array NumPy makes of no rows. *)
Definition ndarray : Type := list (list cell).

Record PLFoldOutput := {
  text : string;
  _numpy_array : option ndarray
}.

(** [PLFoldOutput.__sanitize(text)] *)
Definition __sanitize (text : string) : result string :=
  list_text ← split NL text;
  first ← getitem list_text 0;
  text ← (if startswith ("1" ++ TAB) first
          then
            fields ← split TAB first;
            let length := Z.of_nat (length fields) - 1 in
            let part := map (fun x => str_int (x + 1)) (range 0 length) in
            Ok (join NL ("#unpaired probabilities"
                         :: (" #$i" ++ TAB ++ "l=" ++ join TAB part)
                         :: list_text))
          else if startswith "#" first
          then
            second ← getitem list_text 1;
            if startswith " #" second then Ok text
            else Raise (ValueError NotAPlfoldString)
          else Raise (ValueError NotAPlfoldString));
  Ok (replace "nan" "NA" text).

(** [np.array(rows, dtype=float)]: the rows must have one length. *)
Definition np_array (rows : list (list cell)) : result ndarray :=
  match rows with
  | [] => Ok []
  | r :: rest =>
      if forallb (fun r' => Nat.eqb (length r') (length r)) rest
      then Ok rows
      else Raise (ValueError ShapeMismatch)
  end.

(** [PLFoldOutput.__array_to_string(array)] *)
Definition __array_to_string (array : list (list cell)) : result string :=
  array ← np_array array;
  let array := map (map round7) array in
  Ok (join NL (imap (fun x row => join TAB (str_int (Z.of_nat x + 1) :: map float_str row))
                    array)).

(** [PLFoldOutput(text)] *)
Definition __init__ (text : string) : result PLFoldOutput :=
  text ← __sanitize text;
  Ok {| text := text; _numpy_array := None |}.

(** [PLFoldOutput.from_numpy(array)]; the last step is [__set_array]. *)
Definition from_numpy (array : list (list cell)) : result PLFoldOutput :=
  array_string ← __array_to_string array;
  output ← __init__ array_string;
  array ← np_array array;
  Ok {| text := text output; _numpy_array := Some array |}.





(** [get_text(nan="NA", truncated=True)] *)
Definition get_text (self : PLFoldOutput) (nan_label : string) (truncated : bool)
  : result string :=
  out_string ← (if truncated
                then lines ← split NL (text self); Ok (join NL (drop 2 lines))
                else Ok (text self));
  Ok (replace "NA" nan_label out_string).




(** The line of row [x] as [__array_to_string] writes it. *)
Definition raw_row (x : nat) (row : list cell) : string :=
  join TAB (str_int (Z.of_nat x + 1) :: map float_str (map round7 row)).

(** Every cell is regular; every row has the length of the others. *)
Definition regular_array (array : ndarray) : Prop :=
  Forall (Forall regular) array.

Definition rectangular (array : ndarray) : Prop :=
  forall r r', r ∈ array -> r' ∈ array -> length r = length r'.

(** The text of a cell in a sanitized text, the line of row [x], the
second header line for [n] columns, and the cell that is read back. *)
Definition cell_text (x : cell) : string :=
  if isnan x then "NA" else float_str (round7 x).

Definition row_text (x : nat) (row : list cell) : string :=
  join TAB (str_int (Z.of_nat x + 1) :: map cell_text row).

Definition header (n : Z) : string :=
  " #$i" ++ TAB ++ "l=" ++ join TAB (map (fun x => str_int (x + 1)) (range 0 n)).


(** The text [from_numpy] keeps for an array. *)
Definition sanitized_text (array : ndarray) : string :=
  join NL ("#unpaired probabilities"
           :: header (Z.of_nat (length (default [] (head array))))
           :: imap row_text array).

End PLFoldOutput.

End PLFold.

(** ** Exact decimal cells

An instance of [FloatText] in exact arithmetic: a cell is NaN or an
integer number of units of 1e-8 (the collector rounds the engine's values
to 8 decimals before they reach a [PLFoldOutput]). Rounding to 7 decimals
is to the nearest multiple of ten units, ties to even; the text of a value
is its number of units followed by [e-08]; two values are close when they
differ by at most ten units, that is 1e-7. These cells are decimals, not
binary64: they show that the laws of [FloatText] can be met together and
let the definitions run on concrete arrays. Where a decimal tie or a
distance of exactly 1e-7 is involved, binary64 may round or compare
differently. *)

Module Decimal8.

Inductive dcell :=
| DNaN
| DVal (units : Z).

Definition disnan (c : dcell) : bool :=
  match c with DNaN => true | DVal _ => false end.

(** The nearest integer to [z / 10], ties to even. *)
Definition rint10 (z : Z) : Z :=
  let q := z / 10 in
  let r := z mod 10 in
  if r <? 5 then q
  else if 5 <? r then q + 1
  else if Z.even q then q else q + 1.

Definition dround7 (c : dcell) : dcell :=
  match c with
  | DNaN => DNaN
  | DVal z => DVal (10 * rint10 z)
  end.

Definition dstr (c : dcell) : string :=
  match c with
  | DNaN => "nan"
  | DVal z => PLFold.str_int z ++ "e-08"
  end.

Definition dparse (s : string) : option dcell :=
  let n := String.length s in
  if String.eqb s "nan" then Some DNaN
  else if (4 <=? n)%nat && String.eqb (substring (n - 4) 4 s) "e-08"
  then option_map (fun d => DVal (Z.of_int d)) (NilZero.int_of_string (substring 0 (n - 4) s))
  else None.

Definition dclose (a b : dcell) : bool :=
  match a, b with
  | DNaN, DNaN => true
  | DVal x, DVal y => Z.abs (x - y) <=? 10
  | _, _ => false
  end.

End Decimal8.

(** ** Whole-sequence folding of [RNAtweaks.py] *)

Module RNAfold.

Import RNAtweaks.

(** [str(x)] of an integer or [None]. *)
Definition str_opt (x : option Z) : string :=
  match x with
  | Some z => PLFold.str_int z
  | None => "None"
  end.

(** An entry of [constraint]: [(mode, fstart, fend)] or
    [(mode, fstart, fend, start, end)]. *)
Record fold_entry := {
  fe_mode : string;
  fe_fstart : Z;
  fe_fend : Z;
  fe_second : option (Z * Z)
}.

(** [coordinates = [gs, ge, tostart, toend]], each an integer or [None]. *)
Record coordinates := {
  co_gs : option Z;
  co_ge : option Z;
  co_tostart : option Z;
  co_toend : option Z
}.

(** [x + tostart + gs] when the four coordinates are given, else [None]:
    the values [os], [oe], [osp], [oep]. *)
Definition shifted (c : coordinates) (x : Z) : option Z :=
  match co_gs c, co_ge c, co_tostart c, co_toend c with
  | Some gs, Some _, Some tostart, Some _ => Some (x + tostart + gs)
  | _, _, _, _ => None
  end.

(** [gtostart, gtoend] *)
Definition gto (c : coordinates) : option Z * option Z :=
  match co_gs c, co_ge c, co_tostart c, co_toend c with
  | Some gs, Some _, Some tostart, Some toend => (Some (tostart + gs), Some (toend + gs))
  | _, _, _, _ => (None, None)
  end.

(** [printcons] of a single region [[a, b]]. *)
Definition printcons_one (c : coordinates) (a b : Z) : string :=
  join "|" [join "-" [str_opt (co_tostart c); str_opt (co_toend c)];
            join "-" [str_opt (gto c).1; str_opt (gto c).2];
            join "-" [PLFold.str_int (a + 1); PLFold.str_int (b + 1)];
            join "-" [str_opt (shifted c a); str_opt (shifted c b)]].

(** [printcons] of the two regions of a [bothconstraint] entry. *)
Definition printcons_both (c : coordinates) (fstart fend start end_ : Z) : string :=
  join "|" [join "-" [str_opt (co_tostart c); str_opt (co_toend c)];
            join "-" [str_opt (gto c).1; str_opt (gto c).2];
            join "-" [PLFold.str_int (fstart + 1); PLFold.str_int (fend + 1)]
              ++ ":" ++ join "-" [PLFold.str_int (start + 1); PLFold.str_int (end_ + 1)];
            join "-" [str_opt (shifted c fstart); str_opt (shifted c fend)]
              ++ ":" ++ join "-" [str_opt (shifted c start); str_opt (shifted c end_)]].

(** What the engine returns for a fold compound: [_calc_gibbs(fc)], a
    float or [None], and [_get_bppm(fc.bpp(), 0, fc.length)]. *)
Record engine := {
  calc_gibbs : fold_compound -> pyval;
  get_bppm : fold_compound -> list bpp_entry
}.

Section Fold.
Variable math_log : float -> float.
Variable eng : engine.

(** The constraint branch of the loop body: the fold compound with the
    constraint added, the condition the fold is filed under, and
    [printcons]. An entry of three elements leaves [start] and [end] at
    [None], on which [start + 1] raises. *)
Definition constrain_entry (c : coordinates) (fc : fold_compound) (entry : fold_entry)
  : result (fold_compound * string * string) :=
  let mode := fe_mode entry in
  let fstart := fe_fstart entry in
  let fend := fe_fend entry in
  if String.eqb mode "paired" || String.eqb mode "p" || String.eqb mode "constraint_paired"
  then Ok (_constrain_paired fc fstart fend None None, "constraint_paired",
           printcons_one c fstart fend)
  else if String.eqb mode "secondconstraint_paired"
  then match fe_second entry with
       | Some (start, end_) =>
           Ok (_constrain_paired fc start end_ None None, mode, printcons_one c start end_)
       | None => Raise TypeError
       end
  else if String.eqb mode "bothconstraint_paired"
  then match fe_second entry with
       | Some (start, end_) =>
           Ok (_constrain_paired fc fstart fend (Some start) (Some end_), mode,
               printcons_both c fstart fend start end_)
       | None => Raise TypeError
       end
  else if String.eqb mode "unpaired" || String.eqb mode "u"
          || String.eqb mode "constraint_unpaired"
  then Ok (_constrain_unpaired fc fstart fend None None, "constraint_unpaired",
           printcons_one c fstart fend)
  else if String.eqb mode "secondconstraint_unpaired"
  then match fe_second entry with
       | Some (start, end_) =>
           Ok (_constrain_unpaired fc start end_ None None, mode, printcons_one c start end_)
       | None => Raise TypeError
       end
  else if String.eqb mode "bothconstraint_unpaired"
  then match fe_second entry with
       | Some (start, end_) =>
           Ok (_constrain_unpaired fc fstart fend (Some start) (Some fend), mode,
               printcons_both c fstart fend start end_)
       | None => Raise TypeError
       end
  else Raise (ValueError WronglyFormatted).

(** [if not FoldOut: FoldOut = FoldOutput("none", mode)] *)
Definition fold_output_or_new (FoldOut : option FoldOutput) (mode : string)
  : result FoldOutput :=
  match FoldOut with
  | Some fo => Ok fo
  | None => FoldOutput_init "none" (Some mode) VNone
  end.

(** The body of [for entry in constraint:] in [api_rnafold]; the loop
    carries [fc] and [FoldOut]. *)
Definition api_rnafold_entry (c : coordinates)
    (st : fold_compound * option FoldOutput) (entry : fold_entry)
  : result (fold_compound * option FoldOutput) :=
  let '(fc, FoldOut) := st in
  r ← constrain_entry c fc entry;
  let '(fc, mode, printcons) := r in
  fo ← fold_output_or_new FoldOut mode;
  fo ← from_rnamediator_fold_compound math_log fo mode (VStr printcons)
         (calc_gibbs eng fc) (get_bppm eng fc);
  Ok (fc, Some fo).

(** [api_rnafold(sequence, span, temperature, constraint, FoldOut,
    coordinates)]. [RNA.md()] leaves the window size at its default. *)
Definition api_rnafold (sequence : string) (span : Z) (temp : float)
    (constraint : option (list fold_entry)) (FoldOut : option FoldOutput)
    (c : coordinates) : result (option FoldOutput) :=
  let m := {| max_bp_span := span; window_size := -1; temperature := temp |} in
  let fc := new_fold_compound sequence m in
  match constraint with
  | Some entries =>
      st ← for_each (api_rnafold_entry c) entries (Ok (fc, FoldOut));
      Ok st.2
  | None =>
      fo ← fold_output_or_new FoldOut "unconstrained";
      fo ← from_rnamediator_fold_compound math_log fo "unconstrained" (VStr "unconstrained")
             (calc_gibbs eng fc) (get_bppm eng fc);
      Ok (Some fo)
  end.

End Fold.

(** *** [from_RNAfold_file] and [cmd_rnafold] *)

(** The first argument of the constructor as it is passed: a string or
    the list of lines of a file. *)
Inductive pyarg :=
| AStr (s : string)
| ALines (lines : list string).

(** [condition == x] *)
Definition arg_eq (condition : pyarg) (x : string) : bool :=
  match condition with
  | AStr s => String.eqb s x
  | ALines _ => false
  end.

(** [FoldOutput(condition, anno, gibbs)] with the first argument as
    passed; a list is no key of a dictionary. *)
Definition FoldOutput_new (condition : pyarg) (anno : option string) (gibbs : pyval)
  : result FoldOutput :=
  if negb (existsb (arg_eq condition)
             ["unconstrained"; "constraint"; "pairedconstraint";
              "constraint_unpaired"; "constraint_paired";
              "secondconstraint_unpaired"; "secondconstraint_paired";
              "bothconstraint_unpaired"; "bothconstraint_paired"])
  then Raise AssertionError
  else match condition with
       | AStr c => FoldOutput_init c anno gibbs
       | ALines _ => Raise TypeError
       end.

(** [s.lstrip(chars)] and [s.strip(chars)] *)
Fixpoint lstrip (chars : list ascii) (s : list ascii) : list ascii :=
  match s with
  | [] => []
  | a :: s' => if bool_decide (a ∈ chars) then lstrip chars s' else s
  end.

Definition strip (chars : string) (s : string) : string :=
  let cs := list_ascii_of_string chars in
  string_of_list_ascii (rev (lstrip cs (rev (lstrip cs (list_ascii_of_string s))))).

(** [FoldOutput.from_RNAfold_file(file_path, condition)]; [isfile] is
    [os.path.isfile(file_path)] and [file_data] what [readlines] returns.
    The last line is [cls(file_data, condition, gibbs)]. *)
Definition from_RNAfold_file (isfile : bool) (file_data : list string) (condition : string)
  : result FoldOutput :=
  if negb (valid_condition condition) then Raise AssertionError
  else if negb isfile then Raise AssertionError
  else
    line ← getitem file_data 2;
    fields ← split " " line;
    g ← getitem fields 1;
    let gibbs := strip "()" g in
    FoldOutput_new (ALines file_data) (Some condition) (VStr gibbs).

(** The body of [for entry in constraint:] in [cmd_rnafold]. *)
Definition cmd_fold_entry (constraint_string : list command_line) (entry : constraint_entry)
  : result (list command_line) :=
  let mode := c_mode entry in
  let start := c_start entry in
  let end_ := c_end entry in
  const ← (if String.eqb mode "paired" || String.eqb mode "p" then Ok "F"
           else if String.eqb mode "unpaired" || String.eqb mode "u" then Ok "P"
           else Raise (ValueError WronglyFormatted));
  Ok (constraint_string ++ [{| cl_const := const; cl_first := start + 1;
                               cl_partner := 0; cl_length := end_ - start |}])%list.

(** The [RNAfold] process [cmd_rnafold] starts. *)
Record rnafold_process := {
  rf_maxBPspan : Z;
  rf_commands : list command_line;
  rf_T : float;
  rf_stdin : string
}.

(** What the process leaves behind: its error output, whether the file
    [sequence_0001_lunp] exists, and the lines of that file. *)
Record rnafold_run := {
  run_stderr : string;
  run_isfile : bool;
  run_file_data : list string
}.

(** [cmd_rnafold(sequence, window, span, region, temperature, constype,
    consval, constraint)]; [run] is the process. *)
Definition cmd_rnafold (run : rnafold_process -> rnafold_run)
    (sequence : string) (span : Z) (temp : float)
    (constraint : option (list constraint_entry)) : result FoldOutput :=
  constraint_string ← match constraint with
                       | Some entries => for_each cmd_fold_entry entries (Ok [])
                       | None => Ok []
                       end;
  let r := run {| rf_maxBPspan := span; rf_commands := constraint_string;
                  rf_T := temp; rf_stdin := sequence |} in
  if negb (String.eqb (run_stderr r) "") then Raise AssertionError
  else from_RNAfold_file (run_isfile r) (run_file_data r) "unconstrained".

End RNAfold.

(** ** Trimming a [PLFoldOutput] *)

Module Localize.

Import PLFold.

Section Localize.
Context {FT : FloatText}.

(** [text_list[x] = "\t".join([str(x + 1)] + item.split("\t")[1:])] *)
Definition renumber (x : nat) (item : string) : result string :=
  fields ← split TAB item;
  Ok (join TAB (str_int (Z.of_nat x + 1) :: drop 1 fields)).

(** [self.localize(start, end)]: the object after the call. *)
Definition localize (self : PLFoldOutput) (start end_ : Z) : result PLFoldOutput :=
  let array := (fun a => NP.slice a start end_) <$> _numpy_array self in
  lines ← split NL (text self);
  let text_list := NP.slice lines (start + 2) (end_ + 2) in
  text_list ← mapM id (imap renumber text_list);
  text ← __sanitize (join NL text_list);
  Ok {| text := text; _numpy_array := array |}.

End Localize.

End Localize.

(** ** Order of the records of a scan *)

Module ScanOrder.

(** Every element of [l] stands in relation [R] to every later one. *)
Definition ordered {A} (R : A -> A -> Prop) (l : list A) : Prop :=
  forall (i j : nat) (x y : A), (i < j)%nat -> l !! i = Some x -> l !! j = Some y -> R x y.

Import CollectConsResults.

(** What the loop of [judge_diff] has appended after the positions below
    [n]: records of positions below [n], in the order of the positions. *)
Definition placed (s : scan) (n : Z) (r : bed_record) : Prop :=
  exists pos, 0 <= pos < n /\
    bed_gpos r = genomic_pos s pos /\
    bed_gend r = bed_gpos r + sc_ulim s /\
    bed_chrom r = wn_chrom (sc_name s) /\
    bed_goi r = wn_goi (sc_name s) /\
    bed_cons r = wn_cons (sc_name s) /\
    bed_strand r = wn_strand (sc_name s) /\
    bed_gcons r = (if negb (String.eqb (wn_strand (sc_name s)) "-")
                   then (sc_cs s + sc_ws s, sc_ce s + sc_ws s)
                   else (sc_we s - sc_ce s - 1, sc_we s - sc_cs s)).

Definition by_position (s : scan) (r r' : bed_record) : Prop :=
  if negb (String.eqb (wn_strand (sc_name s)) "-")
  then bed_gpos r < bed_gpos r'
  else bed_gpos r' < bed_gpos r.

Import GenerateBigWig.

(** The genomic start [create_bw_entries] gives position [pos]. *)
Definition bw_gpos (s : bw_scan) (pos : Z) : Z :=
  if negb (String.eqb (bs_gstrand s) "-")
  then pos + bs_ws s - bs_ulim s + 1
  else bs_we s - pos.

(** An entry appended for a position below [n]. *)
Definition bw_placed (s : bw_scan) (n : Z) (e : bw_entry) : Prop :=
  exists pos, 0 <= pos < n /\
    bw_start e = bw_gpos s pos /\
    bw_end e = bw_start e + 1 /\
    bw_chrom e = bs_chrom s.

Definition bw_by_position (gstrand : string) (e e' : bw_entry) : Prop :=
  if negb (String.eqb gstrand "-")
  then bw_start e < bw_start e'
  else bw_start e' < bw_start e.

End ScanOrder.

(** ** Chromosome sizes and lists of files of [GenerateBigWig.py] *)

Module BigWigFiles.

(** [s[:n]] *)
Definition prefix_to (n : Z) (s : string) : string :=
  if 0 <=? n then substring 0 (Z.to_nat n) s
  else substring 0 (Z.to_nat (len s + n)) s.

(** The name of one entry of [read_chromsize(cs, limit)], the body of
    [for i in range(len(sizes)):]. In the branch for [CHR] the source adds
    [l[3:]], a list, to a string. *)
Definition chromsize_name (limit : Z) (name : string) : result string :=
  name ← (if negb (String.eqb (substring 0 2 name) "chr")
          then if String.eqb (substring 0 2 name) "CHR"
               then Raise TypeError
               else Ok ("chr" ++ name)
          else Ok name);
  Ok (if limit <? len name then prefix_to limit name else name).

(** [read_chromsize(cs, limit)] on the parsed lines [(name, size)] of the
    file. *)
Definition read_chromsize (sizes : list (string * Z)) (limit : Z)
  : result (list (string * Z)) :=
  mapM (fun entry => name ← chromsize_name limit entry.1; Ok (name, entry.2)) sizes.

(** [equalize_lists(listoflists)]: every list is filled up with [None]
    to the length of the longest. *)
Definition equalize_lists {A} (listoflists : list (list (option A)))
  : list (list (option A)) :=
  let max_length := foldl (fun m l => Nat.max m (length l)) 0%nat listoflists in
  map (fun l => (l ++ replicate (max_length - length l) None)%list) listoflists.

End BigWigFiles.

(** ** Constraint texts: [get_location] and the readers of [FileProcessor.py] *)

Module Locations.

(** Whitespace of [str.rstrip()] among the ASCII characters: tab to
    carriage return, the four separators and the blank. *)
Definition is_space (c : ascii) : bool :=
  let n := nat_of_ascii c in
  ((9 <=? n) && (n <=? 13) || (28 <=? n) && (n <=? 32))%nat.

(** Whitespace [int()] skips around the literal in an ASCII text: tab to
    carriage return and the blank, not the four separators. *)
Definition is_int_space (c : ascii) : bool :=
  let n := nat_of_ascii c in
  ((9 <=? n) && (n <=? 13) || (n =? 32))%nat.

Definition is_digit (c : ascii) : bool :=
  let n := nat_of_ascii c in
  ((48 <=? n) && (n <=? 57))%nat.

(** Leading and trailing characters of the kind [sp] removed. *)
Fixpoint lstrip_ws (sp : ascii -> bool) (l : list ascii) : list ascii :=
  match l with
  | [] => []
  | c :: l' => if sp c then lstrip_ws sp l' else l
  end.

Definition rstrip_ws (sp : ascii -> bool) (l : list ascii) : list ascii :=
  rev (lstrip_ws sp (rev l)).

(** [s.rstrip()] *)
Definition rstrip (s : string) : string :=
  string_of_list_ascii (rstrip_ws is_space (list_ascii_of_string s)).

(** The digits of an integer literal: single underscores may stand
    between digits. [prev_digit] tells whether the character before was a
    digit. *)
Fixpoint int_digits (prev_digit : bool) (l : list ascii) : option (list ascii) :=
  match l with
  | [] => if prev_digit then Some [] else None
  | c :: l' =>
      if is_digit c then cons c <$> int_digits true l'
      else if Ascii.eqb c "_" && prev_digit then int_digits false l'
      else None
  end.

(** [int(s)] of a string; [None] stands for [ValueError]. *)
Definition py_int (s : string) : option Z :=
  let t := rstrip_ws is_int_space (lstrip_ws is_int_space (list_ascii_of_string s)) in
  let '(neg, body) :=
    match t with
    | "-"%char :: r => (true, r)
    | "+"%char :: r => (false, r)
    | _ => (false, t)
    end in
  digits ← int_digits false body;
  d ← NilZero.uint_of_string (string_of_list_ascii digits);
  Some (if neg then - Z.of_uint d else Z.of_uint d).

(** [get_location(entry)]: [[start, end, strand, value]], or [None] when
    the body raised. *)
Definition get_location (entry : string) : option (Z * Z * string * string) :=
  fields ← caught (split "|" entry);
  first ← fields !! 0%nat;
  parts ← caught (split "-" first);
  match parts with
  | [a; b] =>
      start ← py_int a;
      end_ ← py_int b;
      strand ← fields !! 1%nat;
      Some (start, end_, strand, default "." (fields !! 2%nat))
  | _ => None
  end.

(** The body of [for line in bed:] in [readConstraintsFromBed]: the key
    and the text appended under it. The end is kept as the text of the
    file. *)
Definition constraint_of_bed_line (linewise : bool) (line : string)
  : option (string * string) :=
  entries ← caught (split TAB (rstrip line));
  e1 ← entries !! 1%nat;
  start ← py_int e1;
  end_ ← entries !! 2%nat;
  goi ← entries !! 3%nat;
  strand ← entries !! 5%nat;
  Some (if linewise then "lw" else goi,
        join "|" [join "-" [PLFold.str_int (start + 1); end_]; strand]).

(** [cons[key].append(text)] for one line, in the state of the loop:
    [None] once a line has raised. *)
Definition add_bed_line (linewise : bool) (acc : option (gmap string (list string)))
    (line : string) : option (gmap string (list string)) :=
  cons ← acc;
  kv ← constraint_of_bed_line linewise line;
  Some (<[kv.1 := (default [] (cons !! kv.1) ++ [kv.2])%list]> cons).

(** [readConstraintsFromBed(bed, linewise)]: the dictionary of lists, or
    [None] when a line raised. *)
Definition readConstraintsFromBed (bed : list string) (linewise : bool)
  : option (gmap string (list string)) :=
  foldl (add_bed_line linewise) (Some ∅) bed.

End Locations.

(** ** Base-pair probabilities and validity of values in [RNAtweaks.py] *)

Module Bppm.

Import RNAtweaks.

(** [a == b] on two rows of the matrix: the same length and equal entry
    for entry. The entries are compared as numbers: Python takes two
    entries that are one object for equal before it compares them, which
    makes a difference for a NaN only. *)
Definition row_eq (a b : list float) : bool :=
  Nat.eqb (length a) (length b) && forallb id (zip_with PrimFloat.eqb a b).

(** [matrix.index(item)] for the row [item] at position [k]: the first
    position, from [j] on in [rows], whose row is [item] itself or equal to
    it. *)
Fixpoint matrix_index (rows : list (list float)) (k : nat) (item : list float) (j : nat)
  : nat :=
  match rows with
  | [] => j
  | r :: rest =>
      if Nat.eqb j k || row_eq r item then j else matrix_index rest k item (S j)
  end.

(** The body of [for i in range(int(start), int(end) + 1):] for the row
    [item] at position [k]. *)
Definition bppm_cell (matrix : list (list float)) (k : nat) (item : list float)
    (bppm : list bpp_entry) (i : Z) : result (list bpp_entry) :=
  v ← getitem item i;
  Ok (if PrimFloat.ltb 0 v
      then (bppm ++ [{| bp_base := Z.of_nat (matrix_index matrix k item 0);
                        bp_mate := i; bp_prob := v |}])%list
      else bppm).

(** The body of [for item in matrix:]. *)
Definition bppm_row (matrix : list (list float)) (start end_ : Z)
    (bppm : list bpp_entry) (row : nat * list float) : result (list bpp_entry) :=
  for_each (bppm_cell matrix row.1 row.2) (range start (end_ + 1)) (Ok bppm).

(** [_get_bppm(matrix, start, end)]: the list of entries, or [None]
    when the region does not fit or the body raised. *)
Definition _get_bppm (matrix : list (list float)) (start end_ : Z)
  : option (list bpp_entry) :=
  if (start <? 0) || (Z.of_nat (length matrix) <? end_) then None
  else caught (for_each (bppm_row matrix start end_) (imap pair matrix) (Ok [])).

(** An entry made of the row [item] at position [k]: its base is the
    first position of the matrix whose row equals [item]. *)
Definition bppm_entry_of (matrix : list (list float)) (start end_ : Z) (e : bpp_entry) : Prop :=
  start <= bp_mate e <= end_ /\
  PrimFloat.ltb 0 (bp_prob e) = true /\
  exists (k : nat) item,
    matrix !! k = Some item /\
    getitem item (bp_mate e) = Ok (bp_prob e) /\
    0 <= bp_base e <= Z.of_nat k /\
    (exists row, matrix !! Z.to_nat (bp_base e) = Some row /\ row_eq row item = true) /\
    (forall (j : nat) r,
       Z.of_nat j < bp_base e -> matrix !! j = Some r -> row_eq r item = false).

(** *** [_isvalid] and [_isinvalid] *)

(** The values the checks are applied to: [None], the object [np.nan],
    any other float, an integer or a string. *)
Inductive pyobj :=
| ONone
| ONpNan
| OFloat (f : float)
| OInt (z : Z)
| OStr (s : string).

(** [x or x == 0] *)
Definition truthy_or_zero (x : pyobj) : bool :=
  match x with
  | ONone => false
  | ONpNan => true
  | OFloat f => negb (PrimFloat.eqb f 0) || PrimFloat.eqb f 0
  | OInt z => negb (z =? 0) || (z =? 0)
  | OStr s => negb (String.eqb s "")
  end.

(** [x in ("None", "nan", "none", "NA", "NAN") or x is None or x is
    np.nan] *)
Definition names_no_value (x : pyobj) : bool :=
  match x with
  | ONone | ONpNan => true
  | OFloat _ | OInt _ => false
  | OStr s => bool_decide (s ∈ ["None"; "nan"; "none"; "NA"; "NAN"])
  end.

(** [_isvalid(x)] *)
Definition _isvalid (x : pyobj) : bool :=
  if truthy_or_zero x then (if names_no_value x then false else true) else false.

(** [_isinvalid(x)] *)
Definition _isinvalid (x : pyobj) : bool :=
  if truthy_or_zero x then (if names_no_value x then true else false) else true.

End Bppm.

(** * Properties *)

(** ** Loops *)

Section ForEach.
Context {S X : Type}.
Variable body : S -> X -> result S.

Lemma for_each_Raise e xs : for_each body xs (Raise e) = Raise e.
Proof. induction xs as [|x xs IH]; [reflexivity|]. exact IH. Qed.

Lemma for_each_cons st x xs :
  for_each body (x :: xs) (Ok st) = for_each body xs (body st x).
Proof. reflexivity. Qed.

Lemma for_each_app r xs ys :
  for_each body (xs ++ ys)%list r = for_each body ys (for_each body xs r).
Proof. unfold for_each. apply foldl_app. Qed.

(** A property of the loop variables that every iteration keeps holds
    after the loop. *)
Lemma for_each_invariant (P : S -> Prop) xs :
  (forall st x st', x ∈ xs -> P st -> body st x = Ok st' -> P st') ->
  forall st st', P st -> for_each body xs (Ok st) = Ok st' -> P st'.
Proof.
  induction xs as [|x xs IH]; intros Hbody st st' HP Hrun.
  - injection Hrun as <-. exact HP.
  - rewrite for_each_cons in Hrun. destruct (body st x) as [st1|e] eqn:E.
    + eapply IH; [| |exact Hrun].
      * intros s y s' Hy. apply Hbody. by right.
      * eapply Hbody; [by left|exact HP|exact E].
    + rewrite for_each_Raise in Hrun. discriminate.
Qed.

(** An exception that leaves the loop was raised by one iteration. *)
Lemma for_each_Raise_inv xs : forall st e,
  for_each body xs (Ok st) = Raise e -> exists st0 x, x ∈ xs /\ body st0 x = Raise e.
Proof.
  induction xs as [|x xs IH]; intros st e Hrun; [discriminate|].
  rewrite for_each_cons in Hrun. destruct (body st x) as [st1|e1] eqn:E.
  - destruct (IH _ _ Hrun) as (st0 & y & Hy & Hs). exists st0, y. split; [by right|done].
  - rewrite for_each_Raise in Hrun. injection Hrun as <-. exists st, x. split; [by left|done].
Qed.

(** An iteration that always raises makes the whole loop raise. *)
Lemma for_each_raising_entry pre x post r :
  (forall st, is_Ok (body st x) = false) ->
  is_Ok (for_each body (pre ++ x :: post)%list r) = false.
Proof.
  intros Hx. rewrite for_each_app.
  destruct (for_each body pre r) as [st|e]; [|by rewrite for_each_Raise].
  rewrite for_each_cons. specialize (Hx st).
  destruct (body st x); [discriminate|]. by rewrite for_each_Raise.
Qed.
End ForEach.

Import RNAtweaks.

(** ** Strings *)

Lemma length_list_ascii_of_string s :
  length (list_ascii_of_string s) = String.length s.
Proof. induction s as [|c s IH]; simpl; congruence. Qed.

Lemma length_string_of_list_ascii l :
  String.length (string_of_list_ascii l) = length l.
Proof. induction l as [|c l IH]; simpl; congruence. Qed.

Lemma get_list_ascii_of_string s : forall i,
  String.get i s = list_ascii_of_string s !! i.
Proof. induction s as [|c s IH]; intros [|i]; simpl; auto. Qed.

Lemma length_upper s : String.length (upper s) = String.length s.
Proof. induction s as [|c s IH]; simpl; congruence. Qed.

Lemma length_replace_char (a b : ascii) s :
  String.length (replace (String a "") (String b "") s) = String.length s.
Proof.
  unfold replace. induction s as [|c s IH]; [reflexivity|].
  cbn [replace_aux String.prefix String.length Nat.sub].
  destruct (ascii_dec a c) as [->|Hne].
  - destruct s; simpl; f_equal; exact IH.
  - simpl; f_equal; exact IH.
Qed.

Lemma len_normalized sequence : len (replace "T" "U" (upper sequence)) = len sequence.
Proof. unfold len. by rewrite length_replace_char, length_upper. Qed.


(** ** Indexing *)

Lemma index_nonneg n x i : 0 <= x -> index n x = Some i -> i = Z.to_nat x /\ (i < n)%nat.
Proof.
  unfold index. intros Hx.
  destruct (Z.leb_spec 0 x); [|lia].
  destruct (Z.ltb_spec x (Z.of_nat n)); simpl.
  - intros [= <-]. lia.
  - destruct (Z.ltb_spec x 0); [lia|]. rewrite andb_false_r. discriminate.
Qed.

Lemma elem_of_range a b x : x ∈ range a b <-> a <= x < b.
Proof.
  unfold range. rewrite list_elem_of_fmap. split.
  - intros (i & -> & Hi). apply elem_of_seq in Hi. lia.
  - intros H. exists (Z.to_nat (x - a)). split; [lia|]. apply elem_of_seq. lia.
Qed.

Lemma setitem_frame {A} (l l' : list A) x v :
  0 <= x -> setitem l x v = Ok l' ->
  length l' = length l /\ forall i : nat, Z.of_nat i <> x -> l' !! i = l !! i.
Proof.
  unfold setitem. intros Hx. destruct (index (length l) x) as [j|] eqn:E; [|discriminate].
  intros [= <-]. destruct (index_nonneg _ _ _ Hx E) as [-> _].
  split; [apply length_insert|]. intros i Hi. apply list_lookup_insert_ne. lia.
Qed.

(** ** [_mutate] *)

Lemma mutate_region_frame value start end_ seq seq' :
  0 <= start ->
  mutate_region value start end_ seq = Ok seq' ->
  length seq' = length seq /\
  forall i : nat, ~ (start <= Z.of_nat i < end_) -> seq' !! i = seq !! i.
Proof.
  intros Hstart Hrun. unfold mutate_region in Hrun.
  eapply (for_each_invariant _
            (fun s => length s = length seq /\
                      forall i : nat, ~ (start <= Z.of_nat i < end_) -> s !! i = seq !! i));
    [|split; reflexivity|exact Hrun].
  intros st x st' Hx [Hlen Hout] Hbody. apply elem_of_range in Hx.
  destruct (getitem value (x - start)) as [c|]; [|discriminate].
  apply setitem_frame in Hbody as [Hlen' Hout']; [|lia].
  split; [congruence|]. intros i Hi. rewrite Hout' by lia. by apply Hout.
Qed.


(** Claim C10, for regions that start at a non-negative index. For such a
    region (and a second region, when one is given, that does too), the
    string [_mutate] returns is as long as the input sequence, and every
    position outside [[start, end)] and outside [[fstart, fend)] holds the
    character the input has there. *)
Theorem mutate_keeps_length_and_frame sequence start end_ value fstart fend mutated :
  0 <= start ->
  (forall f, fstart = Some f -> 0 <= f) ->
  _mutate sequence start end_ value fstart fend = Some mutated ->
  String.length mutated = String.length sequence /\
  forall i : nat,
    ~ (start <= Z.of_nat i < end_) ->
    (forall f g, fstart = Some f -> fend = Some g -> ~ (f <= Z.of_nat i < g)) ->
    String.get i mutated = String.get i sequence.
Proof.
  intros Hstart Hfstart Hmut. unfold _mutate in Hmut.
  destruct (mutate_region _ start end_ _) as [seq1|] eqn:E1; [|discriminate].
  apply mutate_region_frame in E1 as [Hlen1 Hout1]; [|done].
  cbn [mbind result_bind] in Hmut.
  destruct (truthy fstart && truthy fend) eqn:Etwo.
  - destruct fstart as [f|]; [|discriminate]. destruct fend as [g|]; [|simpl in Etwo; by rewrite andb_false_r in Etwo].
    change (default 0 (Some f)) with f in Hmut. change (default 0 (Some g)) with g in Hmut.
    destruct (mutate_region _ f g seq1) as [seq2|] eqn:E2; [|discriminate].
    apply mutate_region_frame in E2 as [Hlen2 Hout2]; [|by apply Hfstart].
    injection Hmut as <-. split.
    + by rewrite length_string_of_list_ascii, Hlen2, Hlen1, length_list_ascii_of_string.
    + intros i Hi Hi2. rewrite !get_list_ascii_of_string, list_ascii_of_string_of_list_ascii.
      rewrite Hout2 by (by apply Hi2). by apply Hout1.
  - injection Hmut as <-. split.
    + by rewrite length_string_of_list_ascii, Hlen1, length_list_ascii_of_string.
    + intros i Hi _. rewrite !get_list_ascii_of_string, list_ascii_of_string_of_list_ascii.
      by apply Hout1.
Qed.

Lemma mutate_keeps_length_and_frame_witness :
  String.length "AGGUAGGU" = String.length "ACGUACGU" /\
  forall i : nat,
    ~ (1 <= Z.of_nat i < 3) ->
    (forall f g, Some 5 = Some f -> Some 7 = Some g -> ~ (f <= Z.of_nat i < g)) ->
    String.get i "AGGUAGGU" = String.get i "ACGUACGU".
Proof.
  apply (mutate_keeps_length_and_frame "ACGUACGU" 1 3 "GG" (Some 5) (Some 7)).
  - lia.
  - intros f [= <-]. lia.
  - reflexivity.
Defined.

(** For every region the claim fails: Python counts a negative index from
    the end, so the region [[-1, 0)] rewrites the last character of the
    sequence, at position 3, which lies outside the region. *)
Lemma mutate_negative_start_writes_outside_the_region :
  _mutate "ACGU" (-1) 0 "G" None None = Some "ACGG" /\
  (-1 <=? 3) && (3 <? 0) = false /\
  String.get 3 "ACGU" = Some "U"%char /\
  String.get 3 "ACGG" = Some "G"%char.
Proof. repeat split; reflexivity. Qed.

(** ** Constraint bounds *)

Lemma check_constraint_Ok seqlen entry :
  in_bounds seqlen entry <->
  _check_constraint seqlen (c_start entry) (c_end entry) = Ok tt.
Proof.
  unfold in_bounds, _check_constraint.
  destruct (Z.ltb_spec (c_end entry) (c_start entry));
    [split; [lia|discriminate]|].
  destruct (Z.ltb_spec (c_start entry) 0); [split; [lia|discriminate]|].
  destruct (Z.ltb_spec seqlen (c_end entry)); [split; [lia|discriminate]|].
  split; [reflexivity|lia].
Qed.

Lemma check_constraint_Raise seqlen entry :
  ~ in_bounds seqlen entry ->
  exists e, _check_constraint seqlen (c_start entry) (c_end entry) = Raise e /\
            constraint_out_of_bounds e = true.
Proof.
  unfold in_bounds, _check_constraint. intros Hout.
  destruct (Z.ltb_spec (c_end entry) (c_start entry)); [by eexists|].
  destruct (Z.ltb_spec (c_start entry) 0); [by eexists|].
  destruct (Z.ltb_spec seqlen (c_end entry)); [by eexists|]. lia.
Qed.

Lemma api_entry_out_of_bounds constype consval m seqlen st entry :
  ~ in_bounds seqlen entry ->
  exists e, api_constraint_entry constype consval m seqlen st entry = Raise e /\
            constraint_out_of_bounds e = true.
Proof.
  intros Hout. destruct (check_constraint_Raise _ _ Hout) as (e & He & Hb).
  exists e. split; [|exact Hb]. unfold api_constraint_entry. destruct st. by rewrite He.
Qed.

Lemma cmd_entry_out_of_bounds constype consval seqlen st entry :
  ~ in_bounds seqlen entry ->
  exists e, cmd_constraint_entry constype consval seqlen st entry = Raise e /\
            constraint_out_of_bounds e = true.
Proof.
  intros Hout. destruct (check_constraint_Raise _ _ Hout) as (e & He & Hb).
  exists e. split; [|exact Hb]. unfold cmd_constraint_entry. destruct st. by rewrite He.
Qed.

Lemma api_entry_in_bounds constype consval m seqlen st entry e :
  in_bounds seqlen entry ->
  api_constraint_entry constype consval m seqlen st entry = Raise e ->
  constraint_out_of_bounds e = false.
Proof.
  intros Hin. apply check_constraint_Ok in Hin. unfold api_constraint_entry.
  destruct st. rewrite Hin. cbn [mbind result_bind].
  repeat (match goal with |- context [if ?b then _ else _] => destruct b end;
          try discriminate);
    by intros [= <-].
Qed.

Lemma cmd_entry_in_bounds constype consval seqlen st entry e :
  in_bounds seqlen entry ->
  cmd_constraint_entry constype consval seqlen st entry = Raise e ->
  constraint_out_of_bounds e = false.
Proof.
  intros Hin. apply check_constraint_Ok in Hin. unfold cmd_constraint_entry.
  destruct st. rewrite Hin. cbn [mbind result_bind].
  repeat (match goal with |- context [if ?b then _ else _] => destruct b end;
          try discriminate);
    by intros [= <-].
Qed.

(** Claim C5, for the windowed fold calls. [_check_constraint] accepts a
    constraint exactly when [0 <= start <= end <= sequence_length]. A
    constraint that violates the bounds makes it raise its out-of-bounds
    [ValueError]; a windowed fold call ([api_rnaplfold], [cmd_rnaplfold])
    that is given such a constraint anywhere in its list raises instead of
    reaching the engine, and raises exactly that error when the constraint
    comes first. When every constraint of the list is within bounds no
    out-of-bounds error is raised. *)
Theorem constraint_bounds_are_a_hard_error
    (sequence : string) (window span region : Z) (temp : float)
    (constype consval : string) (pre post : list constraint_entry)
    (entry : constraint_entry) :
  let seqlen := len sequence in
  let api c := api_rnaplfold sequence window span region temp constype consval (Some c) in
  let cmd c := cmd_rnaplfold sequence window span region temp constype consval (Some c) in
  (in_bounds seqlen entry <->
   _check_constraint seqlen (c_start entry) (c_end entry) = Ok tt) /\
  (~ in_bounds seqlen entry ->
   (exists e, _check_constraint seqlen (c_start entry) (c_end entry) = Raise e /\
              constraint_out_of_bounds e = true) /\
   is_Ok (api (pre ++ entry :: post)%list) = false /\
   is_Ok (cmd (pre ++ entry :: post)%list) = false /\
   (exists e, api (entry :: post) = Raise e /\ constraint_out_of_bounds e = true) /\
   (exists e, cmd (entry :: post) = Raise e /\ constraint_out_of_bounds e = true)) /\
  (Forall (in_bounds seqlen) (pre ++ entry :: post)%list ->
   (forall e, api (pre ++ entry :: post)%list = Raise e -> constraint_out_of_bounds e = false) /\
   (forall e, cmd (pre ++ entry :: post)%list = Raise e -> constraint_out_of_bounds e = false)).
Proof.
  intros seqlen api cmd. split; [apply check_constraint_Ok|]. split.
  - intros Hout. split; [by apply check_constraint_Raise|].
    subst api cmd. unfold api_rnaplfold, cmd_rnaplfold.
    destruct (shrink_window_span _ window span) as [[w s] ws].
    rewrite len_normalized. fold seqlen.
    set (m := {| max_bp_span := s; window_size := w; temperature := temp |}).
    repeat split.
    + pose proof (for_each_raising_entry (api_constraint_entry constype consval m seqlen)
                    pre entry post (Ok (Some (replace "T" "U" (upper sequence)),
                                        Some (new_fold_compound (replace "T" "U" (upper sequence)) m)))) as H.
      destruct (for_each _ _ _); [|reflexivity]. discriminate H.
      intros st. by destruct (api_entry_out_of_bounds constype consval m seqlen st entry Hout)
        as (e & -> & _).
    + pose proof (for_each_raising_entry (cmd_constraint_entry constype consval seqlen)
                    pre entry post (Ok (sequence, []))) as H.
      destruct (for_each _ _ _); [|reflexivity]. discriminate H.
      intros st. by destruct (cmd_entry_out_of_bounds constype consval seqlen st entry Hout)
        as (e & -> & _).
    + rewrite for_each_cons.
      destruct (api_entry_out_of_bounds constype consval m seqlen
                  (Some (replace "T" "U" (upper sequence)),
                   Some (new_fold_compound (replace "T" "U" (upper sequence)) m)) entry Hout)
        as (e & -> & Hb).
      exists e. by rewrite for_each_Raise.
    + rewrite for_each_cons.
      destruct (cmd_entry_out_of_bounds constype consval seqlen (sequence, []) entry Hout)
        as (e & -> & Hb).
      exists e. by rewrite for_each_Raise.
  - intros Hall. subst api cmd. unfold api_rnaplfold, cmd_rnaplfold.
    destruct (shrink_window_span _ window span) as [[w s] ws].
    rewrite len_normalized. fold seqlen. split; intros e.
    + destruct (for_each _ _ _) as [st|e'] eqn:E.
      * cbn [mbind result_bind]. destruct st.2; [discriminate|]. by intros [= <-].
      * intros [= <-].
        apply for_each_Raise_inv in E as (st0 & x & Hx & Hraise).
        eapply api_entry_in_bounds; [|exact Hraise].
        by eapply Forall_forall in Hall.
    + destruct (for_each _ _ _) as [st|e'] eqn:E.
      * destruct st. cbn [mbind result_bind].
        destruct (shrink_window_span _ window span) as [[? ?] ?]. discriminate.
      * intros [= <-].
        apply for_each_Raise_inv in E as (st0 & x & Hx & Hraise).
        eapply cmd_entry_in_bounds; [|exact Hraise].
        by eapply Forall_forall in Hall.
Qed.

(** For every fold call the claim fails: the whole-sequence fold calls do
    not check the bounds. The region [(0, 9)] on a sequence of four bases,
    which [_check_constraint] refuses, is constrained by [api_rnafold] at
    the positions 1 to 9 and the fold is filed; the loop of [cmd_rnafold]
    writes the command [F 1 0 9] for it. *)
Lemma whole_sequence_fold_skips_the_bounds_check :
  let eng := {| RNAfold.calc_gibbs := fun _ => VFloat (-1.5)%float;
                RNAfold.get_bppm := fun _ => [] |} in
  let entry := {| RNAfold.fe_mode := "paired"; RNAfold.fe_fstart := 0; RNAfold.fe_fend := 9;
                  RNAfold.fe_second := None |} in
  let c := {| RNAfold.co_gs := None; RNAfold.co_ge := None;
              RNAfold.co_tostart := None; RNAfold.co_toend := None |} in
  let fc := new_fold_compound "ACGU"
              {| max_bp_span := 4; window_size := -1; temperature := 37%float |} in
  _check_constraint (len "ACGU") 0 9 = Raise (ValueError (EndOutOfBounds 9 4)) /\
  option_map (fun r => fc_calls r.1.1) (caught (RNAfold.constrain_entry c fc entry))
    = Some (map (fun x => hc_add_bp_nonspecific x 0) (range 1 10)) /\
  is_Ok (RNAfold.api_rnafold (fun x => x) eng "ACGU" 4 37%float (Some [entry])
           (Some fold_output_constraint_paired) c) = true /\
  RNAfold.cmd_fold_entry [] {| c_mode := "paired"; c_start := 0; c_end := 9 |}
    = Ok [{| cl_const := "F"; cl_first := 1; cl_partner := 0; cl_length := 9 |}].
Proof. repeat split; vm_compute; reflexivity. Qed.

(** ** Window and span *)

Section ForEachRel.
Context {S1 S2 X : Type}.
Variables (body1 : S1 -> X -> result S1) (body2 : S2 -> X -> result S2).
Variable R : S1 -> S2 -> Prop.

(** Two loops over the same items whose iterations agree step by step
    end alike: both with related variables or both with the same error. *)
Lemma for_each_rel xs :
  (forall st1 st2 x, R st1 st2 -> result_rel R (body1 st1 x) (body2 st2 x)) ->
  forall r1 r2, result_rel R r1 r2 ->
  result_rel R (for_each body1 xs r1) (for_each body2 xs r2).
Proof.
  intros Hbody. induction xs as [|x xs IH]; intros r1 r2 Hr; [exact Hr|].
  destruct r1 as [a|e1], r2 as [b|e2]; try contradiction.
  - rewrite !for_each_cons. apply IH. by apply Hbody.
  - rewrite !for_each_Raise. exact Hr.
Qed.
End ForEachRel.

Lemma shrink_window_span_spec seqlen window span :
  let window' := if seqlen <? window then seqlen else window in
  let span' := if window' <? span then window' else span in
  shrink_window_span seqlen window span =
    (window', span',
     ((if seqlen <? window then [WindowShrunk window seqlen] else []) ++
      (if window' <? span then [SpanShrunk span window'] else []))%list).
Proof.
  unfold shrink_window_span.
  destruct (seqlen <? window); cbn zeta iota beta;
    match goal with |- context [?a <? span] => destruct (a <? span) end; reflexivity.
Qed.

(** A soft constraint on a text value returns the compound untouched
    when there is no position to constrain, and [None] otherwise. *)
Lemma constrain_unpaired_soft_spec fc start end_ value fstart fend :
  _constrain_unpaired_soft fc start end_ value fstart fend =
  match (range (start + 1) (end_ + 1) ++
         (if truthy fstart && truthy fend
          then range (default 0 fstart + 1) (default 0 fend + 1) else []))%list with
  | [] => Some fc
  | _ :: _ => None
  end.
Proof.
  assert (Hraise : forall x xs fc0,
            for_each (fun fc x => sc_add_up fc x value) (x :: xs) (Ok fc0) = Raise TypeError).
  { intros x xs fc0. rewrite for_each_cons. apply for_each_Raise. }
  unfold _constrain_unpaired_soft.
  destruct (range (start + 1) (end_ + 1)) as [|x xs].
  - cbn [for_each foldl mbind result_bind app].
    destruct (truthy fstart && truthy fend); [|reflexivity].
    destruct (range _ _) as [|y ys]; [reflexivity|]. by rewrite Hraise.
  - by rewrite Hraise.
Qed.

Lemma constrain_unpaired_soft_Some fc start end_ value fstart fend fc' :
  _constrain_unpaired_soft fc start end_ value fstart fend = Some fc' -> fc' = fc.
Proof.
  rewrite constrain_unpaired_soft_spec. destruct (_ ++ _)%list; [|discriminate].
  by intros [= <-].
Qed.

Lemma constrain_paired_md fc start end_ fstart fend :
  fc_md (_constrain_paired fc start end_ fstart fend) = fc_md fc.
Proof. unfold _constrain_paired. by destruct (truthy fstart && truthy fend). Qed.

Lemma constrain_unpaired_md fc start end_ fstart fend :
  fc_md (_constrain_unpaired fc start end_ fstart fend) = fc_md fc.
Proof. unfold _constrain_unpaired. by destruct (truthy fstart && truthy fend). Qed.

Lemma api_entry_keeps_md constype consval m seqlen st entry st' :
  (forall fc, st.2 = Some fc -> fc_md fc = m) ->
  api_constraint_entry constype consval m seqlen st entry = Ok st' ->
  forall fc, st'.2 = Some fc -> fc_md fc = m.
Proof.
  unfold api_constraint_entry. destruct st as [sequence fc]. cbn [snd]. intros Hm.
  destruct (_check_constraint _ _ _); [|discriminate]. cbn [mbind result_bind].
  repeat (match goal with |- context [if ?b then _ else _] => destruct b end;
          try discriminate);
    intros [= <-] fc' Hfc'; cbn [snd] in Hfc'.
  - destruct fc as [fc|]; [|discriminate]. injection Hfc' as <-.
    rewrite constrain_paired_md. by apply Hm.
  - destruct fc as [fc|]; [|discriminate]. injection Hfc' as <-.
    rewrite constrain_unpaired_md. by apply Hm.
  - by injection Hfc' as <-.
  - destruct fc as [fc|]; [|discriminate]. cbn [mbind option_bind] in Hfc'.
    apply constrain_unpaired_soft_Some in Hfc' as ->. by apply Hm.
Qed.

Lemma api_entry_md_irrelevant constype consval m1 m2 seqlen st1 st2 entry :
  same_run st1 st2 ->
  result_rel same_run
    (api_constraint_entry constype consval m1 seqlen st1 entry)
    (api_constraint_entry constype consval m2 seqlen st2 entry).
Proof.
  unfold api_constraint_entry, same_run. destruct st1 as [s1 fc1], st2 as [s2 fc2].
  cbn [fst snd]. intros [-> Hfc].
  destruct (_check_constraint _ _ _); [|reflexivity]. cbn [mbind result_bind].
  assert (Hlift : forall f g : fold_compound -> fold_compound,
            (fc1 ≫= (fun fc => Some (f fc))) = None <-> (fc2 ≫= (fun fc => Some (g fc))) = None).
  { intros f g. destruct fc1, fc2; cbn [mbind option_bind]; split; intros H;
      first [discriminate H | reflexivity | apply Hfc in H; discriminate H
            | apply Hfc; reflexivity]. }
  repeat (match goal with |- context [if ?b then _ else _] => destruct b end);
    try reflexivity; cbn [result_rel fst snd]; (split; [reflexivity|]).
  - apply Hlift.
  - apply Hlift.
  - by split.
  - destruct fc1 as [fc1|], fc2 as [fc2|]; cbn [mbind option_bind];
      rewrite ?constrain_unpaired_soft_spec; try (destruct (_ ++ _)%list);
      split; intros H; first [discriminate H | reflexivity | apply Hfc in H; discriminate H
                             | apply Hfc; reflexivity].
Qed.

Lemma api_rnaplfold_md sequence window span region temp constype consval constraint call :
  api_rnaplfold sequence window span region temp constype consval constraint = Ok call ->
  let w := if len sequence <? window then len sequence else window in
  let s := if w <? span then w else span in
  fc_md (pw_fc call) = {| max_bp_span := s; window_size := w; temperature := temp |} /\
  pw_warnings call =
    ((if len sequence <? window then [WindowShrunk window (len sequence)] else []) ++
     (if w <? span then [SpanShrunk span w] else []))%list.
Proof.
  intros H w s. unfold api_rnaplfold in H.
  rewrite shrink_window_span_spec, len_normalized in H. fold w s in H.
  set (m := {| max_bp_span := s; window_size := w; temperature := temp |}) in *.
  destruct constraint as [entries|]; cbn [mbind result_bind] in H.
  - destruct (for_each _ _ _) as [st|] eqn:E; [|discriminate].
    cbn [mbind result_bind] in H. destruct st.2 as [fc|] eqn:Efc; [|discriminate].
    injection H as <-. split; [|reflexivity]. cbn [pw_fc].
    eapply (for_each_invariant _ (fun st => forall fc, st.2 = Some fc -> fc_md fc = m));
      [| |exact E|exact Efc].
    + intros st0 x st' _. apply api_entry_keeps_md.
    + by intros ? [= <-].
  - by injection H as <-.
Qed.

Lemma cmd_rnaplfold_window sequence window span region temp constype consval constraint proc :
  cmd_rnaplfold sequence window span region temp constype consval constraint = Ok proc ->
  let n := len (proc_stdin proc) in
  let w := if n <? window then n else window in
  proc_W proc = w /\ proc_L proc = (if w <? span then w else span) /\
  proc_warnings proc =
    ((if n <? window then [WindowShrunk window n] else []) ++
     (if w <? span then [SpanShrunk span w] else []))%list.
Proof.
  unfold cmd_rnaplfold. intros H.
  destruct (match constraint with Some _ => _ | None => _ end) as [[s cs]|]; [|discriminate].
  cbn [mbind result_bind] in H. rewrite shrink_window_span_spec in H. by injection H as <-.
Qed.

(** Claim C4. In both windowed folding wrappers a window larger than the
    sequence is replaced by the sequence length and a span larger than the
    (possibly replaced) window by that window, each with a logged warning;
    whether the call raises does not depend on the window and span asked for,
    and a call without constraints never raises. *)
Theorem window_and_span_shrink_without_error
    (sequence : string) (window span region : Z) (temp : float)
    (constype consval : string) (constraint : option (list constraint_entry)) :
  let shrunk_window n := if n <? window then n else window in
  let shrunk_span n := if shrunk_window n <? span then shrunk_window n else span in
  let warned n :=
    ((if n <? window then [WindowShrunk window n] else []) ++
     (if shrunk_window n <? span then [SpanShrunk span (shrunk_window n)] else []))%list in
  (forall call,
     api_rnaplfold sequence window span region temp constype consval constraint = Ok call ->
     window_size (fc_md (pw_fc call)) = shrunk_window (len sequence) /\
     max_bp_span (fc_md (pw_fc call)) = shrunk_span (len sequence) /\
     pw_warnings call = warned (len sequence)) /\
  (forall proc,
     cmd_rnaplfold sequence window span region temp constype consval constraint = Ok proc ->
     proc_W proc = shrunk_window (len (proc_stdin proc)) /\
     proc_L proc = shrunk_span (len (proc_stdin proc)) /\
     proc_warnings proc = warned (len (proc_stdin proc))) /\
  (forall window2 span2,
     is_Ok (api_rnaplfold sequence window span region temp constype consval constraint) =
     is_Ok (api_rnaplfold sequence window2 span2 region temp constype consval constraint) /\
     is_Ok (cmd_rnaplfold sequence window span region temp constype consval constraint) =
     is_Ok (cmd_rnaplfold sequence window2 span2 region temp constype consval constraint)) /\
  is_Ok (api_rnaplfold sequence window span region temp constype consval None) = true /\
  is_Ok (cmd_rnaplfold sequence window span region temp constype consval None) = true.
Proof.
  intros shrunk_window shrunk_span warned. split; [|split; [|split; [|split]]].
  - intros call H. apply api_rnaplfold_md in H as [Hmd Hw]. by rewrite Hmd.
  - intros proc H. by apply cmd_rnaplfold_window in H as (? & ? & ?).
  - intros window2 span2. split.
    + unfold api_rnaplfold. rewrite !shrink_window_span_spec.
      destruct constraint as [entries|]; [|reflexivity].
      match goal with
      | |- is_Ok (for_each (api_constraint_entry _ _ ?m1 ?n) _ (Ok ?st1) ≫= _) =
           is_Ok (for_each (api_constraint_entry _ _ ?m2 _) _ (Ok ?st2) ≫= _) =>
          pose proof (for_each_rel (api_constraint_entry constype consval m1 n)
                        (api_constraint_entry constype consval m2 n)
                        same_run entries
                        (fun a b x => api_entry_md_irrelevant constype consval m1 m2 n a b x)
                        (Ok st1) (Ok st2)) as Hrel
      end.
      specialize (Hrel ltac:(by split)). unfold result_rel, same_run in Hrel.
      do 2 destruct (for_each _ _ _) as [[? [?|]]|]; cbn [mbind result_bind snd] in *;
        try reflexivity; try contradiction;
        destruct Hrel as [_ [H1 H2]];
        first [discriminate (H1 eq_refl) | discriminate (H2 eq_refl)].
    + unfold cmd_rnaplfold.
      destruct (match constraint with Some _ => _ | None => _ end) as [[s cs]|]; [|reflexivity].
      cbn [mbind result_bind]. by rewrite !shrink_window_span_spec.
  - unfold api_rnaplfold. by rewrite shrink_window_span_spec.
  - unfold cmd_rnaplfold. cbn [mbind result_bind]. by rewrite shrink_window_span_spec.
Qed.
(** ** What a mutation writes *)

Lemma range_snoc a (n : nat) :
  range a (a + Z.of_nat (S n)) = (range a (a + Z.of_nat n) ++ [a + Z.of_nat n])%list.
Proof.
  unfold range. replace (Z.to_nat (a + Z.of_nat (S n) - a)) with (S n) by lia.
  replace (Z.to_nat (a + Z.of_nat n - a)) with n by lia.
  by rewrite seq_S, map_app.
Qed.

Lemma index_in_range n x : 0 <= x < Z.of_nat n -> index n x = Some (Z.to_nat x).
Proof.
  intros H. unfold index.
  destruct (Z.leb_spec 0 x); [|lia]. destruct (Z.ltb_spec x (Z.of_nat n)); [|lia]. reflexivity.
Qed.

Lemma getitem_in_range {A} (l : list A) x :
  0 <= x < Z.of_nat (length l) -> exists a, getitem l x = Ok a /\ l !! Z.to_nat x = Some a.
Proof.
  intros H. unfold getitem. rewrite index_in_range by done.
  destruct (lookup_lt_is_Some_2 l (Z.to_nat x)) as [a Ha]; [lia|].
  exists a. by rewrite Ha.
Qed.

Lemma mutate_region_writes value start seq (n : nat) :
  0 <= start ->
  start + Z.of_nat n <= Z.of_nat (length seq) ->
  Z.of_nat n <= Z.of_nat (length value) ->
  exists seq',
    mutate_region value start (start + Z.of_nat n) seq = Ok seq' /\
    length seq' = length seq /\
    (forall i : nat, start <= Z.of_nat i < start + Z.of_nat n ->
                     seq' !! i = value !! Z.to_nat (Z.of_nat i - start)) /\
    (forall i : nat, ~ (start <= Z.of_nat i < start + Z.of_nat n) -> seq' !! i = seq !! i).
Proof.
  intros Hstart. unfold mutate_region. induction n as [|n IH]; intros Hseq Hval.
  - exists seq. replace (start + Z.of_nat 0) with start by lia.
    unfold range. rewrite Z.sub_diag. simpl. split; [reflexivity|]. split; [reflexivity|].
    split; [intros i Hi; lia|done].
  - destruct IH as (seq1 & Hrun & Hlen & Hin & Hout); [lia|lia|].
    rewrite range_snoc, for_each_app, Hrun, for_each_cons.
    destruct (getitem_in_range value (start + Z.of_nat n - start)) as (c & -> & Hc); [lia|].
    cbn [mbind result_bind]. unfold setitem. rewrite index_in_range by lia.
    eexists. split; [reflexivity|]. split; [by rewrite length_insert|]. split.
    + intros i Hi. destruct (decide (i = Z.to_nat (start + Z.of_nat n))) as [->|Hne].
      * rewrite list_lookup_insert_eq by lia. rewrite <- Hc. f_equal. lia.
      * rewrite list_lookup_insert_ne by lia. apply Hin. lia.
    + intros i Hi. rewrite list_lookup_insert_ne by lia. rewrite Hout by lia. done.
Qed.
Lemma mutate_writes sequence start end_ value :
  0 <= start <= end_ ->
  end_ <= len sequence ->
  end_ - start <= len value ->
  exists mutated,
    _mutate sequence start end_ value None None = Some mutated /\
    String.length mutated = String.length sequence /\
    (forall i : nat, start <= Z.of_nat i < end_ ->
                     String.get i mutated = String.get (Z.to_nat (Z.of_nat i - start)) value) /\
    (forall i : nat, ~ (start <= Z.of_nat i < end_) ->
                     String.get i mutated = String.get i sequence).
Proof.
  unfold len. intros Hse Hend Hval.
  destruct (mutate_region_writes (list_ascii_of_string value) start
              (list_ascii_of_string sequence) (Z.to_nat (end_ - start)))
    as (seq' & Hrun & Hlen & Hin & Hout);
    [lia|rewrite length_list_ascii_of_string; lia|rewrite length_list_ascii_of_string; lia|].
  replace (start + Z.of_nat (Z.to_nat (end_ - start))) with end_ in * by lia.
  exists (string_of_list_ascii seq'). unfold _mutate. rewrite Hrun. cbn.
  split; [reflexivity|]. split.
  - by rewrite length_string_of_list_ascii, Hlen, length_list_ascii_of_string.
  - split; intros i Hi;
      rewrite !get_list_ascii_of_string, list_ascii_of_string_of_list_ascii; auto.
Qed.

(** Claim C7 (what the wrappers do instead). For a mutate constraint
    [(mode, start, end)] with [0 <= start < end <= length] both wrappers call
    [_mutate] with [end - 1]: the sequence handed to the engine carries the
    replacement at the indices of [[start, end - 1)] and keeps the original
    character at index [end - 1]. The fold compound is rebuilt from the
    mutated sequence with no constraint call on it. *)
Theorem wrapper_mutation_stops_one_short
    (sequence : string) (window span region : Z) (temp : float)
    (consval mode : string) (start end_ : Z) :
  0 <= start < end_ ->
  end_ <= len sequence ->
  end_ - 1 - start <= len consval ->
  let entry := {| c_mode := mode; c_start := start; c_end := end_ |} in
  let normalized := replace "T" "U" (upper sequence) in
  (exists call,
     api_rnaplfold sequence window span region temp "mutate" consval (Some [entry]) = Ok call /\
     fc_calls (pw_fc call) = [] /\
     String.length (fc_sequence (pw_fc call)) = String.length normalized /\
     (forall i : nat, start <= Z.of_nat i < end_ - 1 ->
        String.get i (fc_sequence (pw_fc call)) =
        String.get (Z.to_nat (Z.of_nat i - start)) consval) /\
     String.get (Z.to_nat (end_ - 1)) (fc_sequence (pw_fc call)) =
     String.get (Z.to_nat (end_ - 1)) normalized) /\
  (exists proc,
     cmd_rnaplfold sequence window span region temp "mutate" consval (Some [entry]) = Ok proc /\
     proc_commands proc = [] /\
     (forall i : nat, start <= Z.of_nat i < end_ - 1 ->
        String.get i (proc_stdin proc) =
        String.get (Z.to_nat (Z.of_nat i - start)) consval) /\
     String.get (Z.to_nat (end_ - 1)) (proc_stdin proc) =
     String.get (Z.to_nat (end_ - 1)) sequence).
Proof.
  intros Hse Hend Hval entry normalized.
  assert (Hchk : forall n, n = len sequence ->
            _check_constraint n (c_start entry) (c_end entry) = Ok tt).
  { intros n ->. apply check_constraint_Ok. unfold in_bounds. simpl. lia. }
  split.
  - subst normalized.
    destruct (mutate_writes (replace "T" "U" (upper sequence)) start (end_ - 1) consval)
      as (mutated & Hmut & Hlen & Hin & Hout);
      [lia|rewrite len_normalized; lia|lia|].
    unfold api_rnaplfold. rewrite shrink_window_span_spec.
    rewrite for_each_cons. unfold api_constraint_entry.
    rewrite Hchk by apply len_normalized.
    cbn -[_mutate Z.sub replace upper]. rewrite Hmut. cbn -[replace upper].
    eexists. split; [reflexivity|]. cbn -[replace upper].
    repeat split; [exact Hlen|exact Hin|].
    apply Hout. lia.
  - destruct (mutate_writes sequence start (end_ - 1) consval)
      as (mutated & Hmut & Hlen & Hin & Hout); [lia|lia|lia|].
    unfold cmd_rnaplfold. rewrite for_each_cons. unfold cmd_constraint_entry.
    rewrite Hchk by reflexivity.
    cbn -[_mutate Z.sub shrink_window_span]. rewrite Hmut.
    cbn -[shrink_window_span]. rewrite shrink_window_span_spec.
    eexists. split; [reflexivity|]. cbn. repeat split; [exact Hin|].
    apply Hout. lia.
Qed.

Lemma wrapper_mutation_stops_one_short_witness :
  (exists call,
     api_rnaplfold "AAAA" 4 4 4 37%float "mutate" "CC"
       (Some [{| c_mode := "paired"; c_start := 0; c_end := 2 |}]) = Ok call /\
     fc_calls (pw_fc call) = [] /\
     String.length (fc_sequence (pw_fc call)) = String.length (replace "T" "U" (upper "AAAA")) /\
     (forall i : nat, 0 <= Z.of_nat i < 2 - 1 ->
        String.get i (fc_sequence (pw_fc call)) =
        String.get (Z.to_nat (Z.of_nat i - 0)) "CC") /\
     String.get (Z.to_nat (2 - 1)) (fc_sequence (pw_fc call)) =
     String.get (Z.to_nat (2 - 1)) (replace "T" "U" (upper "AAAA"))) /\
  (exists proc,
     cmd_rnaplfold "AAAA" 4 4 4 37%float "mutate" "CC"
       (Some [{| c_mode := "paired"; c_start := 0; c_end := 2 |}]) = Ok proc /\
     proc_commands proc = [] /\
     (forall i : nat, 0 <= Z.of_nat i < 2 - 1 ->
        String.get i (proc_stdin proc) =
        String.get (Z.to_nat (Z.of_nat i - 0)) "CC") /\
     String.get (Z.to_nat (2 - 1)) (proc_stdin proc) =
     String.get (Z.to_nat (2 - 1)) "AAAA").
Proof.
  apply (wrapper_mutation_stops_one_short "AAAA" 4 4 4 37%float "CC" "paired" 0 2).
  - lia.
  - vm_compute. discriminate.
  - vm_compute. discriminate.
Defined.

(** The mutation [("paired", 0, 2)] with replacement ["CC"] leaves index 1
    as it was: the engine folds ["CAAA"], not ["CCAA"]. *)
Example api_mutation_CAAA :
  api_rnaplfold "AAAA" 4 4 4 37%float "mutate" "CC"
    (Some [{| c_mode := "paired"; c_start := 0; c_end := 2 |}]) =
  Ok {| pw_fc := {| fc_sequence := "CAAA";
                    fc_md := {| max_bp_span := 4; window_size := 4; temperature := 37%float |};
                    fc_calls := [] |};
        pw_region := 4; pw_warnings := [] |}.
Proof. reflexivity. Qed.
(** Claim C6 (what the wrappers do instead). With [constype = "soft"] a
    constraint of mode ["paired"] within bounds does not raise: [api_rnaplfold]
    applies the hard constraint [hc_add_bp_nonspecific] to the region and
    [cmd_rnaplfold] writes the hard command [F] (also for mode ["p"]). Only
    mode ["p"] in [api_rnaplfold] raises [NotImplementedError]. *)
Theorem soft_paired_runs_as_hard_constraint
    (sequence : string) (window span region : Z) (temp : float)
    (consval : string) (start end_ : Z) :
  0 <= start <= end_ ->
  end_ <= len sequence ->
  let entry mode := {| c_mode := mode; c_start := start; c_end := end_ |} in
  (exists call,
     api_rnaplfold sequence window span region temp "soft" consval
       (Some [entry "paired"]) = Ok call /\
     fc_calls (pw_fc call) =
       map (fun x => hc_add_bp_nonspecific x 0) (range (start + 1) (end_ + 1))) /\
  (forall mode, mode = "paired" \/ mode = "p" ->
     exists proc,
       cmd_rnaplfold sequence window span region temp "soft" consval
         (Some [entry mode]) = Ok proc /\
       proc_commands proc =
         [{| cl_const := "F"; cl_first := start + 1; cl_partner := 0;
             cl_length := end_ - start |}]) /\
  api_rnaplfold sequence window span region temp "soft" consval
    (Some [entry "p"]) = Raise NotImplementedError.
Proof.
  intros Hse Hend entry.
  assert (Hchk : forall n mode, n = len sequence ->
            _check_constraint n (c_start (entry mode)) (c_end (entry mode)) = Ok tt).
  { intros n mode ->. apply check_constraint_Ok. unfold in_bounds. simpl. lia. }
  split; [|split].
  - unfold api_rnaplfold. rewrite shrink_window_span_spec, for_each_cons.
    unfold api_constraint_entry. rewrite Hchk by apply len_normalized.
    cbn -[replace upper range Z.add]. eexists. split; reflexivity.
  - intros mode Hmode. unfold cmd_rnaplfold. rewrite for_each_cons.
    unfold cmd_constraint_entry. rewrite Hchk by reflexivity.
    destruct Hmode as [-> | ->];
      cbn -[shrink_window_span Z.add Z.sub]; rewrite shrink_window_span_spec;
      eexists; split; reflexivity.
  - unfold api_rnaplfold. rewrite shrink_window_span_spec, for_each_cons.
    unfold api_constraint_entry. rewrite Hchk by apply len_normalized.
    reflexivity.
Qed.

Lemma soft_paired_runs_as_hard_constraint_witness :
  (exists call,
     api_rnaplfold "ACGUACGU" 8 8 4 37%float "soft" "1.5"
       (Some [{| c_mode := "paired"; c_start := 2; c_end := 4 |}]) = Ok call /\
     fc_calls (pw_fc call) =
       map (fun x => hc_add_bp_nonspecific x 0) (range (2 + 1) (4 + 1))) /\
  (forall mode, mode = "paired" \/ mode = "p" ->
     exists proc,
       cmd_rnaplfold "ACGUACGU" 8 8 4 37%float "soft" "1.5"
         (Some [{| c_mode := mode; c_start := 2; c_end := 4 |}]) = Ok proc /\
       proc_commands proc =
         [{| cl_const := "F"; cl_first := 2 + 1; cl_partner := 0; cl_length := 4 - 2 |}]) /\
  api_rnaplfold "ACGUACGU" 8 8 4 37%float "soft" "1.5"
    (Some [{| c_mode := "p"; c_start := 2; c_end := 4 |}]) = Raise NotImplementedError.
Proof.
  apply (soft_paired_runs_as_hard_constraint "ACGUACGU" 8 8 4 37%float "1.5" 2 4).
  - lia.
  - vm_compute. discriminate.
Defined.

(** A soft constraint [("paired", 2, 4)] reaches the engine as the hard
    constraint on positions 3 and 4; no exception is raised. *)
Example api_soft_paired_ACGUACGU :
  api_rnaplfold "ACGUACGU" 8 8 4 37%float "soft" "1.5"
    (Some [{| c_mode := "paired"; c_start := 2; c_end := 4 |}]) =
  Ok {| pw_fc := {| fc_sequence := "ACGUACGU";
                    fc_md := {| max_bp_span := 8; window_size := 8; temperature := 37%float |};
                    fc_calls := [hc_add_bp_nonspecific 3 0; hc_add_bp_nonspecific 4 0] |};
        pw_region := 4; pw_warnings := [] |}.
Proof. reflexivity. Qed.

(** ** Opening energy *)

Lemma float_le_0_not_gt (x : float) :
  PrimFloat.leb x 0 = true -> PrimFloat.ltb 0 x = false.
Proof.
  rewrite leb_spec, ltb_spec. change (Prim2SF 0) with (S754_zero false).
  destruct (Prim2SF x) as [s|s| |s m e]; try destruct s; cbv; congruence.
Qed.

Lemma fo_get_update_eq condition key v self self' :
  fo_update condition key v self = Ok self' ->
  fo_get condition key self' = Ok v.
Proof.
  unfold fo_update, fo_get. destruct (fo_conditions self !! condition); [|discriminate].
  intros [= <-]. cbn [fo_conditions]. by rewrite !lookup_insert_eq.
Qed.

Lemma fo_get_update_ne condition key key' v self self' :
  fo_update condition key' v self = Ok self' ->
  key <> key' ->
  fo_get condition key self' = fo_get condition key self.
Proof.
  unfold fo_update, fo_get.
  destruct (fo_conditions self !! condition) as [d|] eqn:E; [|discriminate].
  intros [= <-] Hne. cbn [fo_conditions]. rewrite lookup_insert_eq.
  by rewrite lookup_insert_ne.
Qed.

Ltac fo_step H :=
  match type of H with
  | (?r ≫= _) = Ok _ =>
      let E := fresh "E" in
      destruct r eqn:E; [cbn [mbind result_bind] in H|discriminate H]
  end.

Lemma stored_nrg math_log self condition constr gibbs bppm self' :
  from_rnamediator_fold_compound math_log self condition constr gibbs bppm = Ok self' ->
  fo_get condition "nrg" self' = Ok (VFloat (_calc_nrg math_log (_calc_bpp bppm))).
Proof.
  unfold from_rnamediator_fold_compound.
  destruct (negb (valid_condition condition)); [discriminate|]. intros H.
  do 5 fo_step H.
  apply fo_get_update_eq in E3.
  destruct (fo_has "unconstrained" _ && _).
  - do 5 fo_step H.
    rewrite (fo_get_update_ne _ "nrg" _ _ _ _ H) by discriminate.
    rewrite (fo_get_update_ne _ "nrg" _ _ _ _ E6) by discriminate. exact E3.
  - fo_step H.
    rewrite (fo_get_update_ne _ "nrg" _ _ _ _ H) by discriminate.
    rewrite (fo_get_update_ne _ "nrg" _ _ _ _ E4) by discriminate. exact E3.
Qed.

(** Claim C8. The opening energy [_calc_nrg] derives from a base-pair
    probability [p] is [-kT * ln p] when [p > 0] and [0] when [p <= 0], where
    [kT] is the constant [0.6163207755] (the source's literal
    [0.61632077549999997] is the same binary64 number). The energy stored by
    [from_rnamediator_fold_compound] is a function of the base-pair
    probabilities only: no temperature enters it. *)
Theorem opening_energy_of_probability
    (math_log : float -> float) (bpp : float) :
  k_t = 0.6163207755%float /\
  (PrimFloat.ltb 0 bpp = true ->
   _calc_nrg math_log bpp =
   PrimFloat.mul (PrimFloat.opp 0.6163207755%float) (math_log bpp)) /\
  (PrimFloat.leb bpp 0 = true -> _calc_nrg math_log bpp = 0%float) /\
  (forall self condition constr gibbs bppm self',
     from_rnamediator_fold_compound math_log self condition constr gibbs bppm = Ok self' ->
     fo_get condition "nrg" self' = Ok (VFloat (_calc_nrg math_log (_calc_bpp bppm)))).
Proof.
  split; [reflexivity|]. split; [|split].
  - intros Hpos. unfold _calc_nrg. rewrite Hpos. reflexivity.
  - intros Hle. unfold _calc_nrg. by rewrite (float_le_0_not_gt _ Hle).
  - intros self condition constr gibbs bppm self'. apply stored_nrg.
Qed.
(** ** Deltas of a [FoldOutput] *)

Lemma fo_update_Ok condition key v self :
  is_Some (fo_conditions self !! condition) ->
  exists self',
    fo_update condition key v self = Ok self' /\
    is_Some (fo_conditions self' !! condition) /\
    forall c, c <> condition -> fo_conditions self' !! c = fo_conditions self !! c.
Proof.
  intros [d Hd]. unfold fo_update. rewrite Hd. eexists. split; [reflexivity|].
  cbn [fo_conditions]. split.
  - rewrite lookup_insert_eq. by eexists.
  - intros c Hc. by rewrite lookup_insert_ne.
Qed.

Lemma fo_has_absent condition self :
  fo_conditions self !! condition = None -> fo_has condition self = false.
Proof. unfold fo_has. by intros ->. Qed.

Lemma fo_has_present condition self :
  fo_has condition self = true -> is_Some (fo_conditions self !! condition).
Proof. unfold fo_has. destruct (fo_conditions self !! condition); [by eexists|discriminate]. Qed.

(** The part of [from_rnamediator_fold_compound] before the deltas: five
    updates of [self[condition]], which leave every other condition as it
    was in [self]. *)
Lemma from_fold_compound_prefix condition constr gibbs bppm nrg self :
  exists self5,
    (forall (k : FoldOutput -> result FoldOutput),
       (self1 ← fo_update condition "constraint" constr
                  (if negb (fo_has condition self)
                   then {| fo_anno := fo_anno self;
                           fo_conditions := <[condition := ∅]> (fo_conditions self) |}
                   else self);
        self2 ← fo_update condition "gibbs" gibbs self1;
        self3 ← fo_update condition "bppm" (VBppm bppm) self2;
        self4 ← fo_update condition "bpp" (VFloat (_calc_bpp bppm)) self3;
        self5 ← fo_update condition "nrg" (VFloat nrg) self4;
        k self5) = k self5) /\
    is_Some (fo_conditions self5 !! condition) /\
    forall c, c <> condition -> fo_conditions self5 !! c = fo_conditions self !! c.
Proof.
  set (self0 := if negb (fo_has condition self) then _ else self).
  assert (Hs0 : is_Some (fo_conditions self0 !! condition)).
  { subst self0. destruct (fo_has condition self) eqn:E; cbn [negb].
    - by apply fo_has_present.
    - cbn [fo_conditions]. rewrite lookup_insert_eq. by eexists. }
  assert (Hk0 : forall c, c <> condition ->
                      fo_conditions self0 !! c = fo_conditions self !! c).
  { intros c Hc. subst self0. destruct (negb _); [|done].
    cbn [fo_conditions]. by rewrite lookup_insert_ne. }
  destruct (fo_update_Ok condition "constraint" constr self0 Hs0) as (s1 & E1 & Hs1 & Hk1).
  destruct (fo_update_Ok condition "gibbs" gibbs s1 Hs1) as (s2 & E2 & Hs2 & Hk2).
  destruct (fo_update_Ok condition "bppm" (VBppm bppm) s2 Hs2) as (s3 & E3 & Hs3 & Hk3).
  destruct (fo_update_Ok condition "bpp" (VFloat (_calc_bpp bppm)) s3 Hs3)
    as (s4 & E4 & Hs4 & Hk4).
  destruct (fo_update_Ok condition "nrg" (VFloat nrg) s4 Hs4) as (s5 & E5 & Hs5 & Hk5).
  exists s5. split; [|split; [exact Hs5|]].
  { intros k. rewrite E1. cbn [mbind result_bind]. rewrite E2. cbn [mbind result_bind].
    rewrite E3. cbn [mbind result_bind]. rewrite E4. cbn [mbind result_bind].
    by rewrite E5. }
  intros c Hc. by rewrite Hk5, Hk4, Hk3, Hk2, Hk1, Hk0.
Qed.

(** Claim C9. When a [FoldOutput] is populated for a valid condition and
    either holds nothing under the key [unconstrained] or the condition is
    [unconstrained] itself, [from_rnamediator_fold_compound] returns without
    raising and stores [ddg = 0] and [dnrg = 0]. Conversely a stored delta
    other than [0] means the key [unconstrained] was present and the
    condition is another one. *)
Theorem deltas_default_to_zero
    (math_log : float -> float) (self : FoldOutput) (condition : string)
    (constr gibbs : pyval) (bppm : list bpp_entry) :
  valid_condition condition = true ->
  (fo_conditions self !! "unconstrained" = None \/ condition = "unconstrained" ->
   exists self',
     from_rnamediator_fold_compound math_log self condition constr gibbs bppm = Ok self' /\
     fo_get condition "ddg" self' = Ok (VInt 0) /\
     fo_get condition "dnrg" self' = Ok (VInt 0)) /\
  (forall self',
     from_rnamediator_fold_compound math_log self condition constr gibbs bppm = Ok self' ->
     fo_get condition "ddg" self' <> Ok (VInt 0) \/
     fo_get condition "dnrg" self' <> Ok (VInt 0) ->
     is_Some (fo_conditions self !! "unconstrained") /\ condition <> "unconstrained").
Proof.
  intros Hvalid.
  assert (Hzero : fo_conditions self !! "unconstrained" = None \/ condition = "unconstrained" ->
    exists self',
      from_rnamediator_fold_compound math_log self condition constr gibbs bppm = Ok self' /\
      fo_get condition "ddg" self' = Ok (VInt 0) /\
      fo_get condition "dnrg" self' = Ok (VInt 0)).
  { intros Hcase. unfold from_rnamediator_fold_compound. rewrite Hvalid. cbn [negb].
    destruct (from_fold_compound_prefix condition constr gibbs bppm
                (_calc_nrg math_log (_calc_bpp bppm)) self) as (s5 & -> & Hs5 & Hk5).
    assert (Hbranch : fo_has "unconstrained" s5 &&
                      negb (String.eqb condition "unconstrained") = false).
    { destruct (String.eqb_spec condition "unconstrained") as [->|Hne].
      - apply andb_false_r.
      - destruct Hcase as [Habs|]; [|done].
        rewrite fo_has_absent; [done|]. rewrite Hk5 by done. exact Habs. }
    rewrite Hbranch.
    destruct (fo_update_Ok condition "ddg" (VInt 0) s5 Hs5) as (s6 & E6 & Hs6 & _).
    destruct (fo_update_Ok condition "dnrg" (VInt 0) s6 Hs6) as (s7 & E7 & _ & _).
    exists s7. rewrite E6. cbn [mbind result_bind]. split; [exact E7|]. split.
    - rewrite (fo_get_update_ne _ "ddg" _ _ _ _ E7) by discriminate.
      by apply fo_get_update_eq in E6.
    - by apply fo_get_update_eq in E7. }
  split; [exact Hzero|].
  intros self' Hrun Hnonzero.
  destruct (fo_conditions self !! "unconstrained") as [d|] eqn:Hd.
  - split; [by eexists|]. intros ->.
    destruct Hzero as (s & Hs & Hddg & Hdnrg); [by right|].
    rewrite Hrun in Hs. injection Hs as <-. by destruct Hnonzero.
  - destruct Hzero as (s & Hs & Hddg & Hdnrg); [by left|].
    rewrite Hrun in Hs. injection Hs as <-. by destruct Hnonzero.
Qed.

Example FoldOutput_init_constraint_paired :
  FoldOutput_init "constraint_paired" None VNone = Ok fold_output_constraint_paired.
Proof. vm_compute. reflexivity. Qed.

(** A [FoldOutput] created for [constraint_paired] alone gets zero deltas. *)
Lemma deltas_default_to_zero_witness :
  exists self',
    from_rnamediator_fold_compound (fun x => x) fold_output_constraint_paired
      "constraint_paired" (VStr "3-7") (VFloat (-3.5)%float)
      [{| bp_base := 1; bp_mate := 5; bp_prob := 0.5%float |}] = Ok self' /\
    fo_get "constraint_paired" "ddg" self' = Ok (VInt 0) /\
    fo_get "constraint_paired" "dnrg" self' = Ok (VInt 0).
Proof.
  apply (deltas_default_to_zero (fun x => x) fold_output_constraint_paired
           "constraint_paired").
  - reflexivity.
  - left. reflexivity.
Defined.

(** ** Comparisons of floats *)

Lemma SFcompare_refl f : f <> S754_nan -> SFcompare f f = Some Eq.
Proof.
  destruct f as [s|s| |s m e]; intros Hn; try done; simpl.
  - by destruct s.
  - rewrite Z.compare_refl, Pos.compare_cont_refl. by destruct s.
Qed.

Lemma isnan_spec x : NP.isnan x = true <-> Prim2SF x = S754_nan.
Proof.
  unfold NP.isnan. rewrite FloatAxioms.eqb_spec. unfold SFeqb. split.
  - intros H. destruct (Prim2SF x) eqn:E; try reflexivity;
      rewrite SFcompare_refl in H by discriminate; discriminate.
  - by intros ->.
Qed.






(** ** The BED scan *)

Import CollectConsResults.

Lemma judge_value_selected s c pos out out' :
  0 <= pos -> ~ (sc_cs s <= pos <= sc_ce s) ->
  Forall (fun r => exists p, selected s c r p) out ->
  judge_value s c pos out = Ok out' ->
  Forall (fun r => exists p, selected s c r p) out'.
Proof.
  intros Hpos Hout Hall. unfold judge_value.
  destruct (getitem c pos) as [v|] eqn:Ev; [|discriminate]. cbn [mbind result_bind].
  destruct (PrimFloat.ltb (sc_border1 s) v && PrimFloat.ltb v (sc_border2 s)) eqn:Eband.
  - destruct (bed_line s pos v) as [r|] eqn:Er; [|discriminate]. intros [= <-].
    apply Forall_app. split; [exact Hall|]. apply Forall_singleton.
    apply andb_true_iff in Eband as [E1 E2].
    exists pos. repeat split; try done. by exists v.
  - by intros [= <-].
Qed.

Lemma judge_pos_selected s uc pc out out' pos :
  0 <= pos ->
  Forall (fun r => exists p, selected s uc r p) out.1 /\
  Forall (fun r => exists p, selected s pc r p) out.2 ->
  judge_pos s uc pc out pos = Ok out' ->
  Forall (fun r => exists p, selected s uc r p) out'.1 /\
  Forall (fun r => exists p, selected s pc r p) out'.2.
Proof.
  intros Hpos [Hu Hp]. unfold judge_pos.
  destruct (negb _) eqn:Eout; [|by intros [= <-]].
  assert (Hnot : ~ (sc_cs s <= pos <= sc_ce s)).
  { apply negb_true_iff, andb_false_iff in Eout as [E|E].
    - apply Z.leb_gt in E. lia.
    - apply Z.ltb_ge in E. lia. }
  destruct (judge_value s uc pos out.1) as [u|] eqn:Eu; [|discriminate].
  cbn [mbind result_bind].
  destruct (judge_value s pc pos out.2) as [p|] eqn:Ep; [|discriminate].
  intros [= <-]. split.
  - eapply judge_value_selected; [exact Hpos|exact Hnot|exact Hu|exact Eu].
  - eapply judge_value_selected; [exact Hpos|exact Hnot|exact Hp|exact Ep].
Qed.

Lemma judge_diff_selected name gs ge ulim cutoff border1 border2 noc uc pc :
  let s := fit name gs ge ulim border1 border2 noc in
  let out := written (judge_diff name gs ge ulim cutoff border1 border2 noc uc pc) in
  Forall (fun r => exists p, selected s uc r p) out.1 /\
  Forall (fun r => exists p, selected s pc r p) out.2.
Proof.
  intros s out. subst out. unfold judge_diff. fold s.
  destruct (getitem noc (sc_ce s)) as [n|]; [|by split]. cbn [mbind result_bind].
  destruct (PrimFloat.ltb cutoff (PrimFloat.abs n)); [|by split].
  destruct (for_each _ _ _) as [out|] eqn:E; [|by split].
  apply (for_each_invariant _
           (fun o => Forall (fun r => exists p, selected s uc r p) o.1 /\
                     Forall (fun r => exists p, selected s pc r p) o.2)) in E;
    [exact E| |by split].
  intros st x st' Hx Hst. apply judge_pos_selected; [|exact Hst].
  apply elem_of_range in Hx. lia.
Qed.

(** What a selected record says about its position. *)
Lemma selected_fields s c r pos :
  selected s c r pos ->
  exists n,
    getitem c pos = Ok (bed_value r) /\
    getitem (sc_noc s) pos = Ok n /\
    NP.int_of_float n = Ok (bed_raw r) /\
    bed_gpos r = genomic_pos s pos /\
    bed_dist r = distance s pos.
Proof.
  intros (_ & _ & v & Hv & _ & _ & Hline). unfold bed_line in Hline.
  destruct (getitem (sc_noc s) pos) as [n|]; [|discriminate]. cbn [mbind result_bind] in Hline.
  destruct (NP.int_of_float n) as [raw|] eqn:Eraw; [|discriminate].
  injection Hline as <-. exists n. by repeat split.
Qed.

Lemma genomic_pos_inj s p q : genomic_pos s p = genomic_pos s q -> p = q.
Proof. unfold genomic_pos. destruct (negb _); lia. Qed.
(** ** The BigWig scan *)

Import GenerateBigWig.










(** Claim C2. Every record [judge_diff] writes belongs to a position [pos]
    outside the constraint [[cs, ce]] (fitted to the window): its distance is
    [-(pos - ce)] when [pos] lies after [ce] and [cs - pos] when it lies
    before [cs], never [0]; no record is written for a position of
    [cs..ce]. *)
Theorem distance_to_constraint
    (name : window_name) (gs ge ulim : Z) (cutoff border1 border2 : float)
    (noc uc pc : list float) :
  let s := fit name gs ge ulim border1 border2 noc in
  let out := CollectConsResults.written
               (judge_diff name gs ge ulim cutoff border1 border2 noc uc pc) in
  let cs := wn_cs name - wn_ws name - 1 in
  let ce := wn_ce name - wn_ws name - 1 in
  (forall r, r ∈ out.1 \/ r ∈ out.2 ->
     exists pos,
       0 <= pos /\ bed_gpos r = genomic_pos s pos /\
       ~ (cs <= pos <= ce) /\
       (ce < pos -> bed_dist r = - (pos - ce)) /\
       (pos < cs -> cs <= ce -> bed_dist r = cs - pos) /\
       (cs <= ce -> bed_dist r <> 0)) /\
  (forall pos, cs <= pos <= ce ->
     forall r, r ∈ out.1 \/ r ∈ out.2 -> bed_gpos r <> genomic_pos s pos).
Proof.
  intros s out cs ce.
  assert (Hcs : sc_cs s = cs) by (subst s; unfold fit; by destruct (negb _)).
  assert (Hce : sc_ce s = ce) by (subst s; unfold fit; by destruct (negb _)).
  assert (Hsel : forall r, r ∈ out.1 \/ r ∈ out.2 ->
            exists pos, 0 <= pos /\ ~ (cs <= pos <= ce) /\
                        bed_gpos r = genomic_pos s pos /\ bed_dist r = distance s pos).
  { intros r Hr.
    destruct (judge_diff_selected name gs ge ulim cutoff border1 border2 noc uc pc)
      as [Hu Hp]. fold out s in Hu, Hp.
    assert (exists c p, selected s c r p) as (c & pos & Hsel).
    { destruct Hr as [Hr|Hr].
      - eapply Forall_forall in Hu as [p Hp']; [|exact Hr]. by exists uc, p.
      - eapply Forall_forall in Hp as [p Hp']; [|exact Hr]. by exists pc, p. }
    destruct (selected_fields _ _ _ _ Hsel) as (n & _ & _ & _ & Hg & Hd).
    destruct Hsel as (Hpos & Hout & _). rewrite Hcs, Hce in Hout.
    by exists pos. }
  split.
  - intros r Hr. destruct (Hsel r Hr) as (pos & Hpos & Hout & Hg & Hd).
    exists pos. unfold distance in Hd. rewrite Hcs, Hce in Hd.
    repeat split; try done.
    + intros Hafter. rewrite Hd. destruct (Z.ltb_spec ce pos); lia.
    + intros Hbefore Hint. rewrite Hd. destruct (Z.ltb_spec ce pos); lia.
    + intros Hint. rewrite Hd. destruct (Z.ltb_spec ce pos); lia.
  - intros pos Hin r Hr Heq. destruct (Hsel r Hr) as (q & _ & Hout & Hg & _).
    rewrite Hg in Heq. apply genomic_pos_inj in Heq. subst q. contradiction.
Qed.

(** The sign convention on the constraint [[100, 110]]. *)
Example distance_sign_convention :
  let s := fit {| wn_goi := "gene"; wn_chrom := "chr1"; wn_strand := "+";
                  wn_cons := "101-111"; wn_cs := 101; wn_ce := 111;
                  wn_ws := 0; wn_we := 200 |} 1 200 1 0.3%float 1%float [] in
  sc_cs s = 100 /\ sc_ce s = 110 /\ distance s 95 = 5 /\ distance s 120 = -10.
Proof. repeat split. Qed.

(** A scan of ten positions with the constraint on positions 3..5 and
    borders 0.3 and 1: positions 0, 6 and 7 are written as unpaired, position
    9 as paired; the NaN at 2, the -0.5 at 8 and the 1.5 at 9 are not. *)
Example judge_diff_ten_positions :
  let name := {| wn_goi := "gene"; wn_chrom := "chr1"; wn_strand := "+";
                 wn_cons := "104-106"; wn_cs := 104; wn_ce := 106;
                 wn_ws := 100; wn_we := 110 |} in
  let noc := [0.5; 0.5; 0.5; 0.5; 0.5; 0.5; 0.5; 0.5; 0.5; 0.5]%float in
  let uc := [0.4; 0.2; nan; 0.4; 0.4; 0.4; 0.4; 0.9; -0.5; 1.5]%float in
  let pc := [0; 0; 0; 0; 0; 0; 0; 0; 0; 0.35]%float in
  let out := CollectConsResults.written
               (judge_diff name 1000 2000 1 0.1%float 0.3%float 1%float noc uc pc) in
  map (fun r => (bed_gpos r, bed_dist r)) out.1 = [(1099, 3); (1105, -1); (1106, -2)] /\
  map (fun r => (bed_gpos r, bed_dist r)) out.2 = [(1108, -4)].
Proof. split; reflexivity. Qed.

(** A raw value that is NaN at a selected position ends the call: nothing
    is written. *)
Example judge_diff_raw_nan :
  let name := {| wn_goi := "gene"; wn_chrom := "chr1"; wn_strand := "+";
                 wn_cons := "104-106"; wn_cs := 104; wn_ce := 106;
                 wn_ws := 100; wn_we := 110 |} in
  CollectConsResults.written
    (judge_diff name 1000 2000 1 0.1%float 0.3%float 1%float
       [nan; 0.5; 0.5; 0.5; 0.5; 0.5]%float [0.4; 0.4; 0; 0; 0; 0]%float
       [0; 0; 0; 0; 0; 0]%float) = ([], []).
Proof. reflexivity. Qed.

(** The raw track of a file that is not a difference, border 0.5. *)
Example create_bw_entries_raw :
  let load := fun (_ : string) (_ : Z) => Some [0.9; nan; 0.2; -0.7]%float in
  let name := {| bn_chrom := "1"; bn_cs := 5; bn_ce := 7; bn_ws := 0; bn_we := 0 |} in
  option_map (fun t => map bw_value (bw_raw t))
    (create_bw_entries load (fun _ => 0%float) "gene_1_+_5-7_raw_10_10_37.npy" name "+"
       100 200 1%float (-0.5)%float 1)
  = Some [0.9; -0.7]%float.
Proof. reflexivity. Qed.

(** ** Text: characters, [split], [join] and [replace] *)

(** [c] does not occur in [s]. *)
Abbreviation free c s := (c ∉ list_ascii_of_string s).

Lemma append_nil s : "" ++ s = s.
Proof. reflexivity. Qed.

Lemma append_cons a s1 s2 : String a s1 ++ s2 = String a (s1 ++ s2).
Proof. reflexivity. Qed.

Lemma append_assoc_s s1 s2 s3 : (s1 ++ s2) ++ s3 = s1 ++ s2 ++ s3.
Proof.
  induction s1 as [|a s1 IH]; [reflexivity|]. rewrite !append_cons. by rewrite IH.
Qed.

Lemma free_cons c a s : free c (String a s) <-> c <> a /\ free c s.
Proof. simpl. rewrite not_elem_of_cons. tauto. Qed.

Lemma list_ascii_of_string_app s1 s2 :
  list_ascii_of_string (s1 ++ s2) = (list_ascii_of_string s1 ++ list_ascii_of_string s2)%list.
Proof. induction s1 as [|a s1 IH]; [reflexivity|]. rewrite append_cons. simpl. by rewrite IH. Qed.

Lemma free_app c s1 s2 : free c (s1 ++ s2) <-> free c s1 /\ free c s2.
Proof. rewrite list_ascii_of_string_app, not_elem_of_app. tauto. Qed.

Lemma free_join c sep l :
  free c sep -> Forall (fun s => free c s) l -> free c (join sep l).
Proof.
  intros Hsep. induction 1 as [|x l Hx Hl IH]; [simpl; apply not_elem_of_nil|].
  destruct l as [|y l]; [exact Hx|].
  change (join sep (x :: y :: l)) with (x ++ sep ++ join sep (y :: l)).
  rewrite !free_app. auto.
Qed.

(** *** [split] on a one-character separator *)

Lemma split_aux_free c s :
  free c s -> split_aux (String c "") 0 s = (s, []).
Proof.
  induction s as [|a s IH]; [reflexivity|]. intros H. apply free_cons in H as [Hne Hs].
  cbn [split_aux String.prefix]. destruct (ascii_dec c a) as [->|_]; [done|].
  by rewrite IH.
Qed.

Lemma split_aux_sep c s1 s2 :
  free c s1 ->
  split_aux (String c "") 0 (s1 ++ String c s2) =
  (s1, let '(f, r) := split_aux (String c "") 0 s2 in f :: r).
Proof.
  induction s1 as [|a s1 IH]; intros H.
  - rewrite append_nil. cbn [split_aux String.prefix].
    destruct (ascii_dec c c) as [_|]; [|done]. by destruct s2.
  - apply free_cons in H as [Hne Hs]. rewrite append_cons. cbn [split_aux String.prefix].
    destruct (ascii_dec c a) as [->|_]; [done|]. by rewrite IH.
Qed.

Lemma split_join c x l :
  Forall (fun s => free c s) (x :: l) ->
  split (String c "") (join (String c "") (x :: l)) = Ok (x :: l).
Proof.
  unfold split. revert x. induction l as [|y l IH]; intros x H.
  - apply Forall_cons in H as [Hx _]. cbn [join]. by rewrite split_aux_free.
  - apply Forall_cons in H as [Hx Hl].
    change (join (String c "") (x :: y :: l))
      with (x ++ String c (join (String c "") (y :: l))).
    rewrite split_aux_sep by done. specialize (IH y Hl).
    destruct (split_aux _ 0 (join _ (y :: l))) as [f r]. by injection IH as -> ->.
Qed.

(** *** [replace] *)

Lemma prefix_length p s : String.prefix p s = true -> (String.length p <= String.length s)%nat.
Proof.
  revert s. induction p as [|a p IH]; intros s H; [simpl; lia|].
  destruct s as [|b s]; [discriminate|]. simpl in H.
  destruct (ascii_dec a b); [|discriminate]. apply IH in H. simpl. lia.
Qed.

Lemma prefix_sep old c s1 s2 :
  free c old -> String.prefix old (s1 ++ String c s2) = String.prefix old s1.
Proof.
  revert s1. induction old as [|a old IH]; intros s1 H; [by destruct s1|].
  apply free_cons in H as [Hne Hold]. destruct s1 as [|b s1].
  - rewrite append_nil. simpl. destruct (ascii_dec a c) as [->|]; [done|reflexivity].
  - rewrite append_cons. simpl. destruct (ascii_dec a b); [by apply IH|reflexivity].
Qed.

Lemma replace_aux_sep old new c s2 s1 : forall skip,
  old <> "" -> free c old -> (skip <= String.length s1)%nat ->
  replace_aux old new skip (s1 ++ String c s2) =
  replace_aux old new skip s1 ++ String c (replace_aux old new 0 s2).
Proof.
  induction s1 as [|a s1 IH]; intros skip Hne Hc Hskip.
  - simpl in Hskip. replace skip with 0%nat by lia. rewrite append_nil.
    cbn [replace_aux]. rewrite <- (append_nil (String c s2)) at 1.
    rewrite prefix_sep by done. by destruct old.
  - rewrite append_cons. cbn [replace_aux]. destruct skip as [|k].
    + rewrite <- append_cons, prefix_sep by done.
      destruct (String.prefix old (String a s1)) eqn:E.
      * apply prefix_length in E. simpl in E.
        rewrite IH by (done || lia). by rewrite append_assoc_s.
      * rewrite IH by (done || lia). reflexivity.
    + simpl in Hskip. apply IH; [done|done|lia].
Qed.

(** [replace] works field by field on text joined by a character that is
    not in [old]. *)
Lemma replace_join old new c l :
  old <> "" -> free c old ->
  replace old new (join (String c "") l) = join (String c "") (map (replace old new) l).
Proof.
  intros Hne Hc. unfold replace. destruct old as [|a old]; [done|].
  induction l as [|x l IH]; [reflexivity|]. destruct l as [|y l]; [reflexivity|].
  change (join (String c "") (x :: y :: l))
    with (x ++ String c (join (String c "") (y :: l))).
  rewrite replace_aux_sep by (done || lia). rewrite IH. reflexivity.
Qed.

(** Text without the first character of [old] is left alone. *)
Lemma replace_free a old new s : free a s -> replace (String a old) new s = s.
Proof.
  unfold replace. induction s as [|b s IH]; [reflexivity|]. intros H.
  apply free_cons in H as [Hne Hs]. cbn [replace_aux String.prefix].
  destruct (ascii_dec a b); [done|]. by rewrite IH.
Qed.

Lemma prefix_drop old s :
  String.prefix old s = true -> old ++ drop_chars (String.length old) s = s.
Proof.
  revert s. induction old as [|a old IH]; intros s H; [reflexivity|].
  destruct s as [|b s]; [discriminate|]. simpl in H.
  destruct (ascii_dec a b) as [->|]; [|discriminate].
  rewrite append_cons. cbn [String.length drop_chars]. by rewrite IH.
Qed.

Lemma drop_chars_0 s : drop_chars 0 s = s.
Proof. by destruct s. Qed.

Lemma replace_aux_same old s : forall skip,
  old <> "" -> replace_aux old old skip s = drop_chars skip s.
Proof.
  induction s as [|b s IH]; intros skip Hne; [by destruct skip|].
  cbn [replace_aux]. destruct skip as [|k]; [|by apply IH].
  destruct (String.prefix old (String b s)) eqn:E.
  - rewrite IH by done. destruct old as [|a old]; [done|]. simpl in E.
    destruct (ascii_dec a b) as [->|]; [|discriminate].
    cbn [String.length Nat.sub]. rewrite Nat.sub_0_r, append_cons.
    by rewrite prefix_drop.
  - by rewrite IH, drop_chars_0.
Qed.

(** Replacing a text by itself changes nothing. *)
Lemma replace_same old s : replace old old s = s.
Proof.
  unfold replace. destruct old as [|a old].
  - induction s as [|b s IH]; [reflexivity|]. cbn [intersperse].
    rewrite append_nil. by rewrite IH.
  - by rewrite replace_aux_same, drop_chars_0.
Qed.
(** ** Text of numbers *)

Import PLFold.

Lemma string_of_uint_digits d :
  Forall digit_char (list_ascii_of_string (NilEmpty.string_of_uint d)).
Proof.
  induction d; simpl; [apply Forall_nil_2|..];
    (apply Forall_cons_2; [unfold digit_char; vm_compute; lia|exact IHd]).
Qed.

Lemma str_int_chars z :
  Forall (fun c => digit_char c \/ c = "-"%char) (list_ascii_of_string (str_int z)).
Proof.
  assert (Hu : forall d,
    Forall (fun c => digit_char c \/ c = "-"%char)
           (list_ascii_of_string (NilZero.string_of_uint d))).
  { intros d. unfold NilZero.string_of_uint.
    destruct d; try (eapply Forall_impl; [apply string_of_uint_digits|by left]).
    apply Forall_cons_2; [left; unfold digit_char; vm_compute; lia|apply Forall_nil_2]. }
  unfold str_int, NilZero.string_of_int. destruct (Z.to_int z) as [d|d]; [apply Hu|].
  apply Forall_cons_2; [by right|apply Hu].
Qed.

Lemma str_int_nonneg_digits z :
  0 <= z -> Forall digit_char (list_ascii_of_string (str_int z)).
Proof.
  intros Hz. unfold str_int, NilZero.string_of_int.
  destruct z as [|p|p]; try lia; cbn -[NilZero.string_of_uint].
  - apply Forall_cons_2; [unfold digit_char; vm_compute; lia|apply Forall_nil_2].
  - unfold NilZero.string_of_uint.
    destruct (Pos.to_uint p); try apply string_of_uint_digits.
    apply Forall_cons_2; [unfold digit_char; vm_compute; lia|apply Forall_nil_2].
Qed.
Lemma Forall_free (P : ascii -> Prop) a s :
  Forall P (list_ascii_of_string s) -> ~ P a -> free a s.
Proof.
  intros HP Ha Hin. eapply Forall_forall in HP; [|exact Hin]. contradiction.
Qed.

Lemma digit_not c a :
  digit_char c -> (nat_of_ascii a < 48 \/ 57 < nat_of_ascii a)%nat -> c <> a.
Proof. unfold digit_char. intros Hc Ha ->. lia. Qed.

Lemma str_int_free a z :
  (nat_of_ascii a < 45 \/ 57 < nat_of_ascii a)%nat -> free a (str_int z).
Proof.
  intros Ha. eapply Forall_free; [apply str_int_chars|].
  intros [Hd| ->]; [unfold digit_char in Hd; lia|]. vm_compute in Ha. lia.
Qed.

Lemma numeric_char_free a s :
  Forall (fun c => numeric_char c = true) (list_ascii_of_string s) ->
  numeric_char a = false -> free a s.
Proof. intros Hs Ha. eapply Forall_free; [exact Hs|]. simpl. congruence. Qed.

Lemma prefix_append p s : String.prefix p (p ++ s) = true.
Proof.
  induction p as [|a p IH]; [by destruct s|]. rewrite append_cons. simpl.
  destruct (ascii_dec a a); [exact IH|done].
Qed.


(** ** Loops that collect results *)

Lemma mapM_Ok {A B} (f : A -> result B) (g : A -> B) l :
  Forall (fun x => f x = Ok (g x)) l -> mapM f l = Ok (map g l).
Proof.
  induction 1 as [|x l Hx Hl IH]; [reflexivity|].
  cbn [mapM]. rewrite Hx. cbn [mbind result_bind]. rewrite IH. reflexivity.
Qed.

Lemma mapM_id_Ok {B} (l : list B) : mapM id (map Ok l) = Ok l.
Proof.
  induction l as [|x l IH]; [reflexivity|].
  cbn [mapM map id]. cbn [mbind result_bind]. rewrite IH. reflexivity.
Qed.

(** ** The text of a profile *)

Abbreviation tab := (ascii_of_nat 9).
Abbreviation nl := (ascii_of_nat 10).

Section ProfileText.
Context {FT : FloatText}.

Lemma raw_text_cases x :
  regular x ->
  (isnan x = true /\ float_str (round7 x) = "nan") \/
  (isnan x = false /\ float_str (round7 x) <> "" /\
   Forall (fun c => numeric_char c = true) (list_ascii_of_string (float_str (round7 x)))).
Proof.
  intros Hx. destruct (isnan x) eqn:E.
  - left. split; [done|]. by apply str_nan.
  - right. split; [done|]. by apply str_numeric.
Qed.

Lemma raw_text_free a x :
  regular x -> numeric_char a = false -> a <> "n"%char -> a <> "a"%char ->
  free a (float_str (round7 x)).
Proof.
  intros Hx Ha Hn Haa. destruct (raw_text_cases x Hx) as [[_ ->]|(_ & _ & Hnum)].
  - simpl. rewrite !not_elem_of_cons. repeat split; try done. apply not_elem_of_nil.
  - by apply numeric_char_free.
Qed.

Lemma cell_text_free a x :
  regular x -> numeric_char a = false -> a <> "N"%char -> a <> "A"%char ->
  free a (cell_text x).
Proof.
  intros Hx Ha Hn Haa. unfold cell_text.
  destruct (raw_text_cases x Hx) as [[-> _]|(-> & _ & Hnum)].
  - simpl. rewrite !not_elem_of_cons. repeat split; try done. apply not_elem_of_nil.
  - by apply numeric_char_free.
Qed.

Lemma replace_raw_text x :
  regular x -> replace "nan" "NA" (float_str (round7 x)) = cell_text x.
Proof.
  intros Hx. unfold cell_text.
  destruct (raw_text_cases x Hx) as [[-> ->]|(-> & _ & Hnum)]; [reflexivity|].
  apply replace_free. by apply numeric_char_free.
Qed.

Lemma replace_cell_text x :
  regular x -> replace "nan" "NA" (cell_text x) = cell_text x.
Proof. intros Hx. apply replace_free. by apply cell_text_free. Qed.



(** *** Lines *)

Lemma raw_row_fields_free a x row :
  Forall regular row ->
  numeric_char a = false -> a <> "n"%char -> a <> "a"%char ->
  (nat_of_ascii a < 45 \/ 57 < nat_of_ascii a)%nat ->
  Forall (fun s => free a s) (str_int (Z.of_nat x + 1) :: map float_str (map round7 row)).
Proof.
  intros Hrow Ha Hn Haa Hd. apply Forall_cons_2; [by apply str_int_free|].
  rewrite map_map. apply Forall_map. eapply Forall_impl; [exact Hrow|].
  intros c Hc. by apply raw_text_free.
Qed.

Lemma row_text_fields_free a x row :
  Forall regular row ->
  numeric_char a = false -> a <> "N"%char -> a <> "A"%char ->
  (nat_of_ascii a < 45 \/ 57 < nat_of_ascii a)%nat ->
  Forall (fun s => free a s) (str_int (Z.of_nat x + 1) :: map cell_text row).
Proof.
  intros Hrow Ha Hn Haa Hd. apply Forall_cons_2; [by apply str_int_free|].
  apply Forall_map. eapply Forall_impl; [exact Hrow|].
  intros c Hc. by apply cell_text_free.
Qed.

Lemma raw_row_free_nl x row : Forall regular row -> free nl (raw_row x row).
Proof.
  intros Hrow. apply free_join.
  - simpl. rewrite not_elem_of_cons. split; [done|apply not_elem_of_nil].
  - apply raw_row_fields_free; try done. vm_compute. lia.
Qed.

Lemma row_text_free_nl x row : Forall regular row -> free nl (row_text x row).
Proof.
  intros Hrow. apply free_join.
  - simpl. rewrite not_elem_of_cons. split; [done|apply not_elem_of_nil].
  - apply row_text_fields_free; try done. vm_compute. lia.
Qed.

Lemma replace_raw_row x row :
  Forall regular row -> replace "nan" "NA" (raw_row x row) = row_text x row.
Proof.
  intros Hrow. unfold raw_row, row_text.
  change TAB with (String tab ""). rewrite replace_join; [|done|].
  2:{ simpl. rewrite !not_elem_of_cons. repeat split; try done. apply not_elem_of_nil. }
  f_equal. cbn [map]. f_equal.
  - apply replace_free. apply str_int_free. vm_compute. lia.
  - rewrite !map_map. apply map_ext_Forall. eapply Forall_impl; [exact Hrow|].
    intros c Hc. by apply replace_raw_text.
Qed.

Lemma replace_row_text x row :
  Forall regular row -> replace "nan" "NA" (row_text x row) = row_text x row.
Proof.
  intros Hrow. unfold row_text.
  change TAB with (String tab ""). rewrite replace_join; [|done|].
  2:{ simpl. rewrite !not_elem_of_cons. repeat split; try done. apply not_elem_of_nil. }
  f_equal. cbn [map]. f_equal.
  - apply replace_free. apply str_int_free. vm_compute. lia.
  - rewrite map_map. apply map_ext_Forall. eapply Forall_impl; [exact Hrow|].
    intros c Hc. by apply replace_cell_text.
Qed.

Lemma split_raw_row x row :
  Forall regular row ->
  split TAB (raw_row x row) = Ok (str_int (Z.of_nat x + 1) :: map float_str (map round7 row)).
Proof.
  intros Hrow. apply (split_join tab). apply raw_row_fields_free; try done.
  vm_compute. lia.
Qed.

Lemma split_row_text x row :
  Forall regular row ->
  split TAB (row_text x row) = Ok (str_int (Z.of_nat x + 1) :: map cell_text row).
Proof.
  intros Hrow. apply (split_join tab). apply row_text_fields_free; try done.
  vm_compute. lia.
Qed.

End ProfileText.
(** ** Round trip of a profile through its text *)

Section RoundTrip.
Context {FT : FloatText}.




Lemma header_free a n :
  (nat_of_ascii a < 45 \/ 57 < nat_of_ascii a)%nat ->
  a <> " "%char -> a <> "#"%char -> a <> "$"%char -> a <> "i"%char ->
  a <> tab -> a <> "l"%char -> a <> "="%char ->
  free a (header n).
Proof.
  intros Hd H1 H2 H3 H4 H5 H6 H7. unfold header. rewrite !free_app. repeat split.
  - simpl. rewrite !not_elem_of_cons. repeat split; try done. apply not_elem_of_nil.
  - simpl. rewrite !not_elem_of_cons. repeat split; try done. apply not_elem_of_nil.
  - simpl. rewrite !not_elem_of_cons. repeat split; try done. apply not_elem_of_nil.
  - apply free_join.
    + simpl. rewrite !not_elem_of_cons. repeat split; try done. apply not_elem_of_nil.
    + apply Forall_map, Forall_forall. intros z _. by apply str_int_free.
Qed.



Lemma Forall_imap {A B} (P : B -> Prop) (f : nat -> A -> B) l :
  (forall i x, x ∈ l -> P (f i x)) -> Forall P (imap f l).
Proof.
  intros H. apply Forall_forall. intros y Hy.
  apply elem_of_lookup_imap in Hy as (i & x & -> & Hx).
  apply H. by eapply list_elem_of_lookup_2.
Qed.


(** *** [__sanitize] on joined lines *)

Lemma sanitize_lines first rest fields :
  Forall (fun s => free nl s) (first :: rest) ->
  startswith ("1" ++ TAB) first = true ->
  split TAB first = Ok fields ->
  __sanitize (join NL (first :: rest)) =
  Ok (join NL (map (replace "nan" "NA")
                 ("#unpaired probabilities"
                  :: header (Z.of_nat (length fields) - 1)
                  :: first :: rest))).
Proof.
  intros Hfree Hstart Hfields. unfold __sanitize.
  change NL with (String nl ""). rewrite (split_join nl) by done.
  cbn [mbind result_bind]. change (getitem (first :: rest) 0) with (@Ok string first).
  cbn [mbind result_bind]. rewrite Hstart, Hfields. cbn [mbind result_bind].
  rewrite replace_join; [reflexivity|done|].
  simpl. rewrite !not_elem_of_cons. repeat split; try done. apply not_elem_of_nil.
Qed.

Lemma replace_header n : replace "nan" "NA" (header n) = header n.
Proof. apply replace_free. apply header_free; try done. vm_compute. lia. Qed.

Lemma raw_row_startswith row x cells :
  row = x :: cells -> startswith ("1" ++ TAB) (raw_row 0 row) = true.
Proof.
  intros ->. unfold raw_row, startswith.
  change (str_int (Z.of_nat 0 + 1)) with "1". cbn [map].
  change (join TAB ("1" :: float_str (round7 x) :: map float_str (map round7 cells)))
    with ("1" ++ TAB ++ join TAB (float_str (round7 x) :: map float_str (map round7 cells))).
  rewrite <- append_assoc_s. apply prefix_append.
Qed.

Lemma row_text_startswith row x cells :
  row = x :: cells -> startswith ("1" ++ TAB) (row_text 0 row) = true.
Proof.
  intros ->. unfold row_text, startswith.
  change (str_int (Z.of_nat 0 + 1)) with "1". cbn [map].
  change (join TAB ("1" :: cell_text x :: map cell_text cells))
    with ("1" ++ TAB ++ join TAB (cell_text x :: map cell_text cells)).
  rewrite <- append_assoc_s. apply prefix_append.
Qed.

(** [np.array] takes the rows of one length, and only those. *)
Lemma np_array_rectangular array : rectangular array -> np_array array = Ok array.
Proof.
  intros Hrect. unfold np_array. destruct array as [|r rest]; [reflexivity|].
  replace (forallb _ _) with true; [reflexivity|]. symmetry. apply forallb_forall.
  intros r' Hin. apply Nat.eqb_eq. apply Hrect; [right; by apply list_elem_of_In|by left].
Qed.

Lemma np_array_Ok array a : np_array array = Ok a -> a = array /\ rectangular array.
Proof.
  unfold np_array. destruct array as [|r rest].
  - intros [= <-]. split; [reflexivity|]. intros ? ? H. by apply elem_of_nil in H.
  - destruct (forallb _ _) eqn:E; [|discriminate]. intros [= <-]. split; [reflexivity|].
    assert (Hlen : forall x, x ∈ r :: rest -> length x = length r).
    { intros x Hx. apply elem_of_cons in Hx as [->|Hx]; [reflexivity|].
      eapply forallb_forall in E; [|by apply list_elem_of_In]. by apply Nat.eqb_eq. }
    intros x y Hx Hy. by rewrite (Hlen x), (Hlen y).
Qed.

Lemma array_to_string_rows array :
  rectangular array -> __array_to_string array = Ok (join NL (imap raw_row array)).
Proof.
  intros Hrect. unfold __array_to_string. rewrite np_array_rectangular by done.
  cbn [mbind result_bind]. by rewrite imap_fmap.
Qed.

Lemma regular_array_row array row :
  regular_array array -> row ∈ array -> Forall regular row.
Proof. intros H Hin. by eapply Forall_forall in H. Qed.

(** The text [from_numpy] keeps. *)
Lemma sanitize_array row0 rest :
  regular_array (row0 :: rest) -> row0 <> [] ->
  __sanitize (join NL (imap raw_row (row0 :: rest))) = Ok (sanitized_text (row0 :: rest)).
Proof.
  intros Hreg Hrow0. destruct row0 as [|x cells] eqn:E; [done|]. rewrite <- E in *.
  rewrite imap_cons.
  assert (Hr0 : Forall regular row0) by (eapply regular_array_row; [exact Hreg|by left]).
  assert (Hfree : Forall (fun s => free nl s) (raw_row 0 row0 :: imap (raw_row ∘ S) rest)).
  { rewrite <- (imap_cons raw_row). apply Forall_imap. intros i row Hrow.
    apply raw_row_free_nl. by eapply regular_array_row. }
  rewrite (sanitize_lines _ _ _ Hfree (raw_row_startswith _ _ _ E) (split_raw_row 0 row0 Hr0)).
  f_equal. unfold sanitized_text. rewrite (imap_cons row_text). cbn [head default map].
  f_equal. apply (f_equal2 cons); [reflexivity|].
  apply (f_equal2 cons); [|apply (f_equal2 cons)].
  - rewrite replace_header. f_equal. cbn [length id]. rewrite !length_map. unfold id. lia.
  - by apply replace_raw_row.
  - rewrite fmap_imap. apply imap_ext. intros i row Hrow. cbn.
    apply (replace_raw_row (S i)). eapply regular_array_row; [exact Hreg|].
    right. by eapply list_elem_of_lookup_2.
Qed.

(** The text read back in is sanitized to the same text. *)
Lemma sanitize_rows row0 rest :
  regular_array (row0 :: rest) -> row0 <> [] ->
  __sanitize (join NL (imap row_text (row0 :: rest))) = Ok (sanitized_text (row0 :: rest)).
Proof.
  intros Hreg Hrow0. destruct row0 as [|x cells] eqn:E; [done|]. rewrite <- E in *.
  rewrite imap_cons.
  assert (Hr0 : Forall regular row0) by (eapply regular_array_row; [exact Hreg|by left]).
  assert (Hfree : Forall (fun s => free nl s) (row_text 0 row0 :: imap (row_text ∘ S) rest)).
  { rewrite <- (imap_cons row_text). apply Forall_imap. intros i row Hrow.
    apply row_text_free_nl. by eapply regular_array_row. }
  rewrite (sanitize_lines _ _ _ Hfree (row_text_startswith _ _ _ E) (split_row_text 0 row0 Hr0)).
  f_equal. unfold sanitized_text. rewrite (imap_cons row_text). cbn [head default map].
  f_equal. apply (f_equal2 cons); [reflexivity|].
  apply (f_equal2 cons); [|apply (f_equal2 cons)].
  - rewrite replace_header. f_equal. cbn [length id]. rewrite !length_map. unfold id. lia.
  - by apply replace_row_text.
  - rewrite fmap_imap. apply imap_ext. intros i row Hrow. cbn.
    apply (replace_row_text (S i)). eapply regular_array_row; [exact Hreg|].
    right. by eapply list_elem_of_lookup_2.
Qed.

Lemma sanitized_text_lines array :
  regular_array array ->
  split NL (sanitized_text array) =
  Ok ("#unpaired probabilities"
      :: header (Z.of_nat (length (default [] (head array))))
      :: imap row_text array).
Proof.
  intros Hreg. unfold sanitized_text. change NL with (String nl "").
  apply split_join. apply Forall_cons_2; [|apply Forall_cons_2].
  - simpl. rewrite !not_elem_of_cons. repeat split; try done. apply not_elem_of_nil.
  - apply header_free; try done. vm_compute. lia.
  - apply Forall_imap. intros i row Hrow. apply row_text_free_nl.
    by eapply regular_array_row.
Qed.





End RoundTrip.
(** ** The exact decimal cells satisfy the laws *)

Import Decimal8.

Lemma to_int_proper z : Z.to_int z <> Decimal.Pos Decimal.Nil /\ Z.to_int z <> Decimal.Neg Decimal.Nil.
Proof.
  destruct z as [|p|p]; cbn; split; try discriminate;
    intros [= H]; by apply (DecimalPos.Unsigned.to_uint_nonnil p).
Qed.

Lemma int_of_str_int z : NilZero.int_of_string (str_int z) = Some (Z.to_int z).
Proof. unfold str_int. destruct (to_int_proper z). by apply NilZero.isi. Qed.

Lemma length_append_s s1 s2 :
  String.length (s1 ++ s2) = (String.length s1 + String.length s2)%nat.
Proof.
  induction s1 as [|a s1 IH]; [reflexivity|]. rewrite append_cons. simpl. by rewrite IH.
Qed.

Lemma substring_append_l s1 s2 :
  substring 0 (String.length s1) (s1 ++ s2) = s1.
Proof.
  induction s1 as [|a s1 IH]; [by destruct s2|]. rewrite append_cons. simpl. by rewrite IH.
Qed.

Lemma substring_append_r s1 s2 :
  substring (String.length s1) (String.length s2) (s1 ++ s2) = s2.
Proof.
  induction s1 as [|a s1 IH]; [|by rewrite append_cons].
  rewrite append_nil. simpl. induction s2 as [|b s2 IH]; [reflexivity|].
  simpl. by rewrite IH.
Qed.

Lemma dparse_dstr z : dparse (dstr (DVal z)) = Some (DVal z).
Proof.
  unfold dparse, dstr. rewrite length_append_s.
  destruct (String.eqb_spec (str_int z ++ "e-08") "nan") as [E|_].
  { exfalso. apply (f_equal String.length) in E. rewrite length_append_s in E.
    simpl in E. lia. }
  change (String.length "e-08") with 4%nat.
  replace (String.length (str_int z) + 4 - 4)%nat with (String.length (str_int z)) by lia.
  replace (4 <=? String.length (str_int z) + 4)%nat with true
    by (symmetry; apply Nat.leb_le; lia).
  change 4%nat with (String.length "e-08") at 1.
  rewrite substring_append_r, substring_append_l. cbn [andb String.eqb].
  change (String.eqb "e-08" "e-08") with true. cbn iota.
  rewrite int_of_str_int. cbn [option_map]. by rewrite DecimalZ.of_to.
Qed.

Lemma rint10_close z : Z.abs (10 * rint10 z - z) <= 5.
Proof.
  unfold rint10. pose proof (Z.div_mod z 10 ltac:(lia)) as Hdm.
  pose proof (Z.mod_pos_bound z 10 ltac:(lia)) as Hb.
  destruct (Z.ltb_spec (z mod 10) 5); [lia|].
  destruct (Z.ltb_spec 5 (z mod 10)); [lia|].
  destruct (Z.even (z / 10)); lia.
Qed.

Lemma dstr_numeric z :
  Forall (fun c => numeric_char c = true) (list_ascii_of_string (dstr (DVal z))).
Proof.
  unfold dstr. rewrite list_ascii_of_string_app. apply Forall_app. split.
  - eapply Forall_impl; [apply str_int_chars|]. intros c [Hd| ->]; [|reflexivity].
    unfold numeric_char. unfold digit_char in Hd.
    destruct Hd as [H1 H2]. apply Nat.leb_le in H1, H2. by rewrite H1, H2.
  - repeat (apply Forall_cons_2; [reflexivity|]). apply Forall_nil_2.
Qed.

Lemma decimal8_str_nan x : disnan x = true -> dstr (dround7 x) = "nan".
Proof. by destruct x. Qed.

Lemma decimal8_str_numeric x :
  True -> disnan x = false ->
  dstr (dround7 x) <> "" /\
  Forall (fun c => numeric_char c = true) (list_ascii_of_string (dstr (dround7 x))).
Proof.
  intros _ Hx. destruct x as [|z]; [discriminate|]. split; [|apply dstr_numeric].
  intros E. apply (f_equal String.length) in E. cbn [dround7 dstr] in E.
  rewrite length_append_s in E. simpl in E. lia.
Qed.

Lemma decimal8_parse_str x :
  True -> disnan x = false -> dparse (dstr (dround7 x)) = Some (dround7 x).
Proof. intros _ Hx. destruct x as [|z]; [discriminate|]. apply dparse_dstr. Qed.

Lemma decimal8_close_round x :
  True -> disnan x = false ->
  dclose (dround7 x) x = true /\ dclose x (dround7 x) = true.
Proof.
  intros _ Hx. destruct x as [|z]; [discriminate|]. cbn [dround7 dclose].
  pose proof (rint10_close z). split; apply Z.leb_le; lia.
Qed.

Lemma decimal8_close_nan x :
  disnan x = true -> dclose DNaN x = true /\ dclose x DNaN = true.
Proof. by destruct x. Qed.

#[export] Instance decimal8 : FloatText := {|
  cell := dcell;
  nan := DNaN;
  isnan := disnan;
  round7 := dround7;
  float_str := dstr;
  float_parse := dparse;
  isclose := dclose;
  regular := fun _ => True;
  str_nan := decimal8_str_nan;
  str_numeric := decimal8_str_numeric;
  parse_str := decimal8_parse_str;
  close_round := decimal8_close_round;
  close_nan := decimal8_close_nan
|}.

(** [from_numpy] takes rows of one length only, and then keeps the text
    [__sanitize] makes of their lines. *)
Lemma from_numpy_rectangular {FT : FloatText} (array : ndarray) (P : PLFoldOutput) :
  from_numpy array = Ok P -> rectangular array.
Proof.
  unfold from_numpy, __array_to_string.
  destruct (np_array array) eqn:E; [|discriminate]. intros _.
  by apply np_array_Ok in E as [_ ?].
Qed.

Lemma from_numpy_rows {FT : FloatText} (array : ndarray) :
  rectangular array ->
  from_numpy array =
  (text ← __sanitize (join NL (imap raw_row array));
   Ok {| text := text; _numpy_array := Some array |}).
Proof.
  intros Hrect. unfold from_numpy, __init__.
  rewrite array_to_string_rows, np_array_rectangular by done.
  cbn [mbind result_bind]. by destruct (__sanitize _).
Qed.

Lemma from_numpy_Ok {FT : FloatText} (array : ndarray) (P : PLFoldOutput) :
  regular_array array ->
  from_numpy array = Ok P ->
  (exists row0 rest, array = row0 :: rest /\ row0 <> []) /\
  P = {| text := sanitized_text array; _numpy_array := Some array |}.
Proof.
  intros Hreg Hfrom. pose proof (from_numpy_rectangular _ _ Hfrom) as Hrect.
  rewrite from_numpy_rows in Hfrom by done.
  destruct array as [|row0 rest]; [discriminate|].
  destruct row0 as [|x cells].
  - exfalso. rewrite imap_cons in Hfrom.
    unfold __sanitize in Hfrom. change NL with (String nl "") in Hfrom.
    rewrite (split_join nl) in Hfrom.
    + discriminate.
    + rewrite <- (imap_cons raw_row). apply Forall_imap. intros i row Hrow.
      apply raw_row_free_nl. by eapply regular_array_row.
  - rewrite sanitize_array in Hfrom by done. cbn [mbind result_bind] in Hfrom.
    injection Hfrom as <-. split; [|reflexivity]. by eexists _, _.
Qed.



Example profile_text_written :
  let array := [[DVal 12345678; DNaN]; [DVal 5; DVal 99999995]] in
  (P ← from_numpy (FT := decimal8) array; get_text P "NA" true) =
  Ok ("1" ++ TAB ++ "12345680e-08" ++ TAB ++ "NA" ++ NL ++
      "2" ++ TAB ++ "0e-08" ++ TAB ++ "100000000e-08").
Proof. vm_compute. reflexivity. Qed.

(** ** Mutation that cannot be carried out *)

Lemma index_out n x : Z.of_nat n <= x -> index n x = None.
Proof.
  intros H. unfold index.
  destruct (Z.ltb_spec x (Z.of_nat n)); [lia|]. rewrite andb_false_r.
  destruct (Z.ltb_spec x 0); [lia|]. by rewrite andb_false_r.
Qed.

Lemma mutate_region_raises value start end_ seq :
  0 <= start < end_ ->
  Z.of_nat (length seq) < end_ \/ Z.of_nat (length value) < end_ - start ->
  is_Ok (mutate_region value start end_ seq) = false.
Proof.
  intros Hse Hshort. remember (Z.to_nat (end_ - start - 1)) as n eqn:En.
  assert (Hend : end_ = start + Z.of_nat (S n)) by lia.
  unfold mutate_region. rewrite Hend, range_snoc, for_each_app.
  destruct (for_each _ (range start _) (Ok seq)) as [st|e] eqn:E; [|reflexivity].
  change (mutate_region value start (start + Z.of_nat n) seq = Ok st) in E.
  apply mutate_region_frame in E as [Hlen _]; [|lia].
  rewrite for_each_cons. cbn [for_each foldl].
  destruct Hshort as [Hseq|Hval].
  - destruct (getitem value _) as [c|]; [|reflexivity]. cbn [mbind result_bind].
    unfold setitem. rewrite index_out by lia. reflexivity.
  - unfold getitem. rewrite index_out by lia. reflexivity.
Qed.

Lemma mutate_None sequence start end_ value fstart fend :
  0 <= start < end_ ->
  len sequence < end_ \/ len value < end_ - start ->
  _mutate sequence start end_ value fstart fend = None.
Proof.
  intros Hse Hshort. unfold _mutate.
  pose proof (mutate_region_raises (list_ascii_of_string value) start end_
                (list_ascii_of_string sequence) Hse) as Hraise.
  rewrite !length_list_ascii_of_string in Hraise. specialize (Hraise Hshort).
  by destruct (mutate_region _ start end_ _).
Qed.

(** X1. [_mutate] gives [None] whenever the first region reaches beyond the
    sequence or is longer than the replacement text: the loop raises
    [IndexError] at the latest at index [end - 1], and the [except] branch
    only logs it. When the region fits the sequence and the replacement, the
    call returns a sequence. *)
Theorem mutate_returns_None_when_region_too_long
    (sequence : string) (start end_ : Z) (value : string) (fstart fend : option Z) :
  0 <= start < end_ ->
  (len sequence < end_ \/ len value < end_ - start ->
   _mutate sequence start end_ value fstart fend = None) /\
  (end_ <= len sequence -> end_ - start <= len value ->
   exists mutated, _mutate sequence start end_ value None None = Some mutated).
Proof.
  intros Hse. split.
  - by apply mutate_None.
  - intros Hseq Hval.
    destruct (mutate_writes sequence start end_ value) as (m & Hm & _); [lia|lia|lia|].
    by exists m.
Qed.

Lemma mutate_returns_None_when_region_too_long_witness :
  (len "ACGU" < 4 \/ len "GG" < 4 - 1 -> _mutate "ACGU" 1 4 "GG" None None = None) /\
  (4 <= len "ACGU" -> 4 - 1 <= len "GG" ->
   exists mutated, _mutate "ACGU" 1 4 "GG" None None = Some mutated).
Proof. apply mutate_returns_None_when_region_too_long. lia. Defined.

Example mutate_short_value : _mutate "ACGU" 1 4 "GG" None None = None.
Proof. reflexivity. Qed.

(** X2. A mutate constraint whose replacement text is too short does not
    stop the wrappers: [_mutate] returns [None], [str(None)] is the text
    [None], and this text is what is folded. [api_rnaplfold] builds the fold
    compound from it; [cmd_rnaplfold] writes it to the process and fits the
    window to its four characters. *)
Theorem failed_mutation_folds_the_text_None
    (sequence : string) (window span region : Z) (temp : float)
    (consval : string) (entry : constraint_entry) :
  0 <= c_start entry ->
  c_start entry < c_end entry - 1 ->
  c_end entry <= len sequence ->
  len consval < c_end entry - 1 - c_start entry ->
  (exists call,
     api_rnaplfold sequence window span region temp "mutate" consval (Some [entry]) = Ok call /\
     fc_sequence (pw_fc call) = "None" /\ fc_calls (pw_fc call) = []) /\
  (exists proc,
     cmd_rnaplfold sequence window span region temp "mutate" consval (Some [entry]) = Ok proc /\
     proc_stdin proc = "None" /\ proc_commands proc = [] /\
     proc_W proc <= 4 /\ proc_L proc <= 4).
Proof.
  intros Hs Hse He Hval. split.
  - unfold api_rnaplfold.
    destruct (shrink_window_span _ window span) as [[w sp] ws].
    rewrite len_normalized. cbn [for_each foldl mbind result_bind].
    unfold api_constraint_entry. cbn [entry_mode String.eqb Ascii.eqb Bool.eqb orb andb].
    change (entry_mode "mutate" entry) with "mutate".
    assert (Hc : _check_constraint (len sequence) (c_start entry) (c_end entry) = Ok tt).
    { unfold _check_constraint.
      destruct (Z.ltb_spec (c_end entry) (c_start entry)); [lia|].
      destruct (Z.ltb_spec (c_start entry) 0); [lia|].
      destruct (Z.ltb_spec (len sequence) (c_end entry)); [lia|]. reflexivity. }
    rewrite Hc. cbn [mbind result_bind].
    cbn [String.eqb Ascii.eqb Bool.eqb orb andb str_of_optional].
    rewrite mutate_None by (try lia; by right).
    eexists. split; [reflexivity|]. by split.
  - unfold cmd_rnaplfold. cbn [for_each foldl mbind result_bind].
    unfold cmd_constraint_entry.
    change (entry_mode "mutate" entry) with "mutate".
    assert (Hc : _check_constraint (len sequence) (c_start entry) (c_end entry) = Ok tt).
    { unfold _check_constraint.
      destruct (Z.ltb_spec (c_end entry) (c_start entry)); [lia|].
      destruct (Z.ltb_spec (c_start entry) 0); [lia|].
      destruct (Z.ltb_spec (len sequence) (c_end entry)); [lia|]. reflexivity. }
    rewrite Hc. cbn [mbind result_bind].
    cbn [String.eqb Ascii.eqb Bool.eqb orb andb].
    rewrite mutate_None by (try lia; by right).
    cbn [str_of_optional mbind result_bind].
    rewrite shrink_window_span_spec. change (len "None") with 4.
    eexists. split; [reflexivity|].
    cbn [proc_stdin proc_commands proc_W proc_L]. repeat split.
    + destruct (Z.ltb_spec 4 window); lia.
    + destruct (Z.ltb_spec 4 window);
        match goal with |- context [?a <? span] => destruct (Z.ltb_spec a span) end; lia.
Qed.

Lemma failed_mutation_folds_the_text_None_witness :
  let entry := {| c_mode := "paired"; c_start := 0; c_end := 5 |} in
  (exists call,
     api_rnaplfold "AAAAAA" 6 6 3 37%float "mutate" "CC" (Some [entry]) = Ok call /\
     fc_sequence (pw_fc call) = "None" /\ fc_calls (pw_fc call) = []) /\
  (exists proc,
     cmd_rnaplfold "AAAAAA" 6 6 3 37%float "mutate" "CC" (Some [entry]) = Ok proc /\
     proc_stdin proc = "None" /\ proc_commands proc = [] /\
     proc_W proc <= 4 /\ proc_L proc <= 4).
Proof.
  apply failed_mutation_folds_the_text_None; vm_compute; first [reflexivity|discriminate].
Defined.

(** ** Soft constraints, and the region both wrappers constrain *)

(** X3. With [constype = "soft"] an unpaired constraint is never applied
    as a soft constraint. In [api_rnaplfold] mode ["unpaired"] is taken by
    the branch of the hard constraint and [hc_add_up] is called on the
    region. Mode ["u"] reaches [_constrain_unpaired_soft], which hands the
    text [consval] to the engine: the call raises, the function returns
    [None], and the wrapper raises [AttributeError] at [fc.probs_window];
    only for an empty region, where no call is made, it returns.
    [cmd_rnaplfold] writes the hard command [P] for both modes, and no
    call of it, whatever the constraints, writes a command other than [F]
    and [P]. *)
Theorem soft_unpaired_is_never_a_soft_constraint
    (sequence : string) (window span region : Z) (temp : float)
    (consval : string) (start end_ : Z) :
  0 <= start <= end_ ->
  end_ <= len sequence ->
  let entry mode := {| c_mode := mode; c_start := start; c_end := end_ |} in
  let api mode := api_rnaplfold sequence window span region temp "soft" consval
                    (Some [entry mode]) in
  (exists call, api "unpaired" = Ok call /\
     fc_calls (pw_fc call) = map hc_add_up (range (start + 1) (end_ + 1))) /\
  (start < end_ -> api "u" = Raise AttributeError) /\
  (start = end_ -> exists call, api "u" = Ok call /\ fc_calls (pw_fc call) = []) /\
  (forall mode, mode = "unpaired" \/ mode = "u" ->
     exists proc,
       cmd_rnaplfold sequence window span region temp "soft" consval
         (Some [entry mode]) = Ok proc /\
       proc_commands proc =
         [{| cl_const := "P"; cl_first := start + 1; cl_partner := 0;
             cl_length := end_ - start |}]) /\
  (forall constype constraint proc,
     cmd_rnaplfold sequence window span region temp constype consval constraint = Ok proc ->
     Forall (fun line => cl_const line = "F" \/ cl_const line = "P") (proc_commands proc)).
Proof.
  intros Hse Hend entry api.
  assert (Hchk : forall n mode, n = len sequence ->
            _check_constraint n (c_start (entry mode)) (c_end (entry mode)) = Ok tt).
  { intros n mode ->. apply check_constraint_Ok. unfold in_bounds. simpl. lia. }
  split; [|split; [|split; [|split]]].
  - subst api. unfold api_rnaplfold. rewrite shrink_window_span_spec, for_each_cons.
    unfold api_constraint_entry. rewrite Hchk by apply len_normalized.
    cbn -[replace upper range Z.add]. eexists. split; reflexivity.
  - intros Hlt. subst api. unfold api_rnaplfold.
    rewrite shrink_window_span_spec, for_each_cons.
    unfold api_constraint_entry. rewrite Hchk by apply len_normalized.
    cbn -[replace upper range Z.add _constrain_unpaired_soft].
    rewrite constrain_unpaired_soft_spec. cbn [truthy andb app_nil_r]. rewrite app_nil_r.
    destruct (range (start + 1) (end_ + 1)) as [|x xs] eqn:E; [|reflexivity].
    apply (f_equal (@length Z)) in E. unfold range in E.
    rewrite length_map, length_seq in E. cbn [length] in E. lia.
  - intros ->. subst api. unfold api_rnaplfold.
    rewrite shrink_window_span_spec, for_each_cons.
    unfold api_constraint_entry. rewrite Hchk by apply len_normalized.
    cbn -[replace upper range Z.add _constrain_unpaired_soft].
    rewrite constrain_unpaired_soft_spec. cbn [truthy andb]. rewrite app_nil_r.
    unfold range. replace (Z.to_nat (end_ + 1 - (end_ + 1))) with 0%nat by lia.
    cbn -[replace upper]. eexists. split; reflexivity.
  - intros mode Hmode. unfold cmd_rnaplfold. rewrite for_each_cons.
    unfold cmd_constraint_entry. rewrite Hchk by reflexivity.
    destruct Hmode as [-> | ->];
      cbn -[shrink_window_span Z.add Z.sub]; rewrite shrink_window_span_spec;
      eexists; split; reflexivity.
  - intros constype constraint proc. unfold cmd_rnaplfold.
    destruct constraint as [entries|].
    + destruct (for_each _ entries _) as [[s lines]|] eqn:E; [|discriminate].
      cbn [mbind result_bind].
      destruct (shrink_window_span _ window span) as [[w sp] ws]. intros [= <-].
      cbn [proc_commands].
      eapply (for_each_invariant _
                (fun st => Forall (fun line => cl_const line = "F" \/ cl_const line = "P") st.2))
        in E; [exact E| |by apply Forall_nil].
      intros [s0 l0] e st' _ Hl. cbn [snd] in Hl. unfold cmd_constraint_entry.
      destruct (_check_constraint _ _ _); [|discriminate]. cbn [mbind result_bind].
      repeat (match goal with |- context [if ?b then _ else _] => destruct b eqn:? end;
              try discriminate);
        intros [= <-]; cbn [snd]; try exact Hl;
        apply Forall_app; (split; [exact Hl|]); apply Forall_singleton; cbn [cl_const];
        first [by left | by right].
    + cbn [mbind result_bind].
      destruct (shrink_window_span _ window span) as [[w sp] ws]. intros [= <-].
      by apply Forall_nil.
Qed.

Lemma soft_unpaired_is_never_a_soft_constraint_witness :
  let entry mode := {| c_mode := mode; c_start := 2; c_end := 4 |} in
  let api mode := api_rnaplfold "ACGUACGU" 8 8 4 37%float "soft" "1.5" (Some [entry mode]) in
  (exists call, api "unpaired" = Ok call /\
     fc_calls (pw_fc call) = map hc_add_up (range (2 + 1) (4 + 1))) /\
  (2 < 4 -> api "u" = Raise AttributeError) /\
  (2 = 4 -> exists call, api "u" = Ok call /\ fc_calls (pw_fc call) = []) /\
  (forall mode, mode = "unpaired" \/ mode = "u" ->
     exists proc,
       cmd_rnaplfold "ACGUACGU" 8 8 4 37%float "soft" "1.5" (Some [entry mode]) = Ok proc /\
       proc_commands proc =
         [{| cl_const := "P"; cl_first := 2 + 1; cl_partner := 0; cl_length := 4 - 2 |}]) /\
  (forall constype constraint proc,
     cmd_rnaplfold "ACGUACGU" 8 8 4 37%float constype "1.5" constraint = Ok proc ->
     Forall (fun line => cl_const line = "F" \/ cl_const line = "P") (proc_commands proc)).
Proof.
  apply (soft_unpaired_is_never_a_soft_constraint "ACGUACGU" 8 8 4 37%float "1.5" 2 4).
  - lia.
  - vm_compute. discriminate.
Defined.

(** The soft constraint [("u", 2, 4)]: the wrapper ends without a fold
    compound. *)
Example api_soft_u_ACGUACGU :
  api_rnaplfold "ACGUACGU" 8 8 4 37%float "soft" "1.5"
    (Some [{| c_mode := "u"; c_start := 2; c_end := 4 |}]) = Raise AttributeError.
Proof. reflexivity. Qed.

(** X4. For a hard constraint inside the sequence the two wrappers name
    the same region. [cmd_rnaplfold] writes one command line with const [F]
    (paired) or [P] (unpaired), first position [start + 1], partner [0] and
    length [end - start]; [api_rnaplfold] calls the engine once for every
    position from that first position on, as many times as the length says.
    Neither changes the sequence. *)
Theorem hard_constraint_same_region_in_both_wrappers
    (consval sequence : string) (m : md) (seqlen : Z) (fc : fold_compound)
    (lines : list command_line) (entry : constraint_entry) :
  in_bounds seqlen entry ->
  c_mode entry ∈ ["paired"; "p"; "unpaired"; "u"] ->
  let paired := bool_decide (c_mode entry ∈ ["paired"; "p"]) in
  exists line fc',
    cmd_constraint_entry "hard" consval seqlen (sequence, lines) entry
      = Ok (sequence, (lines ++ [line])%list) /\
    api_constraint_entry "hard" consval m seqlen (Some sequence, Some fc) entry
      = Ok (Some sequence, Some fc') /\
    cl_const line = (if paired then "F" else "P") /\
    cl_first line = c_start entry + 1 /\
    cl_partner line = 0 /\
    cl_length line = c_end entry - c_start entry /\
    fc_sequence fc' = fc_sequence fc /\
    fc_calls fc' =
      (fc_calls fc ++
       map (if paired then fun x => hc_add_bp_nonspecific x 0 else hc_add_up)
           (range (cl_first line) (cl_first line + cl_length line)))%list.
Proof.
  intros Hb Hmode paired.
  assert (Hc : _check_constraint seqlen (c_start entry) (c_end entry) = Ok tt)
    by (by apply check_constraint_Ok).
  unfold cmd_constraint_entry, api_constraint_entry, entry_mode.
  cbn [String.eqb Ascii.eqb Bool.eqb orb]. rewrite Hc. cbn [mbind result_bind].
  subst paired. destruct entry as [mode s e]. cbn [c_mode c_start c_end] in *.
  repeat (apply elem_of_cons in Hmode as [->|Hmode]); [| | | |by apply elem_of_nil in Hmode];
    cbn [String.eqb Ascii.eqb Bool.eqb orb andb];
    eexists _, _; (split; [reflexivity|]); (split; [reflexivity|]);
    cbn [cl_const cl_partner cl_length cl_first];
    (split; [reflexivity|]); (split; [reflexivity|]); (split; [reflexivity|]);
    (split; [reflexivity|]); (split; [reflexivity|]);
    cbn [_constrain_paired _constrain_unpaired truthy andb fc_add fc_calls];
    replace (s + 1 + (e - s)) with (e + 1) by lia; reflexivity.
Qed.

Lemma hard_constraint_same_region_in_both_wrappers_witness :
  let entry := {| c_mode := "u"; c_start := 2; c_end := 5 |} in
  let fc := new_fold_compound "ACGUACGU"
              {| max_bp_span := 8; window_size := 8; temperature := 37 |} in
  exists line fc',
    cmd_constraint_entry "hard" "" 8 ("ACGUACGU", []) entry = Ok ("ACGUACGU", ([] ++ [line])%list) /\
    api_constraint_entry "hard" "" (fc_md fc) 8 (Some "ACGUACGU", Some fc) entry
      = Ok (Some "ACGUACGU", Some fc') /\
    cl_const line = "P" /\
    cl_first line = 3 /\
    cl_partner line = 0 /\
    cl_length line = 3 /\
    fc_sequence fc' = "ACGUACGU" /\
    fc_calls fc' = [hc_add_up 3; hc_add_up 4; hc_add_up 5].
Proof.
  intros entry fc.
  destruct (hard_constraint_same_region_in_both_wrappers "" "ACGUACGU" (fc_md fc) 8 fc [] entry)
    as (line & fc' & H1 & H2 & H3 & H4 & H5 & H6 & H7 & H8).
  - vm_compute. repeat split; discriminate.
  - vm_compute. set_solver.
  - exists line, fc'. repeat split; try done.
    rewrite H8. injection H1 as <-. reflexivity.
Defined.

(** ** Constraint types other than hard and soft *)

(** X5. Whatever the constraint type is, if it is neither [hard] nor
    [soft] every entry is treated as a mutation, its own mode ignored: no
    constraint call reaches the fold compound of [api_rnaplfold] and no
    command line is written by [cmd_rnaplfold]. *)
Theorem other_constraint_types_only_mutate
    (sequence : string) (window span region : Z) (temp : float)
    (constype consval : string) (constraint : option (list constraint_entry)) :
  String.eqb constype "hard" || String.eqb constype "soft" = false ->
  (forall call,
     api_rnaplfold sequence window span region temp constype consval constraint = Ok call ->
     fc_calls (pw_fc call) = []) /\
  (forall proc,
     cmd_rnaplfold sequence window span region temp constype consval constraint = Ok proc ->
     proc_commands proc = []).
Proof.
  intros Htype. split.
  - intros call. unfold api_rnaplfold.
    destruct (shrink_window_span _ window span) as [[w sp] ws].
    destruct constraint as [entries|]; [|by intros [= <-]].
    destruct (for_each _ entries _) as [st|] eqn:E; [|discriminate].
    cbn [mbind result_bind]. destruct st.2 as [fc|] eqn:Efc; [|discriminate].
    intros [= <-]. cbn [pw_fc].
    eapply (for_each_invariant _ (fun st => forall fc, st.2 = Some fc -> fc_calls fc = []));
      [| |exact E|exact Efc].
    + intros [s fc0] entry st' _ _. unfold api_constraint_entry, entry_mode.
      rewrite Htype. cbn [String.eqb Ascii.eqb Bool.eqb orb andb].
      destruct (_check_constraint _ _ _); [|discriminate]. intros [= <-]. cbn [snd].
      by intros ? [= <-].
    + by intros ? [= <-].
  - intros proc. unfold cmd_rnaplfold.
    destruct constraint as [entries|].
    + destruct (for_each _ entries _) as [[s lines]|] eqn:E; [|discriminate].
      cbn [mbind result_bind].
      destruct (shrink_window_span _ window span) as [[w sp] ws]. intros [= <-].
      cbn [proc_commands].
      eapply (for_each_invariant _ (fun st => st.2 = [])) in E; [exact E| |reflexivity].
      intros [s0 l0] entry st' _ Hl. cbn [snd] in Hl. subst l0.
      unfold cmd_constraint_entry, entry_mode.
      rewrite Htype. cbn [String.eqb Ascii.eqb Bool.eqb orb andb].
      destruct (_check_constraint _ _ _); [|discriminate]. by intros [= <-].
    + cbn [mbind result_bind].
      destruct (shrink_window_span _ window span) as [[w sp] ws]. by intros [= <-].
Qed.

Lemma other_constraint_types_only_mutate_witness :
  (forall call,
     api_rnaplfold "ACGUACGU" 8 8 4 37%float "Hard" "" 
       (Some [{| c_mode := "paired"; c_start := 2; c_end := 4 |}]) = Ok call ->
     fc_calls (pw_fc call) = []) /\
  (forall proc,
     cmd_rnaplfold "ACGUACGU" 8 8 4 37%float "Hard" ""
       (Some [{| c_mode := "paired"; c_start := 2; c_end := 4 |}]) = Ok proc ->
     proc_commands proc = []).
Proof. apply other_constraint_types_only_mutate. reflexivity. Defined.

(** ** Deltas against the unconstrained fold *)

Lemma fo_get_has condition key v self :
  fo_get condition key self = Ok v -> fo_has condition self = true.
Proof.
  unfold fo_get, fo_has. destruct (fo_conditions self !! condition) as [d|]; [|discriminate].
  destruct (d !! key) as [w|] eqn:E; [|discriminate]. intros _.
  apply negb_true_iff, bool_decide_eq_false. intros Hsize.
  apply map_size_empty_inv in Hsize. subst d. by rewrite lookup_empty in E.
Qed.

Lemma fo_get_other c key (s s' : FoldOutput) :
  fo_conditions s !! c = fo_conditions s' !! c -> fo_get c key s = fo_get c key s'.
Proof. unfold fo_get. by intros ->. Qed.

Lemma fo_has_other c (s s' : FoldOutput) :
  fo_conditions s !! c = fo_conditions s' !! c -> fo_has c s = fo_has c s'.
Proof. unfold fo_has. by intros ->. Qed.

(** What [from_rnamediator_fold_compound] does once an unconstrained fold
    is on record and another condition is populated. *)
Lemma from_fold_compound_deltas math_log self condition constr gibbs bppm g0 n0 :
  valid_condition condition = true ->
  condition <> "unconstrained" ->
  fo_get "unconstrained" "gibbs" self = Ok g0 ->
  fo_get "unconstrained" "nrg" self = Ok n0 ->
  exists self5,
    is_Some (fo_conditions self5 !! condition) /\
    (forall c, c <> condition -> fo_conditions self5 !! c = fo_conditions self !! c) /\
    from_rnamediator_fold_compound math_log self condition constr gibbs bppm =
    (ddg ← py_sub g0 gibbs;
     self6 ← fo_update condition "ddg" ddg self5;
     dnrg ← py_sub n0 (VFloat (_calc_nrg math_log (_calc_bpp bppm)));
     fo_update condition "dnrg" dnrg self6).
Proof.
  intros Hvalid Hne Hg Hn. unfold from_rnamediator_fold_compound. rewrite Hvalid. cbn [negb].
  destruct (from_fold_compound_prefix condition constr gibbs bppm
              (_calc_nrg math_log (_calc_bpp bppm)) self) as (s5 & -> & Hs5 & Hk5).
  exists s5. split; [exact Hs5|]. split; [exact Hk5|].
  assert (Hu : fo_conditions s5 !! "unconstrained" = fo_conditions self !! "unconstrained")
    by (apply Hk5; congruence).
  rewrite (fo_has_other _ _ _ Hu), (fo_get_has _ _ _ _ Hg).
  destruct (String.eqb_spec condition "unconstrained") as [|_]; [done|]. cbn [negb andb].
  rewrite (fo_get_other _ _ _ _ Hu), Hg. cbn [mbind result_bind].
  destruct (py_sub g0 gibbs) as [ddg|]; [|reflexivity]. cbn [mbind result_bind].
  destruct (fo_update condition "ddg" ddg s5) as [s6|] eqn:E6; [|reflexivity].
  cbn [mbind result_bind].
  assert (Hu6 : fo_conditions s6 !! "unconstrained" = fo_conditions self !! "unconstrained").
  { unfold fo_update in E6. destruct (fo_conditions s5 !! condition); [|discriminate].
    injection E6 as <-. cbn [fo_conditions]. rewrite lookup_insert_ne by done. exact Hu. }
  by rewrite (fo_get_other _ _ _ _ Hu6), Hn.
Qed.

(** X6. Once the unconstrained fold is on record with Gibbs energy [g0]
    and opening energy [n0], populating another condition with Gibbs energy
    [g] stores [ddg = g0 - g] and [dnrg = n0 - nrg], unconstrained minus
    constrained, where [nrg] is the opening energy of that condition; the
    record of the unconstrained fold is left as it was. *)
Theorem deltas_are_unconstrained_minus_constrained
    (math_log : float -> float) (self : FoldOutput) (condition : string)
    (constr : pyval) (g : float) (bppm : list bpp_entry) (g0 n0 : float) :
  valid_condition condition = true ->
  condition <> "unconstrained" ->
  fo_get "unconstrained" "gibbs" self = Ok (VFloat g0) ->
  fo_get "unconstrained" "nrg" self = Ok (VFloat n0) ->
  exists self',
    from_rnamediator_fold_compound math_log self condition constr (VFloat g) bppm = Ok self' /\
    fo_get condition "ddg" self' = Ok (VFloat (PrimFloat.sub g0 g)) /\
    fo_get condition "dnrg" self' =
      Ok (VFloat (PrimFloat.sub n0 (_calc_nrg math_log (_calc_bpp bppm)))) /\
    fo_conditions self' !! "unconstrained" = fo_conditions self !! "unconstrained".
Proof.
  intros Hvalid Hne Hg Hn.
  destruct (from_fold_compound_deltas math_log self condition constr (VFloat g) bppm
              _ _ Hvalid Hne Hg Hn) as (s5 & Hs5 & Hk5 & ->).
  cbn [py_sub mbind result_bind].
  destruct (fo_update_Ok condition "ddg" (VFloat (PrimFloat.sub g0 g)) s5 Hs5)
    as (s6 & E6 & Hs6 & Hk6).
  destruct (fo_update_Ok condition "dnrg"
              (VFloat (PrimFloat.sub n0 (_calc_nrg math_log (_calc_bpp bppm)))) s6 Hs6)
    as (s7 & E7 & _ & Hk7).
  exists s7. rewrite E6. cbn [mbind result_bind]. split; [exact E7|]. split; [|split].
  - rewrite (fo_get_update_ne _ "ddg" _ _ _ _ E7) by discriminate.
    by apply fo_get_update_eq in E6.
  - by apply fo_get_update_eq in E7.
  - rewrite Hk7, Hk6, Hk5 by congruence. reflexivity.
Qed.

Lemma deltas_are_unconstrained_minus_constrained_witness :
  let self := {| fo_anno := None;
                 fo_conditions :=
                   {[ "unconstrained" :=
                        <["gibbs" := VFloat (-5)%float]> (<["nrg" := VFloat 0.5%float]> ∅) ]} |} in
  exists self',
    from_rnamediator_fold_compound (fun x => x) self "constraint_unpaired" (VStr "3-7")
      (VFloat (-3.5)%float) [{| bp_base := 1; bp_mate := 5; bp_prob := 0.5%float |}] = Ok self' /\
    fo_get "constraint_unpaired" "ddg" self' = Ok (VFloat (PrimFloat.sub (-5) (-3.5))) /\
    fo_get "constraint_unpaired" "dnrg" self' =
      Ok (VFloat (PrimFloat.sub 0.5
                    (_calc_nrg (fun x => x)
                       (_calc_bpp [{| bp_base := 1; bp_mate := 5; bp_prob := 0.5%float |}])))) /\
    fo_conditions self' !! "unconstrained" = fo_conditions self !! "unconstrained".
Proof.
  apply deltas_are_unconstrained_minus_constrained;
    first [discriminate | vm_compute; reflexivity].
Defined.

(** X7. A Gibbs energy that could not be computed is stored as [None].
    For the unconstrained fold this passes; every condition populated
    afterwards then fails on the subtraction with [TypeError], and so does a
    condition whose own energy is [None] when the unconstrained fold is on
    record. *)
Theorem missing_gibbs_energy_raises_TypeError
    (math_log : float -> float) (self : FoldOutput) (condition : string)
    (constr gibbs : pyval) (bppm : list bpp_entry) (g0 n0 : pyval) :
  valid_condition condition = true ->
  condition <> "unconstrained" ->
  fo_get "unconstrained" "gibbs" self = Ok g0 ->
  fo_get "unconstrained" "nrg" self = Ok n0 ->
  g0 = VNone \/ gibbs = VNone ->
  from_rnamediator_fold_compound math_log self condition constr gibbs bppm = Raise TypeError.
Proof.
  intros Hvalid Hne Hg Hn Hnone.
  destruct (from_fold_compound_deltas math_log self condition constr gibbs bppm
              _ _ Hvalid Hne Hg Hn) as (s5 & _ & _ & ->).
  destruct Hnone as [->| ->]; [reflexivity|]. by destruct g0.
Qed.

Lemma missing_gibbs_energy_raises_TypeError_witness :
  let self := {| fo_anno := None;
                 fo_conditions :=
                   {[ "unconstrained" :=
                        <["gibbs" := VNone]> (<["nrg" := VFloat 0.5%float]> ∅) ]} |} in
  from_rnamediator_fold_compound (fun x => x) self "constraint_unpaired" (VStr "3-7")
    (VFloat (-3.5)%float) [] = Raise TypeError.
Proof.
  apply (missing_gibbs_energy_raises_TypeError _ _ _ _ _ _ VNone (VFloat 0.5%float));
    first [discriminate | vm_compute; reflexivity | by left].
Defined.

Import RNAfold.

(** ** [api_rnafold] *)

Lemma range_empty a b : b <= a -> range a b = [].
Proof. intros H. unfold range. by replace (Z.to_nat (b - a)) with 0%nat by lia. Qed.

Lemma fold_output_or_new_None mode : fold_output_or_new None mode = Raise AssertionError.
Proof. reflexivity. Qed.

Lemma api_rnafold_entry_None math_log eng c fc entry :
  is_Ok (api_rnafold_entry math_log eng c (fc, None) entry) = false.
Proof.
  unfold api_rnafold_entry. destruct (constrain_entry c fc entry) as [[[fc' mode] pc]|];
    reflexivity.
Qed.

(** X8. Called without a [FoldOutput], [api_rnafold] never returns one.
    It creates the object as [FoldOutput("none", mode)], and [none] is no
    condition the constructor accepts: without constraints the call raises
    [AssertionError], with at least one constraint entry it raises at the
    first one, and with an empty list of constraints it returns [None]. *)
Theorem api_rnafold_without_FoldOutput_returns_none
    (math_log : float -> float) (eng : engine) (sequence : string) (span : Z)
    (temp : float) (c : coordinates) :
  api_rnafold math_log eng sequence span temp None None c = Raise AssertionError /\
  api_rnafold math_log eng sequence span temp (Some []) None c = Ok None /\
  (forall entry entries,
     is_Ok (api_rnafold math_log eng sequence span temp (Some (entry :: entries)) None c)
     = false) /\
  (forall constraint fo,
     api_rnafold math_log eng sequence span temp constraint None c <> Ok (Some fo)).
Proof.
  assert (Hcons : forall entry entries,
     is_Ok (api_rnafold math_log eng sequence span temp (Some (entry :: entries)) None c)
     = false).
  { intros entry entries. unfold api_rnafold. rewrite for_each_cons.
    pose proof (api_rnafold_entry_None math_log eng c
                  (new_fold_compound sequence
                     {| max_bp_span := span; window_size := -1; temperature := temp |})
                  entry) as H.
    destruct (api_rnafold_entry _ _ _ _ entry); [discriminate|].
    by rewrite for_each_Raise. }
  split; [reflexivity|]. split; [reflexivity|]. split; [exact Hcons|].
  intros [[|entry entries]|] fo; try discriminate.
  intros H. specialize (Hcons entry entries). by rewrite H in Hcons.
Qed.

(** X9. A [bothconstraint_paired] entry constrains its two regions
    [[fstart, fend)] and [[start, end)]. A [bothconstraint_unpaired] entry
    passes [fend] where the end of the second region belongs: the second
    region constrained is [[start, fend)], and when the second region lies
    behind the first ([fend <= start]) none of its positions is constrained,
    while the constraint text still names both regions. *)
Theorem bothconstraint_unpaired_takes_the_first_end
    (c : coordinates) (fc : fold_compound) (fstart fend start end_ : Z) :
  start <> 0 -> fend <> 0 -> end_ <> 0 ->
  let paired := {| fe_mode := "bothconstraint_paired"; fe_fstart := fstart;
                   fe_fend := fend; fe_second := Some (start, end_) |} in
  let unpaired := {| fe_mode := "bothconstraint_unpaired"; fe_fstart := fstart;
                     fe_fend := fend; fe_second := Some (start, end_) |} in
  (exists fc',
     constrain_entry c fc paired
       = Ok (fc', "bothconstraint_paired", printcons_both c fstart fend start end_) /\
     fc_calls fc' =
       (fc_calls fc ++ map (fun x => hc_add_bp_nonspecific x 0) (range (fstart + 1) (fend + 1))
          ++ map (fun x => hc_add_bp_nonspecific x 0) (range (start + 1) (end_ + 1)))%list) /\
  (exists fc',
     constrain_entry c fc unpaired
       = Ok (fc', "bothconstraint_unpaired", printcons_both c fstart fend start end_) /\
     fc_calls fc' =
       (fc_calls fc ++ map hc_add_up (range (fstart + 1) (fend + 1))
          ++ map hc_add_up (range (start + 1) (fend + 1)))%list /\
     (fend <= start ->
      fc_calls fc' = (fc_calls fc ++ map hc_add_up (range (fstart + 1) (fend + 1)))%list)).
Proof.
  intros Hs Hf He paired unpaired.
  assert (Ht : forall x y, x <> 0 -> y <> 0 -> truthy (Some x) && truthy (Some y) = true).
  { intros x y Hx Hy. cbn [truthy]. apply Z.eqb_neq in Hx, Hy. by rewrite Hx, Hy. }
  split.
  - eexists. split; [reflexivity|].
    subst paired. unfold _constrain_paired. cbn [fe_fstart fe_fend]. rewrite (Ht start end_) by done.
    change (default 0 (Some start)) with start. change (default 0 (Some end_)) with end_.
    cbn [fc_add fc_calls]. by rewrite <- app_assoc.
  - eexists. split; [reflexivity|].
    subst unpaired. unfold _constrain_unpaired. cbn [fe_fstart fe_fend]. rewrite (Ht start fend) by done.
    change (default 0 (Some start)) with start. change (default 0 (Some fend)) with fend.
    cbn [fc_add fc_calls]. split; [by rewrite <- app_assoc|].
    intros Hle. rewrite (range_empty (start + 1)) by lia. cbn [map].
    by rewrite app_nil_r.
Qed.

Lemma bothconstraint_unpaired_takes_the_first_end_witness :
  let c := {| co_gs := None; co_ge := None; co_tostart := None; co_toend := None |} in
  let fc := new_fold_compound "ACGUACGUAC"
              {| max_bp_span := 10; window_size := -1; temperature := 37 |} in
  (exists fc',
     constrain_entry c fc {| fe_mode := "bothconstraint_paired"; fe_fstart := 1;
                             fe_fend := 3; fe_second := Some (6, 8) |}
       = Ok (fc', "bothconstraint_paired", printcons_both c 1 3 6 8) /\
     fc_calls fc' =
       ([] ++ map (fun x => hc_add_bp_nonspecific x 0) (range (1 + 1) (3 + 1))
          ++ map (fun x => hc_add_bp_nonspecific x 0) (range (6 + 1) (8 + 1)))%list) /\
  (exists fc',
     constrain_entry c fc {| fe_mode := "bothconstraint_unpaired"; fe_fstart := 1;
                             fe_fend := 3; fe_second := Some (6, 8) |}
       = Ok (fc', "bothconstraint_unpaired", printcons_both c 1 3 6 8) /\
     fc_calls fc' =
       ([] ++ map hc_add_up (range (1 + 1) (3 + 1))
          ++ map hc_add_up (range (6 + 1) (3 + 1)))%list /\
     (3 <= 6 ->
      fc_calls fc' = ([] ++ map hc_add_up (range (1 + 1) (3 + 1)))%list)).
Proof.
  apply (bothconstraint_unpaired_takes_the_first_end
           {| co_gs := None; co_ge := None; co_tostart := None; co_toend := None |}
           (new_fold_compound "ACGUACGUAC"
              {| max_bp_span := 10; window_size := -1; temperature := 37 |}) 1 3 6 8);
    discriminate.
Defined.

Example bothconstraint_unpaired_calls :
  let c := {| co_gs := Some 100; co_ge := Some 200; co_tostart := Some 10;
              co_toend := Some 20 |} in
  let fc := new_fold_compound "ACGUACGUAC"
              {| max_bp_span := 10; window_size := -1; temperature := 37 |} in
  constrain_entry c fc {| fe_mode := "bothconstraint_unpaired"; fe_fstart := 1;
                          fe_fend := 3; fe_second := Some (6, 8) |}
  = Ok ({| fc_sequence := "ACGUACGUAC"; fc_md := fc_md fc;
           fc_calls := [hc_add_up 2; hc_add_up 3] |},
        "bothconstraint_unpaired", "10-20|110-120|2-4:7-9|111-113:116-118").
Proof. vm_compute. reflexivity. Qed.

(** ** What a constraint entry leaves for the next one *)

Ltac fo_bind H s E :=
  match type of H with
  | (?r ≫= _) = Ok _ =>
      destruct r as [s|] eqn:E; [cbn [mbind result_bind] in H|discriminate H]
  end.

Lemma stored_gibbs math_log self condition constr gibbs bppm self' :
  from_rnamediator_fold_compound math_log self condition constr gibbs bppm = Ok self' ->
  fo_get condition "gibbs" self' = Ok gibbs /\
  fo_get condition "constraint" self' = Ok constr.
Proof.
  unfold from_rnamediator_fold_compound.
  destruct (negb (valid_condition condition)); [discriminate|]. intros H.
  fo_bind H s1 E1. fo_bind H s2 E2. fo_bind H s3 E3. fo_bind H s4 E4. fo_bind H s5 E5.
  assert (Hg : fo_get condition "gibbs" s5 = Ok gibbs).
  { rewrite (fo_get_update_ne _ "gibbs" _ _ _ _ E5) by discriminate.
    rewrite (fo_get_update_ne _ "gibbs" _ _ _ _ E4) by discriminate.
    rewrite (fo_get_update_ne _ "gibbs" _ _ _ _ E3) by discriminate.
    by apply fo_get_update_eq in E2. }
  assert (Hc : fo_get condition "constraint" s5 = Ok constr).
  { rewrite (fo_get_update_ne _ "constraint" _ _ _ _ E5) by discriminate.
    rewrite (fo_get_update_ne _ "constraint" _ _ _ _ E4) by discriminate.
    rewrite (fo_get_update_ne _ "constraint" _ _ _ _ E3) by discriminate.
    rewrite (fo_get_update_ne _ "constraint" _ _ _ _ E2) by discriminate.
    by apply fo_get_update_eq in E1. }
  destruct (fo_has "unconstrained" _ && _).
  - fo_bind H g Eg. fo_bind H ddg Ed. fo_bind H s6 E6. fo_bind H n En. fo_bind H dnrg Edn.
    rewrite (fo_get_update_ne _ "gibbs" _ _ _ _ H) by discriminate.
    rewrite (fo_get_update_ne _ "gibbs" _ _ _ _ E6) by discriminate.
    rewrite (fo_get_update_ne _ "constraint" _ _ _ _ H) by discriminate.
    rewrite (fo_get_update_ne _ "constraint" _ _ _ _ E6) by discriminate. by split.
  - fo_bind H s6 E6.
    rewrite (fo_get_update_ne _ "gibbs" _ _ _ _ H) by discriminate.
    rewrite (fo_get_update_ne _ "gibbs" _ _ _ _ E6) by discriminate.
    rewrite (fo_get_update_ne _ "constraint" _ _ _ _ H) by discriminate.
    rewrite (fo_get_update_ne _ "constraint" _ _ _ _ E6) by discriminate. by split.
Qed.

Lemma constrain_entry_keeps c fc entry fc' mode printcons :
  constrain_entry c fc entry = Ok (fc', mode, printcons) ->
  fc_sequence fc' = fc_sequence fc /\ fc_md fc' = fc_md fc /\
  fc_calls fc `prefix_of` fc_calls fc' /\
  valid_condition mode = true /\
  (fe_mode entry ∈ ["paired"; "p"] -> mode = "constraint_paired") /\
  (fe_mode entry ∈ ["unpaired"; "u"] -> mode = "constraint_unpaired").
Proof.
  unfold constrain_entry.
  assert (Hp : forall a b x y,
            fc_sequence (_constrain_paired fc a b x y) = fc_sequence fc /\
            fc_md (_constrain_paired fc a b x y) = fc_md fc /\
            fc_calls fc `prefix_of` fc_calls (_constrain_paired fc a b x y)).
  { intros a b x y. unfold _constrain_paired. destruct (truthy x && truthy y);
      cbn [fc_add fc_sequence fc_md fc_calls]; repeat split.
    - rewrite <- app_assoc. by apply prefix_app_r.
    - by apply prefix_app_r. }
  assert (Hu : forall a b x y,
            fc_sequence (_constrain_unpaired fc a b x y) = fc_sequence fc /\
            fc_md (_constrain_unpaired fc a b x y) = fc_md fc /\
            fc_calls fc `prefix_of` fc_calls (_constrain_unpaired fc a b x y)).
  { intros a b x y. unfold _constrain_unpaired. destruct (truthy x && truthy y);
      cbn [fc_add fc_sequence fc_md fc_calls]; repeat split.
    - rewrite <- app_assoc. by apply prefix_app_r.
    - by apply prefix_app_r. }
  assert (Hin2 : forall (m a b : string), m ∈ [a; b] ->
            String.eqb m a || String.eqb m b = true).
  { intros m a b Hm. apply elem_of_cons in Hm as [->|Hm].
    - by rewrite String.eqb_refl.
    - apply elem_of_cons in Hm as [->|Hm]; [|by apply elem_of_nil in Hm].
      rewrite String.eqb_refl. apply orb_true_r. }
  destruct (_ || _ || String.eqb _ "constraint_paired") eqn:E1.
  { intros [= <- <- <-]. destruct (Hp (fe_fstart entry) (fe_fend entry) None None)
      as (? & ? & ?). repeat split; try done.
    intros Hm. apply Hin2 in Hm.
    apply orb_true_iff in Hm as [Hm|Hm]; apply String.eqb_eq in Hm; rewrite Hm in E1;
      discriminate. }
  assert (Hnp : fe_mode entry ∈ ["paired"; "p"] -> False).
  { intros Hm. apply Hin2 in Hm. rewrite Hm in E1. discriminate. }
  assert (Habs : forall (m a b : string), fe_mode entry = m -> m <> a -> m <> b ->
            fe_mode entry ∈ [a; b] -> False).
  { intros m a b -> Ha Hb Hm.
    apply elem_of_cons in Hm as [->|Hm]; [done|].
    apply elem_of_cons in Hm as [->|Hm]; [done|]. by apply elem_of_nil in Hm. }
  destruct (String.eqb_spec (fe_mode entry) "secondconstraint_paired") as [E2|_].
  { destruct (fe_second entry) as [[s e]|]; [|discriminate]. intros [= <- <- <-].
    destruct (Hp s e None None) as (? & ? & ?). repeat split; try done; try (by rewrite E2);
      try (intros Hm; by destruct Hnp); intros Hm; by destruct (Habs _ "unpaired" "u" E2). }
  destruct (String.eqb_spec (fe_mode entry) "bothconstraint_paired") as [E3|_].
  { destruct (fe_second entry) as [[s e]|]; [|discriminate]. intros [= <- <- <-].
    destruct (Hp (fe_fstart entry) (fe_fend entry) (Some s) (Some e)) as (? & ? & ?).
    repeat split; try done; try (by rewrite E3);
      try (intros Hm; by destruct Hnp); intros Hm; by destruct (Habs _ "unpaired" "u" E3). }
  destruct (_ || _ || String.eqb _ "constraint_unpaired") eqn:E4.
  { intros [= <- <- <-]. destruct (Hu (fe_fstart entry) (fe_fend entry) None None)
      as (? & ? & ?). repeat split; try done; intros Hm; by destruct Hnp. }
  assert (Hnu : fe_mode entry ∈ ["unpaired"; "u"] -> False).
  { intros Hm. apply Hin2 in Hm. rewrite Hm in E4. discriminate. }
  destruct (String.eqb_spec (fe_mode entry) "secondconstraint_unpaired") as [E5|_].
  { destruct (fe_second entry) as [[s e]|]; [|discriminate]. intros [= <- <- <-].
    destruct (Hu s e None None) as (? & ? & ?). repeat split; try done; try (by rewrite E5);
      try (intros Hm; by destruct Hnp); intros Hm; by destruct Hnu. }
  destruct (String.eqb_spec (fe_mode entry) "bothconstraint_unpaired") as [E6|_].
  { destruct (fe_second entry) as [[s e]|]; [|discriminate]. intros [= <- <- <-].
    destruct (Hu (fe_fstart entry) (fe_fend entry) (Some s) (Some (fe_fend entry)))
      as (? & ? & ?).
    repeat split; try done; try (by rewrite E6);
      try (intros Hm; by destruct Hnp); intros Hm; by destruct Hnu. }
  discriminate.
Qed.

(** X10. [api_rnafold] folds one fold compound for all entries of its
    constraint list: the constraints of an entry stay on it when the next
    entry is folded. After every entry the fold compound has the sequence it
    started with and the calls made so far as a prefix of its calls, and the
    Gibbs energy stored under the entry's condition is the engine's for that
    accumulated fold compound. An entry given as [paired] or [p] is filed
    under [constraint_paired], one given as [unpaired] or [u] under
    [constraint_unpaired]. *)
Theorem api_rnafold_entry_accumulates
    (math_log : float -> float) (eng : engine) (c : coordinates)
    (fc : fold_compound) (FoldOut : option FoldOutput) (entry : fold_entry)
    (fc' : fold_compound) (FoldOut' : option FoldOutput) :
  api_rnafold_entry math_log eng c (fc, FoldOut) entry = Ok (fc', FoldOut') ->
  fc_sequence fc' = fc_sequence fc /\
  fc_calls fc `prefix_of` fc_calls fc' /\
  exists fo mode,
    FoldOut' = Some fo /\
    valid_condition mode = true /\
    (fe_mode entry ∈ ["paired"; "p"] -> mode = "constraint_paired") /\
    (fe_mode entry ∈ ["unpaired"; "u"] -> mode = "constraint_unpaired") /\
    fo_get mode "gibbs" fo = Ok (calc_gibbs eng fc').
Proof.
  unfold api_rnafold_entry.
  destruct (constrain_entry c fc entry) as [[[fc1 mode] pc]|] eqn:E; [|discriminate].
  cbn [mbind result_bind].
  destruct (fold_output_or_new FoldOut mode) as [fo0|]; [|discriminate].
  cbn [mbind result_bind].
  destruct (from_rnamediator_fold_compound _ _ _ _ _ _) as [fo|] eqn:Ef; [|discriminate].
  cbn [mbind result_bind]. intros [= <- <-].
  apply constrain_entry_keeps in E as (Hseq & _ & Hpre & Hvalid & Hp & Hu).
  split; [exact Hseq|]. split; [exact Hpre|].
  exists fo, mode. repeat split; try done. by apply stored_gibbs in Ef as [? _].
Qed.

Lemma api_rnafold_entry_accumulates_witness :
  let eng := {| calc_gibbs := fun fc => VInt (Z.of_nat (length (fc_calls fc)));
                get_bppm := fun _ => [] |} in
  let c := {| co_gs := None; co_ge := None; co_tostart := None; co_toend := None |} in
  let fc := fc_add (new_fold_compound "ACGUACGUAC"
                      {| max_bp_span := 10; window_size := -1; temperature := 37 |})
                   [hc_add_up 9] in
  exists fc' fo,
    api_rnafold_entry (fun x => x) eng c (fc, Some fold_output_constraint_paired)
      {| fe_mode := "p"; fe_fstart := 1; fe_fend := 3; fe_second := None |}
    = Ok (fc', Some fo) /\
    fc_calls fc' = [hc_add_up 9; hc_add_bp_nonspecific 2 0; hc_add_bp_nonspecific 3 0] /\
    fo_get "constraint_paired" "gibbs" fo = Ok (VInt 3).
Proof.
  intros eng c fc.
  destruct (api_rnafold_entry (fun x => x) eng c (fc, Some fold_output_constraint_paired)
              {| fe_mode := "p"; fe_fstart := 1; fe_fend := 3; fe_second := None |})
    as [[fc' [fo|]]|] eqn:E; try (vm_compute in E; discriminate).
  exists fc', fo. split; [reflexivity|].
  destruct (api_rnafold_entry_accumulates _ _ _ _ _ _ _ _ E)
    as (_ & _ & fo1 & mode & [= <-] & _ & Hp & _ & Hg).
  rewrite (Hp ltac:(right; left)) in Hg.
  assert (Hc : fc_calls fc' = [hc_add_up 9; hc_add_bp_nonspecific 2 0;
                               hc_add_bp_nonspecific 3 0]).
  { vm_compute in E. by injection E as <- _. }
  split; [exact Hc|]. rewrite Hg. subst eng. cbn [calc_gibbs]. by rewrite Hc.
Defined.

(** ** [from_RNAfold_file] *)

(** X11. [from_RNAfold_file] ends with [cls(file_data, condition, gibbs)]:
    the list of lines takes the place of the condition, which the
    constructor compares with its nine condition names. Whatever the file
    holds, the call raises and no [FoldOutput] is made; [cmd_rnafold], which
    ends with this call, returns nothing either. *)
Theorem from_RNAfold_file_always_raises
    (isfile : bool) (file_data : list string) (condition : string)
    (run : rnafold_process -> rnafold_run) (sequence : string) (span : Z) (temp : float)
    (constraint : option (list constraint_entry)) :
  is_Ok (from_RNAfold_file isfile file_data condition) = false /\
  is_Ok (cmd_rnafold run sequence span temp constraint) = false /\
  (forall anno gibbs, FoldOutput_new (ALines file_data) anno gibbs = Raise AssertionError) /\
  (forall anno gibbs, FoldOutput_new (AStr condition) anno gibbs
                      = FoldOutput_init condition anno gibbs).
Proof.
  assert (Hfile : forall b d cnd, is_Ok (from_RNAfold_file b d cnd) = false).
  { intros b d cnd. unfold from_RNAfold_file.
    destruct (negb (valid_condition cnd)); [reflexivity|].
    destruct (negb b); [reflexivity|].
    destruct (getitem d 2) as [line|]; [|reflexivity]. cbn [mbind result_bind].
    destruct (split " " line) as [fields|]; [|reflexivity]. cbn [mbind result_bind].
    destruct (getitem fields 1) as [g|]; reflexivity. }
  split; [apply Hfile|]. split; [|split].
  - unfold cmd_rnafold.
    destruct (match constraint with Some _ => _ | None => _ end) as [lines|]; [|reflexivity].
    cbn [mbind result_bind]. destruct (negb _); [reflexivity|]. apply Hfile.
  - reflexivity.
  - intros anno gibbs. unfold FoldOutput_new, FoldOutput_init, valid_condition.
    cbn [existsb arg_eq].
    destruct (bool_decide _) eqn:E.
    + apply bool_decide_eq_true in E.
      repeat (apply elem_of_cons in E as [->|E]); try reflexivity. by apply elem_of_nil in E.
    + apply bool_decide_eq_false in E. cbn [negb].
      repeat match goal with
             | |- context [String.eqb condition ?s] =>
                 destruct (String.eqb_spec condition s) as [->|?];
                   [exfalso; apply E; repeat first [by left | right]|]
             end.
      reflexivity.
Qed.

Import Localize.

(** ** Text of a profile: labels, headers, trimming *)

Section ProfileViews.
Context {FT : FloatText}.

Lemma from_numpy_sanitized row0 rest :
  regular_array (row0 :: rest) -> rectangular (row0 :: rest) -> row0 <> [] ->
  from_numpy (row0 :: rest) =
  Ok {| text := sanitized_text (row0 :: rest); _numpy_array := Some (row0 :: rest) |}.
Proof.
  intros Hreg Hrect Hrow0. rewrite from_numpy_rows by done. by rewrite sanitize_array.
Qed.

(** Rows that [np.array] takes have one length. *)
Lemma np_array_takes array : np_array array = Ok array -> rectangular array.
Proof. intros H. by apply np_array_Ok in H as [_ ?]. Qed.

Lemma np_array_ragged array :
  ~ rectangular array -> np_array array = Raise (ValueError ShapeMismatch).
Proof.
  intros Hn. destruct (np_array array) as [a|e] eqn:E.
  - by apply np_array_Ok in E as [_ ?].
  - unfold np_array in E. destruct array as [|r rest]; [discriminate|].
    destruct (forallb _ _); [discriminate|]. by injection E as <-.
Qed.

Lemma replace_NA_cell x :
  regular x -> replace "NA" "nan" (cell_text x) = float_str (round7 x).
Proof.
  intros Hx. unfold cell_text.
  destruct (raw_text_cases x Hx) as [[-> ->]|(-> & _ & Hnum)]; [reflexivity|].
  apply replace_free. by apply numeric_char_free.
Qed.

Lemma replace_NA_row x row :
  Forall regular row -> replace "NA" "nan" (row_text x row) = raw_row x row.
Proof.
  intros Hrow. unfold raw_row, row_text.
  change TAB with (String tab ""). rewrite replace_join; [|done|].
  2:{ simpl. rewrite !not_elem_of_cons. repeat split; try done. apply not_elem_of_nil. }
  f_equal. cbn [map]. f_equal.
  - apply replace_free. apply str_int_free. vm_compute. lia.
  - rewrite !map_map. apply map_ext_Forall. eapply Forall_impl; [exact Hrow|].
    intros c Hc. by apply replace_NA_cell.
Qed.

End ProfileViews.

(** X12. The label of missing values is a parameter of [get_text]: with
    the label [nan] the text of an object made by [from_numpy] is exactly
    the text [__array_to_string] made of the array, line numbers and
    rounded values, before [__sanitize] put the header in front and wrote
    [NA] for [nan]. *)
Theorem get_text_with_label_nan_is_the_array_text {FT : FloatText}
    (array : ndarray) (P : PLFoldOutput) :
  regular_array array ->
  from_numpy array = Ok P ->
  get_text P "nan" true = __array_to_string array /\
  get_text P "NA" false = Ok (text P) /\
  text P = sanitized_text array.
Proof.
  intros Hreg Hfrom. pose proof (from_numpy_rectangular _ _ Hfrom) as Hrect.
  destruct (from_numpy_Ok array P Hreg Hfrom) as [(row0 & rest & Harr & Hrow0) ->].
  cbn [text]. split; [|split; [|reflexivity]].
  - unfold get_text. cbn [text]. rewrite sanitized_text_lines by done.
    cbn [mbind result_bind drop]. rewrite array_to_string_rows by done. f_equal.
    change NL with (String nl ""). rewrite replace_join; [|done|].
    2:{ simpl. rewrite !not_elem_of_cons. repeat split; try done. apply not_elem_of_nil. }
    f_equal. rewrite drop_0, fmap_imap. apply imap_ext. intros i row Hrow. cbn.
    apply replace_NA_row. eapply regular_array_row; [exact Hreg|].
    by eapply list_elem_of_lookup_2.
  - unfold get_text. cbn [text mbind result_bind]. by rewrite replace_same.
Qed.

Lemma drop_imap {A B} (f : nat -> A -> B) (l : list A) : forall s,
  drop s (imap f l) = imap (fun i => f (s + i)%nat) (drop s l).
Proof.
  revert f. induction l as [|x l IH]; intros f [|s]; try reflexivity.
  rewrite imap_cons. cbn [drop]. rewrite IH. apply imap_ext. intros i y _.
  cbn. f_equal.
Qed.

Lemma take_imap {A B} (f : nat -> A -> B) (l : list A) : forall k,
  take k (imap f l) = imap f (take k l).
Proof.
  revert f. induction l as [|x l IH]; intros f [|k]; try reflexivity.
  rewrite imap_cons. cbn [take]. rewrite imap_cons. by rewrite IH.
Qed.

Lemma mapM_id_imap {A C} (l : list A) : forall (f : nat -> A -> result C) (g : nat -> A -> C),
  (forall i x, l !! i = Some x -> f i x = Ok (g i x)) ->
  mapM id (imap f l) = Ok (imap g l).
Proof.
  induction l as [|x l IH]; intros f g H; [reflexivity|].
  rewrite !imap_cons. cbn [mapM id]. rewrite (H 0%nat x) by reflexivity.
  cbn [mbind result_bind]. rewrite (IH (f ∘ S) (g ∘ S)); [reflexivity|].
  intros i y Hy. apply (H (S i)). exact Hy.
Qed.

Lemma imap_imap {A B C} (f : nat -> B -> C) (g : nat -> A -> B) (l : list A) :
  imap f (imap g l) = imap (fun i x => f i (g i x)) l.
Proof.
  revert f g. induction l as [|x l IH]; intros f g; [reflexivity|].
  rewrite !imap_cons. f_equal. apply IH.
Qed.

Lemma elem_of_take_drop {A} (x : A) k s (l : list A) : x ∈ take k (drop s l) -> x ∈ l.
Proof.
  intros H. apply elem_of_take in H as (i & Hi & _). rewrite lookup_drop in Hi.
  by eapply list_elem_of_lookup_2.
Qed.

Lemma slice_nonneg {A} (a : list A) i j :
  0 <= i -> 0 <= j ->
  NP.slice a i j = take (Z.to_nat (Z.min (Z.of_nat (length a)) j)
                         - Z.to_nat (Z.min (Z.of_nat (length a)) i))
                        (drop (Z.to_nat (Z.min (Z.of_nat (length a)) i)) a).
Proof.
  intros Hi Hj. unfold NP.slice.
  destruct (Z.ltb_spec i 0); [lia|]. destruct (Z.ltb_spec j 0); [lia|].
  f_equal. lia.
Qed.

(** Two header lines in front shift a slice by two. *)
Lemma slice_behind_header {A} (h1 h2 : A) rows s e :
  0 <= s -> -2 <= e ->
  NP.slice (h1 :: h2 :: rows) (s + 2) (e + 2) =
  take (Z.to_nat (Z.min (Z.of_nat (length rows)) e)
        - Z.to_nat (Z.min (Z.of_nat (length rows)) s))
       (drop (Z.to_nat (Z.min (Z.of_nat (length rows)) s)) rows).
Proof.
  intros Hs He. rewrite slice_nonneg by lia. cbn [length].
  replace (Z.to_nat (Z.min (Z.of_nat (S (S (length rows)))) (s + 2)))
    with (S (S (Z.to_nat (Z.min (Z.of_nat (length rows)) s)))) by lia.
  cbn [drop]. f_equal. lia.
Qed.

Section Trimming.
Context {FT : FloatText}.

Lemma renumber_row_text x y row :
  Forall regular row -> renumber x (row_text y row) = Ok (row_text x row).
Proof.
  intros Hrow. unfold renumber. rewrite split_row_text by done. reflexivity.
Qed.

Lemma localize_lines array cache start end_ :
  regular_array array ->
  0 <= start -> -2 <= end_ ->
  let part := take (Z.to_nat (Z.min (Z.of_nat (length array)) end_)
                    - Z.to_nat (Z.min (Z.of_nat (length array)) start))
                   (drop (Z.to_nat (Z.min (Z.of_nat (length array)) start)) array) in
  localize {| text := sanitized_text array; _numpy_array := cache |} start end_ =
  (text ← __sanitize (join NL (imap row_text part));
   Ok {| text := text; _numpy_array := (fun a => NP.slice a start end_) <$> cache |}).
Proof.
  intros Hreg Hs He part. unfold localize. cbn [text _numpy_array].
  rewrite sanitized_text_lines by done. cbn [mbind result_bind].
  rewrite slice_behind_header by done. rewrite length_imap.
  rewrite drop_imap, take_imap. fold part.
  rewrite imap_imap.
  rewrite (mapM_id_imap part _ row_text); [reflexivity|].
  intros i row Hrow. apply renumber_row_text.
  eapply regular_array_row; [exact Hreg|].
  apply list_elem_of_lookup_2 in Hrow. subst part.
  by eapply elem_of_take_drop.
Qed.

End Trimming.

(** X13. [localize(start, end)] on an object made by [from_numpy] gives
    what [from_numpy] makes of the rows [start..end-1]: the array is
    sliced, the lines of these rows are renumbered from 1 and the header is
    written anew. This holds for [0 <= start < end] with [start] inside the
    array; an [end] beyond the last row is cut off. *)
Theorem localize_is_from_numpy_of_the_slice {FT : FloatText}
    (array : ndarray) (P : PLFoldOutput) (start end_ : Z) :
  regular_array array ->
  (forall row, row ∈ array -> row <> []) ->
  from_numpy array = Ok P ->
  0 <= start < end_ ->
  start < Z.of_nat (length array) ->
  let part := NP.slice array start end_ in
  localize P start end_ = from_numpy part /\
  from_numpy part = Ok {| text := sanitized_text part; _numpy_array := Some part |} /\
  Z.of_nat (length part) = Z.min (Z.of_nat (length array)) end_ - start.
Proof.
  intros Hreg Hrows Hfrom Hse Hlen part.
  pose proof (from_numpy_rectangular _ _ Hfrom) as Hrect.
  destruct (from_numpy_Ok array P Hreg Hfrom) as [_ ->].
  rewrite localize_lines by (done || lia). cbn zeta. cbn [fmap option_fmap option_map].
  assert (Hpart : part = take (Z.to_nat (Z.min (Z.of_nat (length array)) end_)
                               - Z.to_nat (Z.min (Z.of_nat (length array)) start))
                              (drop (Z.to_nat (Z.min (Z.of_nat (length array)) start)) array)).
  { subst part. apply slice_nonneg; lia. }
  rewrite <- Hpart.
  assert (Hin : forall row, row ∈ part -> row ∈ array).
  { intros row Hrow. rewrite Hpart in Hrow. by eapply elem_of_take_drop. }
  assert (Hlp : Z.of_nat (length part) = Z.min (Z.of_nat (length array)) end_ - start).
  { rewrite Hpart, length_take, length_drop. lia. }
  destruct part as [|row0 rest] eqn:Epart; [cbn [length] in Hlp; lia|].
  assert (Hreg' : regular_array (row0 :: rest)).
  { apply Forall_forall. intros row Hrow. eapply regular_array_row; [exact Hreg|]. by apply Hin. }
  assert (Hrow0 : row0 <> []) by (apply Hrows, Hin; by left).
  assert (Hrect' : rectangular (row0 :: rest)).
  { intros r r' Hr Hr'. apply Hrect; by apply Hin. }
  split; [|split; [|exact Hlp]].
  - change (NP.slice array start end_) with part. rewrite Epart.
    rewrite from_numpy_sanitized by done. by rewrite sanitize_rows.
  - by apply from_numpy_sanitized.
Qed.

(** X14. The slice of the text is taken at [start + 2 : end + 2], two
    header lines further on. For an empty range, and for the ends [-1] and
    [-2] that count from the back in the array, no line is left and
    [__sanitize] rejects the empty text with [ValueError]. *)
Theorem localize_of_an_empty_range_raises {FT : FloatText}
    (array : ndarray) (P : PLFoldOutput) (start end_ : Z) :
  regular_array array ->
  from_numpy array = Ok P ->
  0 <= start ->
  -2 <= end_ <= start \/ (-2 <= end_ /\ Z.of_nat (length array) <= start) ->
  localize P start end_ = Raise (ValueError NotAPlfoldString).
Proof.
  intros Hreg Hfrom Hs Hempty.
  destruct (from_numpy_Ok array P Hreg Hfrom) as [_ ->].
  rewrite localize_lines by (done || lia). cbn zeta.
  replace (Z.to_nat (Z.min (Z.of_nat (length array)) end_)
           - Z.to_nat (Z.min (Z.of_nat (length array)) start))%nat with 0%nat by lia.
  reflexivity.
Qed.

(** X15. [from_numpy] accepts an array exactly when its rows have one
    length and its first row has a cell. Rows of different lengths are
    refused by [np.array] with [ValueError]. For rows of one length the
    first line of the array text starts with [1] and a tab, which is what
    [__sanitize] looks for; an array without rows gives the empty text and
    rows without cells the line [1], and both are rejected with
    [ValueError] ("text seems not to be a valid plfold string"). *)
Theorem from_numpy_needs_a_cell_in_the_first_row {FT : FloatText} (array : ndarray) :
  regular_array array ->
  (rectangular array ->
   match array with
   | (_ :: _) :: _ =>
       from_numpy array = Ok {| text := sanitized_text array; _numpy_array := Some array |}
   | _ => from_numpy array = Raise (ValueError NotAPlfoldString)
   end) /\
  (~ rectangular array -> from_numpy array = Raise (ValueError ShapeMismatch)).
Proof.
  intros Hreg. split.
  - intros Hrect. destruct array as [|[|x cells] rest].
    + reflexivity.
    + rewrite from_numpy_rows by done. rewrite imap_cons.
      unfold __sanitize. change NL with (String nl "").
      rewrite (split_join nl).
      * reflexivity.
      * rewrite <- (imap_cons raw_row). apply Forall_imap. intros i row Hrow.
        apply raw_row_free_nl. by eapply regular_array_row.
    + by apply from_numpy_sanitized.
  - intros Hn. unfold from_numpy, __array_to_string. by rewrite np_array_ragged.
Qed.

Lemma from_numpy_needs_a_cell_in_the_first_row_witness :
  from_numpy (FT := decimal8) [[DVal 5; DNaN]; [DVal 7; DVal 8]]
  = Ok {| text := sanitized_text [[DVal 5; DNaN]; [DVal 7; DVal 8]];
          _numpy_array := Some [[DVal 5; DNaN]; [DVal 7; DVal 8]] |} /\
  from_numpy (FT := decimal8) [[]; []] = Raise (ValueError NotAPlfoldString) /\
  from_numpy (FT := decimal8) [[DVal 5]; []] = Raise (ValueError ShapeMismatch).
Proof.
  assert (Hreg : forall a : list (list dcell), regular_array (FT := decimal8) a).
  { intros a. apply Forall_forall. intros row _. apply Forall_forall. by intros c _. }
  split; [|split].
  - apply (from_numpy_needs_a_cell_in_the_first_row (FT := decimal8)
             [[DVal 5; DNaN]; [DVal 7; DVal 8]] (Hreg _)).
    by apply (np_array_takes (FT := decimal8)).
  - apply (from_numpy_needs_a_cell_in_the_first_row (FT := decimal8) [[]; []] (Hreg _)).
    by apply (np_array_takes (FT := decimal8)).
  - apply (from_numpy_needs_a_cell_in_the_first_row (FT := decimal8) [[DVal 5]; []] (Hreg _)).
    intros Hrect. specialize (Hrect [DVal 5] [] ltac:(by left) ltac:(right; by left)).
    discriminate Hrect.
Defined.

Lemma get_text_with_label_nan_is_the_array_text_witness :
  let array := [[DVal 12345678; DNaN]; [DVal 5; DVal 99999995]] in
  let P := {| text := sanitized_text array; _numpy_array := Some array |} in
  get_text P "nan" true = __array_to_string array /\
  get_text P "NA" false = Ok (text P) /\
  text P = sanitized_text array.
Proof.
  apply (get_text_with_label_nan_is_the_array_text (FT := decimal8)).
  - repeat (apply Forall_cons_2 || apply Forall_nil_2); exact I.
  - apply (from_numpy_sanitized (FT := decimal8));
      [repeat (apply Forall_cons_2 || apply Forall_nil_2); exact I
      |by apply (np_array_takes (FT := decimal8))|discriminate].
Defined.

Lemma localize_is_from_numpy_of_the_slice_witness :
  let array := [[DVal 1; DVal 2]; [DVal 3; DNaN]; [DVal 5; DVal 6]] in
  let P := {| text := sanitized_text array; _numpy_array := Some array |} in
  let part := NP.slice array 1 3 in
  localize P 1 3 = from_numpy part /\
  from_numpy part = Ok {| text := sanitized_text part; _numpy_array := Some part |} /\
  Z.of_nat (length part) = Z.min (Z.of_nat (length array)) 3 - 1.
Proof.
  apply (localize_is_from_numpy_of_the_slice (FT := decimal8)).
  - repeat (apply Forall_cons_2 || apply Forall_nil_2); exact I.
  - intros row Hrow.
    repeat (apply elem_of_cons in Hrow as [->|Hrow]; [discriminate|]).
    by apply elem_of_nil in Hrow.
  - apply (from_numpy_sanitized (FT := decimal8));
      [repeat (apply Forall_cons_2 || apply Forall_nil_2); exact I
      |by apply (np_array_takes (FT := decimal8))|discriminate].
  - lia.
  - cbn [length]. lia.
Defined.

Example localize_rows_1_to_3 :
  let array := [[DVal 1; DVal 2]; [DVal 3; DNaN]; [DVal 5; DVal 6]] in
  (P ← from_numpy (FT := decimal8) array; P' ← localize P 1 3; get_text P' "NA" true) =
  Ok ("1" ++ TAB ++ "0e-08" ++ TAB ++ "NA" ++ NL ++
      "2" ++ TAB ++ "0e-08" ++ TAB ++ "10e-08").
Proof. vm_compute. reflexivity. Qed.

Lemma localize_of_an_empty_range_raises_witness :
  let array := [[DVal 1; DVal 2]; [DVal 3; DNaN]; [DVal 5; DVal 6]] in
  let P := {| text := sanitized_text array; _numpy_array := Some array |} in
  localize P 1 (-1) = Raise (ValueError NotAPlfoldString) /\
  NP.slice array 1 (-1) = [[DVal 3; DNaN]].
Proof.
  split; [|reflexivity].
  apply (localize_of_an_empty_range_raises (FT := decimal8)
           [[DVal 1; DVal 2]; [DVal 3; DNaN]; [DVal 5; DVal 6]]).
  - repeat (apply Forall_cons_2 || apply Forall_nil_2); exact I.
  - apply (from_numpy_sanitized (FT := decimal8));
      [repeat (apply Forall_cons_2 || apply Forall_nil_2); exact I
      |by apply (np_array_takes (FT := decimal8))|discriminate].
  - lia.
  - left. lia.
Defined.

Import ScanOrder.

(** ** Records in the order of the scan *)

Lemma ordered_nil {A} (R : A -> A -> Prop) : ordered R [].
Proof. intros i j x y _ Hx. rewrite lookup_nil in Hx. discriminate. Qed.

Lemma ordered_snoc {A} (R : A -> A -> Prop) l y :
  ordered R l -> Forall (fun x => R x y) l -> ordered R (l ++ [y]).
Proof.
  intros Hl Hy i j x z Hij Hx Hz.
  assert (Hj : (j < length (l ++ [y]))%nat) by (apply lookup_lt_is_Some; by eexists).
  rewrite length_app in Hj. cbn [length] in Hj.
  rewrite lookup_app_l in Hx by lia.
  destruct (decide (j < length l)%nat) as [Hlt|Hge].
  - rewrite lookup_app_l in Hz by lia. exact (Hl i j x z Hij Hx Hz).
  - rewrite lookup_app_r in Hz by lia.
    replace (j - length l)%nat with 0%nat in Hz by lia. injection Hz as <-.
    eapply Forall_forall in Hy; [exact Hy|]. by eapply list_elem_of_lookup_2.
Qed.

Lemma placed_mono s n m r : n <= m -> placed s n r -> placed s m r.
Proof. intros Hnm (pos & Hpos & H). exists pos. split; [lia|exact H]. Qed.

Lemma bed_line_placed s pos v r :
  0 <= pos -> bed_line s pos v = Ok r -> placed s (pos + 1) r.
Proof.
  intros Hpos. unfold bed_line.
  destruct (getitem (sc_noc s) pos) as [n|]; [|discriminate]. cbn [mbind result_bind].
  destruct (NP.int_of_float n) as [raw|]; [|discriminate]. intros [= <-].
  exists pos. split; [lia|]. by repeat split.
Qed.

Lemma placed_before s pos r r' :
  placed s pos r -> bed_gpos r' = genomic_pos s pos -> by_position s r r'.
Proof.
  intros (p & Hp & Hg & _) Hg'. unfold by_position. rewrite Hg, Hg'. unfold genomic_pos.
  destruct (negb _); lia.
Qed.

Lemma judge_value_placed s c pos out out' :
  0 <= pos ->
  Forall (placed s pos) out /\ ordered (by_position s) out ->
  judge_value s c pos out = Ok out' ->
  Forall (placed s (pos + 1)) out' /\ ordered (by_position s) out'.
Proof.
  intros Hpos [Hall Hord]. unfold judge_value.
  assert (Hall' : Forall (placed s (pos + 1)) out).
  { eapply Forall_impl; [exact Hall|]. intros r. apply placed_mono. lia. }
  destruct (getitem c pos) as [v|]; [|discriminate]. cbn [mbind result_bind].
  destruct (_ && _); [|by intros [= <-]].
  destruct (bed_line s pos v) as [r|] eqn:Er; [|discriminate]. intros [= <-].
  pose proof (bed_line_placed _ _ _ _ Hpos Er) as Hr. split.
  - apply Forall_app. split; [exact Hall'|by apply Forall_singleton].
  - apply ordered_snoc; [exact Hord|].
    eapply Forall_impl; [exact Hall|]. intros r0 Hr0.
    eapply placed_before; [exact Hr0|].
    unfold bed_line in Er.
    destruct (getitem (sc_noc s) pos) as [n|]; [|discriminate]. cbn [mbind result_bind] in Er.
    destruct (NP.int_of_float n) as [raw|]; [|discriminate]. by injection Er as <-.
Qed.

Lemma judge_pos_placed s uc pc out out' pos :
  0 <= pos ->
  (Forall (placed s pos) out.1 /\ ordered (by_position s) out.1) /\
  (Forall (placed s pos) out.2 /\ ordered (by_position s) out.2) ->
  judge_pos s uc pc out pos = Ok out' ->
  (Forall (placed s (pos + 1)) out'.1 /\ ordered (by_position s) out'.1) /\
  (Forall (placed s (pos + 1)) out'.2 /\ ordered (by_position s) out'.2).
Proof.
  intros Hpos [Hu Hp]. unfold judge_pos. destruct (negb _).
  - destruct (judge_value s uc pos out.1) as [u|] eqn:Eu; [|discriminate].
    cbn [mbind result_bind].
    destruct (judge_value s pc pos out.2) as [p|] eqn:Ep; [|discriminate].
    intros [= <-]. split.
    + eapply judge_value_placed; [exact Hpos|exact Hu|exact Eu].
    + eapply judge_value_placed; [exact Hpos|exact Hp|exact Ep].
  - intros [= <-]. destruct Hu as [Hu1 Hu2], Hp as [Hp1 Hp2]. repeat split; try done.
    + eapply Forall_impl; [exact Hu1|]. intros r. apply placed_mono. lia.
    + eapply Forall_impl; [exact Hp1|]. intros r. apply placed_mono. lia.
Qed.

Lemma judge_loop_placed s uc pc (n : nat) : forall out,
  for_each (judge_pos s uc pc) (range 0 (0 + Z.of_nat n)) (Ok ([], [])) = Ok out ->
  (Forall (placed s (Z.of_nat n)) out.1 /\ ordered (by_position s) out.1) /\
  (Forall (placed s (Z.of_nat n)) out.2 /\ ordered (by_position s) out.2).
Proof.
  induction n as [|n IH]; intros out.
  - intros [= <-]. cbn [fst snd]. repeat split; try apply Forall_nil_2; apply ordered_nil.
  - rewrite range_snoc, for_each_app.
    destruct (for_each _ (range 0 (0 + Z.of_nat n)) _) as [out0|] eqn:E;
      [|by rewrite for_each_Raise].
    rewrite for_each_cons. cbn [for_each foldl]. intros Hstep.
    replace (Z.of_nat (S n)) with (0 + Z.of_nat n + 1) by lia.
    eapply judge_pos_placed; [lia| |exact Hstep].
    replace (0 + Z.of_nat n) with (Z.of_nat n) by lia. by apply IH.
Qed.

Lemma judge_diff_placed name gs ge ulim cutoff border1 border2 noc uc pc :
  let s := fit name gs ge ulim border1 border2 noc in
  let out := written (judge_diff name gs ge ulim cutoff border1 border2 noc uc pc) in
  (Forall (placed s (Z.of_nat (length uc))) out.1 /\ ordered (by_position s) out.1) /\
  (Forall (placed s (Z.of_nat (length uc))) out.2 /\ ordered (by_position s) out.2).
Proof.
  intros s out. subst out. unfold judge_diff. fold s.
  assert (Hempty : (Forall (placed s (Z.of_nat (length uc))) [] /\
                    ordered (by_position s) ([] : list bed_record)) /\
                   (Forall (placed s (Z.of_nat (length uc))) [] /\
                    ordered (by_position s) ([] : list bed_record))).
  { repeat split; try apply Forall_nil_2; apply ordered_nil. }
  destruct (getitem noc (sc_ce s)) as [n|]; [|exact Hempty]. cbn [mbind result_bind].
  destruct (PrimFloat.ltb cutoff (PrimFloat.abs n)); [|exact Hempty].
  destruct (for_each _ _ _) as [out|] eqn:E; [|exact Hempty].
  apply (judge_loop_placed s uc pc (length uc)). exact E.
Qed.

(** X16. The records [judge_diff] collects for one window come in the
    order of the scan, one at most per position and list: on the plus strand
    their genomic start rises strictly from record to record, on the minus
    strand it falls strictly. *)
Theorem bed_records_come_in_scan_order
    (name : window_name) (gs ge ulim : Z) (cutoff border1 border2 : float)
    (noc uc pc : list float) :
  let out := CollectConsResults.written
               (judge_diff name gs ge ulim cutoff border1 border2 noc uc pc) in
  let rising (r r' : bed_record) :=
    if negb (String.eqb (wn_strand name) "-")
    then bed_gpos r < bed_gpos r'
    else bed_gpos r' < bed_gpos r in
  ordered rising out.1 /\ ordered rising out.2.
Proof.
  intros out rising.
  destruct (judge_diff_placed name gs ge ulim cutoff border1 border2 noc uc pc)
    as [[_ Hu] [_ Hp]]. fold out in Hu, Hp.
  set (s := fit name gs ge ulim border1 border2 noc) in *.
  assert (Hname : sc_name s = name) by (subst s; unfold fit; by destruct (negb _)).
  assert (H : forall l, ordered (by_position s) l -> ordered rising l).
  { intros l Hord i j x y Hij Hx Hy. specialize (Hord i j x y Hij Hx Hy).
    unfold by_position in Hord. by rewrite Hname in Hord. }
  split; by apply H.
Qed.

(** X17. Every record of a window carries the same annotation: the
    chromosome, gene, constraint and strand of the file name, an interval of
    [ulim] bases, and the genomic coordinates of the constraint. These
    coordinates do not depend on the window the constraint was folded in: on
    the plus strand they are the constraint shifted by [gs - 2], on the
    minus strand [ge - ce] and [ge - cs + 1]. *)
Theorem bed_records_carry_the_genomic_constraint
    (name : window_name) (gs ge ulim : Z) (cutoff border1 border2 : float)
    (noc uc pc : list float) :
  let out := CollectConsResults.written
               (judge_diff name gs ge ulim cutoff border1 border2 noc uc pc) in
  Forall (fun r =>
            bed_gend r = bed_gpos r + ulim /\
            bed_chrom r = wn_chrom name /\
            bed_goi r = wn_goi name /\
            bed_cons r = wn_cons name /\
            bed_strand r = wn_strand name /\
            bed_gcons r = (if negb (String.eqb (wn_strand name) "-")
                           then (wn_cs name + gs - 2, wn_ce name + gs - 2)
                           else (ge - wn_ce name, ge - wn_cs name + 1)))
         (out.1 ++ out.2).
Proof.
  intros out.
  destruct (judge_diff_placed name gs ge ulim cutoff border1 border2 noc uc pc)
    as [[Hu _] [Hp _]]. fold out in Hu, Hp.
  set (s := fit name gs ge ulim border1 border2 noc) in *.
  apply Forall_app. split; (eapply Forall_impl; [eassumption|]);
    intros r (pos & _ & _ & Hend & Hchrom & Hgoi & Hcons & Hstrand & Hgcons);
    rewrite Hend, Hchrom, Hgoi, Hcons, Hstrand, Hgcons; subst s; unfold fit;
    destruct (negb (String.eqb (wn_strand name) "-")) eqn:E;
    cbn [sc_name sc_ulim sc_cs sc_ce sc_ws sc_we]; rewrite E;
    repeat split; f_equal; lia.
Qed.

(** ** Entries of a BigWig track *)

Lemma short_prefix_is_not_chr (chrom : string) (three : string) :
  String.length three = 3%nat -> String.eqb (substring 0 2 chrom) three = false.
Proof.
  intros Hlen. apply String.eqb_neq. intros H. apply (f_equal String.length) in H.
  rewrite Hlen in H. destruct chrom as [|a [|b chrom]]; cbn in H; try discriminate.
  destruct chrom; discriminate.
Qed.

Lemma chrom_name_chr chrom : chrom_name chrom = "chr" ++ chrom.
Proof. unfold chrom_name. by rewrite !short_prefix_is_not_chr. Qed.

Lemma scan_constrained_placed s tag pos track track' :
  0 <= pos ->
  Forall (bw_placed s pos) track /\ ordered (bw_by_position (bs_gstrand s)) track ->
  scan_constrained s tag pos (bw_gpos s pos) (bw_gpos s pos + 1) track = Ok track' ->
  Forall (bw_placed s (pos + 1)) track' /\ ordered (bw_by_position (bs_gstrand s)) track'.
Proof.
  intros Hpos [Hall Hord]. unfold scan_constrained.
  assert (Hall' : Forall (bw_placed s (pos + 1)) track).
  { eapply Forall_impl; [exact Hall|]. intros e (p & Hp & H). exists p. split; [lia|exact H]. }
  destruct (oc_truth (bs_oc s)) as [t|]; [|discriminate]. cbn [mbind result_bind].
  destruct (t && _); [|by intros [= <-]].
  destruct (getitem _ pos) as [v|]; [|discriminate]. cbn [mbind result_bind].
  destruct (exceeds _ v); [|by intros [= <-]]. intros [= <-]. split.
  - apply Forall_app. split; [exact Hall'|]. apply Forall_singleton.
    exists pos. split; [lia|]. by repeat split.
  - apply ordered_snoc; [exact Hord|]. eapply Forall_impl; [exact Hall|].
    intros e (p & Hp & Hstart & _). unfold bw_by_position. cbn [bw_start].
    rewrite Hstart. unfold bw_gpos. destruct (negb _); lia.
Qed.

Lemma scan_pos_placed s t t' pos :
  0 <= pos ->
  (forall track, track ∈ [bw_raw t; bw_uc t; bw_pc t] ->
     Forall (bw_placed s pos) track /\ ordered (bw_by_position (bs_gstrand s)) track) ->
  scan_pos s t pos = Ok t' ->
  (forall track, track ∈ [bw_raw t'; bw_uc t'; bw_pc t'] ->
     Forall (bw_placed s (pos + 1)) track /\ ordered (bw_by_position (bs_gstrand s)) track) /\
  bw_orient t' = Some (if negb (String.eqb (bs_gstrand s) "-") then "fw" else "re").
Proof.
  intros Hpos Hinv. unfold scan_pos.
  assert (Hg : (if negb (String.eqb (bs_gstrand s) "-")
                then (pos + bs_ws s - bs_ulim s + 1, "fw")
                else (bs_we s - pos, "re"))
               = (bw_gpos s pos, if negb (String.eqb (bs_gstrand s) "-") then "fw" else "re")).
  { unfold bw_gpos. by destruct (negb _). }
  rewrite Hg. clear Hg.
  destruct (getitem (bs_noc s) pos) as [v|]; [|discriminate]. cbn [mbind result_bind].
  destruct (scan_constrained s "diffnu" _ _ _ _) as [uc|] eqn:Eu; [|discriminate].
  cbn [mbind result_bind].
  destruct (scan_constrained s "diffnp" _ _ _ _) as [pc|] eqn:Ep; [|discriminate].
  intros [= <-]. cbn [bw_raw bw_uc bw_pc bw_orient]. split; [|reflexivity].
  destruct (Hinv (bw_raw t)) as [Hr1 Hr2]; [by left|].
  intros track Htrack.
  apply elem_of_cons in Htrack as [->|Htrack];
    [|apply elem_of_cons in Htrack as [->|Htrack];
      [|apply elem_of_cons in Htrack as [->|Htrack]; [|by apply elem_of_nil in Htrack]]].
  - assert (Hr1' : Forall (bw_placed s (pos + 1)) (bw_raw t)).
    { eapply Forall_impl; [exact Hr1|]. intros e (p & Hp & H). exists p. split; [lia|exact H]. }
    destruct (exceeds _ v); [|by split]. split.
    + apply Forall_app. split; [exact Hr1'|]. apply Forall_singleton.
      exists pos. split; [lia|]. by repeat split.
    + apply ordered_snoc; [exact Hr2|]. eapply Forall_impl; [exact Hr1|].
      intros e (p & Hp & Hstart & _). unfold bw_by_position. cbn [bw_start].
      rewrite Hstart. unfold bw_gpos. destruct (negb _); lia.
  - eapply scan_constrained_placed; [exact Hpos| |exact Eu]. apply Hinv. right. by left.
  - eapply scan_constrained_placed; [exact Hpos| |exact Ep]. apply Hinv. right. right. by left.
Qed.

Lemma scan_loop_placed s (n : nat) : forall t,
  for_each (scan_pos s) (range 0 (0 + Z.of_nat n))
    (Ok {| bw_raw := []; bw_uc := []; bw_pc := []; bw_orient := None |}) = Ok t ->
  (forall track, track ∈ [bw_raw t; bw_uc t; bw_pc t] ->
     Forall (bw_placed s (Z.of_nat n)) track /\ ordered (bw_by_position (bs_gstrand s)) track) /\
  (bw_orient t = None \/
   bw_orient t = Some (if negb (String.eqb (bs_gstrand s) "-") then "fw" else "re")).
Proof.
  induction n as [|n IH]; intros t.
  - intros [= <-]. cbn [bw_raw bw_uc bw_pc bw_orient]. split; [|by left].
    intros track Htrack.
    assert (track = []) as ->.
    { repeat (apply elem_of_cons in Htrack as [->|Htrack]; [done|]).
      by apply elem_of_nil in Htrack. }
    split; [apply Forall_nil_2|apply ordered_nil].
  - rewrite range_snoc, for_each_app.
    destruct (for_each _ (range 0 (0 + Z.of_nat n)) _) as [t0|] eqn:E;
      [|by rewrite for_each_Raise].
    rewrite for_each_cons. cbn [for_each foldl]. intros Hstep.
    destruct (IH t0 eq_refl) as [Hinv _].
    replace (0 + Z.of_nat n) with (Z.of_nat n) in Hstep by lia.
    destruct (scan_pos_placed s t0 t (Z.of_nat n)) as [H1 H2]; [lia|exact Hinv|exact Hstep|].
    split; [|by right]. replace (Z.of_nat (S n)) with (Z.of_nat n + 1) by lia. exact H1.
Qed.

(** X18. When [create_bw_entries] returns tracks, every entry is one
    base wide, carries the chromosome name with [chr] put in front, and the
    entries of a track follow the scan: on the forward strand their starts
    rise strictly, on the reverse strand, where position [pos] lies at
    [we - pos], they fall strictly. The tracks are filed under [fw] or [re]
    accordingly. *)
Theorem bigwig_entries_follow_the_scan
    (load : string -> Z -> option (list float)) (nanmean : list float -> float)
    (fname : string) (name : bw_name) (gstrand : string) (gs ge : Z)
    (cutoff border : float) (ulim : Z) (out : bw_tracks) :
  create_bw_entries load nanmean fname name gstrand gs ge cutoff border ulim = Some out ->
  bw_orient out = Some (if negb (String.eqb gstrand "-") then "fw" else "re") /\
  forall track, track ∈ [bw_raw out; bw_uc out; bw_pc out] ->
    ordered (fun e e' => if negb (String.eqb gstrand "-")
                         then bw_start e < bw_start e'
                         else bw_start e' < bw_start e) track /\
    forall e, e ∈ track ->
      bw_end e = bw_start e + 1 /\ bw_chrom e = ("chr" ++ bn_chrom name)%string.
Proof.
  intros Hrun. unfold create_bw_entries in Hrun.
  destruct (if negb (String.eqb gstrand "-") then _ else _) as [ws we].
  match type of Hrun with caught (?a ≫= _) = _ =>
    destruct a as [noc0|]; [|discriminate] end.
  cbn [mbind result_bind] in Hrun.
  destruct noc0 as [noc|]; [|discriminate]. cbn [mbind result_bind] in Hrun.
  match type of Hrun with caught (?a ≫= _) = _ =>
    destruct a as [oc|]; [|discriminate] end.
  cbn [mbind result_bind] in Hrun.
  match type of Hrun with caught (scan_all ?s0) = _ => set (s := s0) in * end.
  unfold scan_all in Hrun.
  destruct (for_each _ _ _) as [t|] eqn:E; [|discriminate]. cbn [mbind result_bind] in Hrun.
  destruct (bw_orient t) as [o|] eqn:Eo; [|discriminate]. injection Hrun as <-.
  replace (Z.of_nat (length (bs_noc s))) with (0 + Z.of_nat (length (bs_noc s))) in E by lia.
  apply scan_loop_placed in E as [Hinv Horient].
  split; [destruct Horient as [H|H]; [congruence|exact H]|].
  intros track Htrack. destruct (Hinv track Htrack) as [Hall Hord]. split; [exact Hord|].
  intros e He. eapply Forall_forall in Hall as (pos & _ & _ & Hend & Hchrom); [|exact He].
  split; [exact Hend|]. rewrite Hchrom. subst s. cbn [bs_chrom]. apply chrom_name_chr.
Qed.

Lemma bigwig_entries_follow_the_scan_witness :
  let load := fun (_ : string) (_ : Z) => Some [0.5; 0.1; 0.7]%float in
  let name := {| bn_chrom := "chr1"; bn_cs := 3; bn_ce := 5; bn_ws := 0; bn_we := 0 |} in
  exists out,
    create_bw_entries load (fun _ => 0%float) "gene_raw.npy" name "-" 100 200
      1%float 0.3%float 1 = Some out /\
    map bw_start (bw_raw out) = [200; 198] /\
    map bw_chrom (bw_raw out) = ["chrchr1"; "chrchr1"] /\
    bw_orient out = Some "re".
Proof.
  intros load name.
  destruct (create_bw_entries load (fun _ => 0%float) "gene_raw.npy" name "-" 100 200
              1%float 0.3%float 1) as [out|] eqn:E; [|vm_compute in E; discriminate].
  exists out. split; [reflexivity|].
  destruct (bigwig_entries_follow_the_scan _ _ _ _ _ _ _ _ _ _ _ E) as [Ho _].
  split; [|split; [|exact Ho]]; vm_compute in E; by injection E as <-.
Defined.

(** X19. The test [chrom[:2] != "chr"] compares two characters with
    three: it always holds, and the test for [CHR] below it never does. So
    [create_bw_entries] puts [chr] in front of every chromosome name, also
    of one that starts with [chr] or [CHR] already. *)
Theorem chrom_name_always_prepends_chr (chrom : string) :
  chrom_name chrom = ("chr" ++ chrom)%string /\
  chrom_name ("chr" ++ chrom) = ("chrchr" ++ chrom)%string /\
  chrom_name ("CHR" ++ chrom) = ("chrCHR" ++ chrom)%string.
Proof. by rewrite !chrom_name_chr. Qed.

Import BigWigFiles.

(** ** Chromosome names and file lists *)

Lemma length_substring_le n m s : (String.length (substring n m s) <= m)%nat.
Proof.
  revert n m. induction s as [|a s IH]; intros [|n] [|m]; cbn; try lia.
  - specialize (IH 0%nat m). lia.
  - apply IH.
  - apply IH.
Qed.

Lemma substring_all m s : (String.length s <= m)%nat -> substring 0 m s = s.
Proof.
  revert m. induction s as [|a s IH]; intros [|m] H; cbn in *; try reflexivity; try lia.
  f_equal. apply IH. lia.
Qed.

(** X20. [read_chromsize] gives every chromosome the name [chr] plus its
    name in the file, cut to [limit] characters: as in [create_bw_entries]
    the test of the first two characters against [chr] always holds, so the
    branch that would add a list to a string is never reached and the call
    does not raise. A name of at most [limit - 3] characters gets the same
    name as the entries [create_bw_entries] makes for it; a longer one does
    not. *)
Theorem read_chromsize_names (sizes : list (string * Z)) (limit : Z) :
  0 <= limit ->
  read_chromsize sizes limit =
    Ok (map (fun entry => (substring 0 (Z.to_nat limit) ("chr" ++ entry.1), entry.2)) sizes) /\
  (forall name, len name + 3 <= limit ->
     chromsize_name limit name = Ok (chrom_name name)) /\
  (forall name, limit < len name + 3 ->
     chromsize_name limit name <> Ok (chrom_name name)).
Proof.
  intros Hlimit.
  assert (Hname : forall name,
            chromsize_name limit name = Ok (substring 0 (Z.to_nat limit) ("chr" ++ name))).
  { intros name. unfold chromsize_name. rewrite !short_prefix_is_not_chr by reflexivity.
    cbn [negb mbind result_bind]. f_equal. unfold prefix_to.
    destruct (Z.leb_spec 0 limit); [|lia].
    destruct (Z.ltb_spec limit (len ("chr" ++ name))) as [Hlt|Hge]; [reflexivity|].
    symmetry. apply substring_all. unfold len in Hge. lia. }
  split; [|split].
  - unfold read_chromsize. apply mapM_Ok. apply Forall_forall. intros entry _.
    by rewrite Hname.
  - intros name Hshort. rewrite Hname, chrom_name_chr. f_equal.
    apply substring_all. unfold len in Hshort. rewrite length_append_s.
    cbn [String.length]. lia.
  - intros name Hlong. rewrite Hname, chrom_name_chr. intros H.
    apply (f_equal (fun r => match r with Ok s => String.length s | Raise _ => 0%nat end)) in H.
    cbn beta iota in H.
    pose proof (length_substring_le 0 (Z.to_nat limit) ("chr" ++ name)) as Hle.
    rewrite H, length_append_s in Hle. cbn [String.length] in Hle.
    unfold len in Hlong. lia.
Qed.

Lemma read_chromsize_names_witness :
  read_chromsize [("chr1", 1000); ("CHR_scaffold_with_a_long_name_of_33", 50)] 32 =
    Ok (map (fun entry => (substring 0 (Z.to_nat 32) ("chr" ++ entry.1), entry.2))
            [("chr1", 1000); ("CHR_scaffold_with_a_long_name_of_33", 50)]) /\
  (forall name, len name + 3 <= 32 ->
     chromsize_name 32 name = Ok (chrom_name name)) /\
  (forall name, 32 < len name + 3 ->
     chromsize_name 32 name <> Ok (chrom_name name)).
Proof. apply read_chromsize_names. lia. Defined.

Example read_chromsize_two_entries :
  read_chromsize [("chr1", 1000); ("CHR_scaffold_with_a_long_name_of_33", 50)] 32 =
  Ok [("chrchr1", 1000); ("chrCHR_scaffold_with_a_long_name", 50)].
Proof. vm_compute. reflexivity. Qed.

Lemma foldl_max_ge {A} (ls : list (list A)) : forall m,
  (m <= foldl (fun m l => Nat.max m (length l)) m ls)%nat /\
  Forall (fun l => (length l <= foldl (fun m l => Nat.max m (length l)) m ls)%nat) ls.
Proof.
  induction ls as [|l ls IH]; intros m; [split; [cbn; lia|apply Forall_nil_2]|].
  cbn [foldl]. destruct (IH (Nat.max m (length l))) as [H1 H2]. split; [lia|].
  apply Forall_cons_2; [lia|exact H2].
Qed.

Lemma foldl_max_attained {A} (ls : list (list A)) : forall m,
  foldl (fun m l => Nat.max m (length l)) m ls = m \/
  exists l, l ∈ ls /\ foldl (fun m l => Nat.max m (length l)) m ls = length l.
Proof.
  induction ls as [|l ls IH]; intros m; [by left|].
  cbn [foldl]. destruct (IH (Nat.max m (length l))) as [H|(l' & Hl' & H)].
  - destruct (Nat.max_spec m (length l)) as [[_ Hm]|[_ Hm]].
    + right. exists l. split; [by left|by rewrite H].
    + left. by rewrite H.
  - right. exists l'. split; [by right|exact H].
Qed.

(** X21. [equalize_lists] keeps every list as the beginning of its
    result, adds nothing but [None] behind it, and leaves all lists with one
    length, the length of the longest list it was given. *)
Theorem equalize_lists_pads_to_the_longest {A} (listoflists : list (list (option A))) :
  let result := equalize_lists listoflists in
  length result = length listoflists /\
  (forall i l, listoflists !! i = Some l ->
     exists k, result !! i = Some (l ++ replicate k None)%list) /\
  (forall l l', l ∈ result -> l' ∈ result -> length l = length l') /\
  (forall l, l ∈ result -> exists l0, l0 ∈ listoflists /\ length l = length l0) /\
  equalize_lists result = result.
Proof.
  intros result. subst result. unfold equalize_lists.
  set (n := foldl (fun m l => Nat.max m (length l)) 0%nat listoflists).
  destruct (foldl_max_ge listoflists 0%nat) as [_ Hge]. fold n in Hge.
  assert (Hlen : forall l, l ∈ map (fun l => (l ++ replicate (n - length l) None)%list)
                             listoflists -> length l = n).
  { intros l Hl. apply list_elem_of_fmap in Hl as (l0 & -> & Hl0).
    eapply Forall_forall in Hge; [|exact Hl0].
    rewrite length_app, length_replicate. lia. }
  split; [apply length_map|]. split; [|split; [|split]].
  - intros i l Hl. exists (n - length l)%nat. by rewrite list_lookup_fmap, Hl.
  - intros l l' Hl Hl'. by rewrite (Hlen l), (Hlen l').
  - intros l Hl. rewrite (Hlen l Hl).
    destruct (foldl_max_attained listoflists 0%nat) as [H0|(l0 & Hl0 & H0)]; fold n in H0.
    + apply list_elem_of_fmap in Hl as (l0 & _ & Hl0). exists l0. split; [exact Hl0|].
      eapply Forall_forall in Hge; [|exact Hl0]. lia.
    + by exists l0.
  - set (result := map _ listoflists) in *.
    assert (Hn : foldl (fun m l => Nat.max m (length l)) 0%nat result = n \/ result = []).
    { destruct result as [|r rest] eqn:E; [by right|]. left. rewrite <- E in *.
      destruct (foldl_max_attained result 0%nat) as [H0|(l0 & Hl0 & H0)].
      - destruct (foldl_max_ge result 0%nat) as [_ Hge'].
        assert (Hr : r ∈ result) by (rewrite E; by left).
        eapply Forall_forall in Hge'; [|exact Hr]. rewrite (Hlen r Hr) in Hge'. lia.
      - by rewrite H0, (Hlen l0). }
    destruct Hn as [Hn|Hn]; [|by rewrite Hn].
    rewrite Hn. rewrite <- (map_id result) at 2. apply map_ext_in. intros l Hl.
    apply list_elem_of_In in Hl. rewrite (Hlen l Hl), Nat.sub_diag. cbn [replicate].
    apply app_nil_r.
Qed.

Import Locations.

(** ** Integers and their text *)

Lemma digit_is_digit c : digit_char c -> is_digit c = true /\ is_int_space c = false.
Proof.
  unfold digit_char, is_digit, is_int_space. intros [H1 H2]. cbn zeta. split.
  - apply andb_true_iff. split; apply Nat.leb_le; lia.
  - apply orb_false_iff. split; [apply andb_false_iff; right; apply Nat.leb_gt; lia|].
    apply Nat.eqb_neq. lia.
Qed.

Lemma lstrip_ws_head sp c l : sp c = false -> lstrip_ws sp (c :: l) = c :: l.
Proof. intros H. cbn [lstrip_ws]. by rewrite H. Qed.

Lemma strip_ws_id sp l :
  (forall c, head l = Some c -> sp c = false) ->
  (forall c, last l = Some c -> sp c = false) ->
  rstrip_ws sp (lstrip_ws sp l) = l.
Proof.
  intros Hh Hl. destruct l as [|c l]; [reflexivity|].
  rewrite lstrip_ws_head by (by apply Hh). unfold rstrip_ws.
  destruct (rev (c :: l)) as [|d r] eqn:E.
  - apply (f_equal (@length ascii)) in E. rewrite length_rev in E. discriminate.
  - rewrite lstrip_ws_head.
    + by rewrite <- E, rev_involutive.
    + apply Hl. rewrite <- (rev_involutive (c :: l)), E. cbn [rev].
      by rewrite last_snoc.
Qed.

Lemma int_digits_all l : Forall digit_char l -> int_digits true l = Some l.
Proof.
  induction 1 as [|c l Hc Hl IH]; [reflexivity|].
  cbn [int_digits]. destruct (digit_is_digit c Hc) as [-> _]. by rewrite IH.
Qed.

Lemma int_digits_text c l : Forall digit_char (c :: l) -> int_digits false (c :: l) = Some (c :: l).
Proof.
  intros H. apply Forall_cons in H as [Hc Hl]. cbn [int_digits].
  destruct (digit_is_digit c Hc) as [-> _]. by rewrite int_digits_all.
Qed.

Lemma last_digit_not_space l c :
  Forall digit_char l -> last l = Some c -> is_int_space c = false.
Proof.
  intros Hl Hc. apply digit_is_digit. eapply Forall_forall; [exact Hl|].
  apply last_Some in Hc as [l' ->]. apply elem_of_app. right. by left.
Qed.

Lemma uint_text d :
  d <> Decimal.Nil ->
  exists c l, list_ascii_of_string (NilZero.string_of_uint d) = c :: l /\
              Forall digit_char (c :: l).
Proof.
  intros Hd. pose proof (string_of_uint_digits d) as Hdig.
  unfold NilZero.string_of_uint. destruct d; try done;
    cbn [NilEmpty.string_of_uint list_ascii_of_string] in *; by eexists _, _.
Qed.

Lemma py_int_uint (neg : bool) d :
  d <> Decimal.Nil ->
  py_int ((if neg then "-" else "") ++ NilZero.string_of_uint d) =
  Some (if neg then - Z.of_uint d else Z.of_uint d).
Proof.
  intros Hd. destruct (uint_text d Hd) as (c & l & Hs & Hdig).
  assert (Hparse : NilZero.uint_of_string (string_of_list_ascii (c :: l)) = Some d).
  { rewrite <- Hs, string_of_list_ascii_of_string. by apply NilZero.usu. }
  assert (Hc : is_int_space c = false).
  { apply digit_is_digit. by apply Forall_cons in Hdig as [? _]. }
  assert (Hminus : c <> "-"%char /\ c <> "+"%char).
  { apply Forall_cons in Hdig as [[H1 H2] _]. split; intros ->; vm_compute in H1; lia. }
  unfold py_int. destruct neg.
  - rewrite append_cons, append_nil. cbn [list_ascii_of_string]. rewrite Hs.
    rewrite strip_ws_id.
    + rewrite int_digits_text by done. cbn [mbind option_bind]. by rewrite Hparse.
    + by intros ? [= <-].
    + intros x Hx. change ("-"%char :: c :: l) with (["-"%char] ++ c :: l)%list in Hx.
      rewrite last_app in Hx. destruct (last (c :: l)) as [y|] eqn:Ey.
      * injection Hx as ->. by eapply last_digit_not_space.
      * by apply last_None in Ey.
  - rewrite append_nil, Hs. rewrite strip_ws_id.
    + destruct Hminus as [Hm Hp].
      assert (Hbody : match c :: l with
                      | "-"%char :: r => (true, r)
                      | "+"%char :: r => (false, r)
                      | _ => (false, c :: l)
                      end = (false, c :: l)).
      { destruct c as [[] [] [] [] [] [] [] []]; try reflexivity; by destruct Hm || by destruct Hp. }
      rewrite Hbody. rewrite int_digits_text by done. cbn [mbind option_bind].
      by rewrite Hparse.
    + by intros ? [= <-].
    + intros x Hx. by eapply last_digit_not_space.
Qed.

Lemma py_int_str_int z : py_int (str_int z) = Some z.
Proof.
  unfold str_int. destruct z as [|p|p].
  - reflexivity.
  - pose proof (py_int_uint false (Pos.to_uint p) (DecimalPos.Unsigned.to_uint_nonnil p)) as H.
    rewrite append_nil in H. unfold Z.of_uint in H. rewrite DecimalPos.Unsigned.of_to in H.
    exact H.
  - pose proof (py_int_uint true (Pos.to_uint p) (DecimalPos.Unsigned.to_uint_nonnil p)) as H.
    unfold Z.of_uint in H. rewrite DecimalPos.Unsigned.of_to in H. exact H.
Qed.

(** ** Constraint texts *)

Lemma str_int_nonneg_free_minus z : 0 <= z -> free "-"%char (str_int z).
Proof.
  intros Hz. eapply Forall_free; [by apply str_int_nonneg_digits|].
  unfold digit_char. vm_compute. lia.
Qed.

Lemma str_int_negative z : z < 0 -> str_int z = "-" ++ str_int (- z).
Proof. intros Hz. destruct z as [|p|p]; try lia. reflexivity. Qed.

Lemma span_free_bar a b : free "|"%char (join "-" [str_int a; str_int b]).
Proof.
  apply free_join.
  - simpl. rewrite not_elem_of_cons. split; [done|apply not_elem_of_nil].
  - repeat apply Forall_cons_2; try apply Forall_nil_2; apply str_int_free; vm_compute; lia.
Qed.

(** The text [start-end|strand...] read back. *)
Lemma get_location_text start end_ strand rest :
  0 <= start -> 0 <= end_ ->
  Forall (fun s => free "|"%char s) (strand :: rest) ->
  get_location (join "|" (join "-" [str_int start; str_int end_] :: strand :: rest)) =
  Some (start, end_, strand, default "." (head rest)).
Proof.
  intros Hs He Hfree. unfold get_location.
  change "|" with (String "|"%char "").
  rewrite (split_join "|"%char) by (apply Forall_cons_2; [apply span_free_bar|exact Hfree]).
  cbn [caught mbind option_bind lookup list_lookup].
  change "-" with (String "-"%char "").
  rewrite (split_join "-"%char)
    by (repeat apply Forall_cons_2; try apply Forall_nil_2; by apply str_int_nonneg_free_minus).
  cbn [caught mbind option_bind]. rewrite !py_int_str_int. cbn [mbind option_bind].
  by destruct rest.
Qed.

(** X22. [get_location] reads back the text written for a constraint:
    from [start-end|strand] it returns the two integers, the strand and the
    value [.]; a third field is returned as the value. This holds for
    coordinates that are not negative; the strand [-] is read correctly,
    since the text is split at [|] before it is split at [-]. *)
Theorem get_location_reads_back (start end_ : Z) (strand value : string) :
  0 <= start -> 0 <= end_ ->
  free "|"%char strand -> free "|"%char value ->
  get_location (join "|" [join "-" [str_int start; str_int end_]; strand])
    = Some (start, end_, strand, ".") /\
  get_location (join "|" [join "-" [str_int start; str_int end_]; strand; value])
    = Some (start, end_, strand, value).
Proof.
  intros Hs He Hstrand Hvalue. split.
  - by rewrite get_location_text by (done || by repeat constructor).
  - by rewrite get_location_text by (done || by repeat constructor).
Qed.

Lemma get_location_reads_back_witness :
  get_location (join "|" [join "-" [str_int 11; str_int 20]; "-"])
    = Some (11, 20, "-", ".") /\
  get_location (join "|" [join "-" [str_int 11; str_int 20]; "-"; "0.5"])
    = Some (11, 20, "-", "0.5").
Proof.
  apply get_location_reads_back; try lia;
    simpl; rewrite ?not_elem_of_cons; repeat split; try done; apply not_elem_of_nil.
Defined.

(** X23. A negative coordinate cannot be read back: its minus sign is
    taken for the separator of start and end, the text splits into more than
    two parts, and [get_location] returns [None]. *)
Theorem get_location_loses_negative_coordinates
    (start end_ : Z) (rest : list string) :
  start < 0 \/ end_ < 0 ->
  Forall (fun s => free "|"%char s) rest ->
  get_location (join "|" (join "-" [str_int start; str_int end_] :: rest)) = None.
Proof.
  intros Hneg Hfree. unfold get_location.
  change "|" with (String "|"%char "").
  rewrite (split_join "|"%char) by (apply Forall_cons_2; [apply span_free_bar|exact Hfree]).
  cbn [caught mbind option_bind lookup list_lookup].
  assert (Hparts : exists a b c more,
            join "-" [str_int start; str_int end_] = join "-" (a :: b :: c :: more) /\
            Forall (fun s => free "-"%char s) (a :: b :: c :: more)).
  { assert (Hempty : free "-"%char "") by apply not_elem_of_nil.
    destruct (Z.ltb_spec start 0) as [Hs|Hs], (Z.ltb_spec end_ 0) as [He|He]; try lia.
    - exists "", (str_int (- start)), "", [str_int (- end_)]. split.
      + rewrite (str_int_negative start), (str_int_negative end_) by lia.
        cbn [join]. by rewrite ?append_assoc_s, ?append_nil.
      + repeat apply Forall_cons_2; try apply Forall_nil_2; try done;
          apply str_int_nonneg_free_minus; lia.
    - exists "", (str_int (- start)), (str_int end_), []. split.
      + rewrite (str_int_negative start) by lia.
        cbn [join]. by rewrite ?append_assoc_s, ?append_nil.
      + repeat apply Forall_cons_2; try apply Forall_nil_2; try done;
          apply str_int_nonneg_free_minus; lia.
    - exists (str_int start), "", (str_int (- end_)), []. split.
      + rewrite (str_int_negative end_) by lia.
        cbn [join]. by rewrite ?append_assoc_s, ?append_nil.
      + repeat apply Forall_cons_2; try apply Forall_nil_2; try done;
          apply str_int_nonneg_free_minus; lia. }
  destruct Hparts as (a & b & c & more & -> & Hminus).
  change "-" with (String "-"%char "").
  rewrite (split_join "-"%char) by exact Hminus. reflexivity.
Qed.

Lemma get_location_loses_negative_coordinates_witness :
  get_location (join "|" [join "-" [str_int (-5); str_int 20]; "+"]) = None.
Proof.
  apply get_location_loses_negative_coordinates; [lia|].
  apply Forall_cons_2; [|apply Forall_nil_2].
  simpl. rewrite not_elem_of_cons. split; [done|apply not_elem_of_nil].
Defined.

(** ** From a BED line to a constraint *)

Lemma rstrip_ws_last sp l c : last l = Some c -> sp c = false -> rstrip_ws sp l = l.
Proof.
  intros Hl Hc. apply last_Some in Hl as [l' ->]. unfold rstrip_ws.
  rewrite rev_unit, lstrip_ws_head by done. change (c :: rev l') with ([c] ++ rev l')%list.
  by rewrite rev_app_distr, rev_involutive.
Qed.

Lemma last_append s t c :
  last (list_ascii_of_string t) = Some c -> last (list_ascii_of_string (s ++ t)) = Some c.
Proof. intros H. by rewrite list_ascii_of_string_app, last_app, H. Qed.

Lemma rstrip_last s c :
  last (list_ascii_of_string s) = Some c -> is_space c = false -> rstrip s = s.
Proof.
  intros Hl Hc. unfold rstrip. rewrite (rstrip_ws_last _ _ c) by done.
  apply string_of_list_ascii_of_string.
Qed.

(** X24. A constraint read from a BED line is read back by
    [get_location] with the start moved from 0-based to 1-based and the end
    as it stands in the file: [readConstraintsFromBed] writes
    [start+1-end|strand] under the gene of column 4 (or under [lw]), and
    [get_location] returns [start + 1], [end], the strand and the value
    [.]. *)
Theorem bed_line_constraint_is_read_back
    (chrom goi score strand : string) (start end_ : Z) (linewise : bool) :
  -1 <= start -> 0 <= end_ ->
  strand ∈ ["+"; "-"; "."] ->
  free tab chrom -> free tab goi -> free tab score ->
  let line := join TAB [chrom; str_int start; str_int end_; goi; score; strand] in
  exists text,
    constraint_of_bed_line linewise line = Some (if linewise then "lw" else goi, text) /\
    text = join "|" [join "-" [str_int (start + 1); str_int end_]; strand] /\
    get_location text = Some (start + 1, end_, strand, ".").
Proof.
  intros Hs He Hstrand Hchrom Hgoi Hscore line.
  assert (Hst : exists c, strand = String c "" /\ is_space c = false /\
                          c <> tab /\ c <> "|"%char).
  { repeat (apply elem_of_cons in Hstrand as [->|Hstrand]);
      [| | |by apply elem_of_nil in Hstrand]; eexists; repeat split; done. }
  destruct Hst as (c & -> & Hspace & Htab & Hbar).
  assert (Hline : rstrip line = line).
  { apply (rstrip_last _ c); [|exact Hspace]. subst line. cbn [join].
    repeat apply last_append. reflexivity. }
  eexists. split; [|split; [reflexivity|]].
  - unfold constraint_of_bed_line. rewrite Hline. subst line.
    rewrite (split_join tab).
    + cbn [caught mbind option_bind lookup list_lookup]. rewrite py_int_str_int.
      cbn [mbind option_bind fst snd]. reflexivity.
    + repeat apply Forall_cons_2; try apply Forall_nil_2; try done;
        try (apply str_int_free; vm_compute; lia).
      simpl. rewrite not_elem_of_cons. split; [congruence|apply not_elem_of_nil].
  - rewrite get_location_text; [reflexivity|lia|lia|].
    apply Forall_cons_2; [|apply Forall_nil_2].
    simpl. rewrite not_elem_of_cons. split; [congruence|apply not_elem_of_nil].
Qed.

Lemma bed_line_constraint_is_read_back_witness :
  let line := join TAB ["chr1"; str_int 10; str_int 20; "gene"; "0"; "-"] in
  exists text,
    constraint_of_bed_line false line = Some ("gene", text) /\
    text = join "|" [join "-" [str_int (10 + 1); str_int 20]; "-"] /\
    get_location text = Some (10 + 1, 20, "-", ".").
Proof.
  apply (bed_line_constraint_is_read_back "chr1" "gene" "0" "-" 10 20 false); try lia.
  - right. by left.
  - simpl. rewrite !not_elem_of_cons. repeat split; try done. apply not_elem_of_nil.
  - simpl. rewrite !not_elem_of_cons. repeat split; try done. apply not_elem_of_nil.
  - simpl. rewrite !not_elem_of_cons. repeat split; try done. apply not_elem_of_nil.
Defined.

Lemma add_bed_line_None bed linewise : foldl (add_bed_line linewise) None bed = None.
Proof. by induction bed. Qed.

(** X25. The loop of [readConstraintsFromBed] stands inside one [try]:
    a single line with fewer than six columns, such as a BED line without
    strand, raises [IndexError], and the function returns [None] instead of
    the constraints of the other lines. *)
Theorem one_short_bed_line_loses_all_constraints
    (bed : list string) (linewise : bool) (line : string) (entries : list string) :
  line ∈ bed ->
  split TAB (rstrip line) = Ok entries ->
  (length entries <= 5)%nat ->
  readConstraintsFromBed bed linewise = None.
Proof.
  intros Hin Hsplit Hlen.
  assert (Hline : constraint_of_bed_line linewise line = None).
  { unfold constraint_of_bed_line. rewrite Hsplit. cbn [caught mbind option_bind].
    destruct (entries !! 5%nat) as [x|] eqn:E.
    - apply lookup_lt_Some in E. lia.
    - destruct (entries !! 1%nat); [|reflexivity]. cbn [mbind option_bind].
      destruct (py_int _); [|reflexivity]. cbn [mbind option_bind].
      destruct (entries !! 2%nat); [|reflexivity]. cbn [mbind option_bind].
      destruct (entries !! 3%nat); reflexivity. }
  apply list_elem_of_split in Hin as (pre & post & ->).
  unfold readConstraintsFromBed. rewrite foldl_app. cbn [foldl].
  destruct (foldl _ (Some ∅) pre) as [cons|]; unfold add_bed_line at 2;
    cbn [mbind option_bind].
  - rewrite Hline. cbn [mbind option_bind]. apply add_bed_line_None.
  - apply add_bed_line_None.
Qed.

Lemma one_short_bed_line_loses_all_constraints_witness :
  readConstraintsFromBed
    [join TAB ["chr1"; "10"; "20"; "gene"; "0"; "+"]; join TAB ["chr1"; "30"; "40"; "gene"; "0"]]
    false = None.
Proof.
  apply (one_short_bed_line_loses_all_constraints _ _
           (join TAB ["chr1"; "30"; "40"; "gene"; "0"]) ["chr1"; "30"; "40"; "gene"; "0"]).
  - right. by left.
  - vm_compute. reflexivity.
  - cbn [length]. lia.
Defined.

Example readConstraintsFromBed_two_lines :
  readConstraintsFromBed
    [join TAB ["chr1"; "10"; "20"; "gene"; "0"; "+"];
     join TAB ["chr1"; "30"; "40"; "gene"; "0"; "-"]] false
  = Some {[ "gene" := ["11-20|+"; "31-40|-"] ]}.
Proof. vm_compute. reflexivity. Qed.

Import Bppm.

(** ** Base-pair probabilities of a region *)

Lemma row_eq_refl (a : list float) :
  Forall (fun v => NP.isnan v = false) a -> row_eq a a = true.
Proof.
  intros Ha. unfold row_eq. rewrite Nat.eqb_refl. cbn [andb].
  induction Ha as [|v a Hv Ha IH]; [reflexivity|].
  cbn [zip_with forallb id]. rewrite IH, andb_true_r.
  unfold NP.isnan in Hv. by apply negb_false_iff in Hv.
Qed.

(** [matrix.index(item)] is the first position with a row equal to
    [item]. *)
Lemma matrix_index_spec rows k item : forall j,
  (j <= k < j + length rows)%nat ->
  rows !! (k - j)%nat = Some item ->
  row_eq item item = true ->
  let b := matrix_index rows k item j in
  (j <= b <= k)%nat /\
  (exists row, rows !! (b - j)%nat = Some row /\ row_eq row item = true) /\
  (forall i r, (j <= i < b)%nat -> rows !! (i - j)%nat = Some r -> row_eq r item = false).
Proof.
  induction rows as [|r rest IH]; intros j Hj Hk Hrefl; [cbn [length] in Hj; lia|].
  cbn [matrix_index]. destruct (Nat.eqb_spec j k) as [->|Hne].
  - cbn [orb]. rewrite Nat.sub_diag in Hk. injection Hk as ->.
    split; [lia|]. split; [|intros i r' Hi; lia].
    exists item. rewrite Nat.sub_diag. by split.
  - cbn [orb]. destruct (row_eq r item) eqn:E.
    + split; [lia|]. split; [|intros i r' Hi; lia].
      exists r. rewrite Nat.sub_diag. by split.
    + cbn [length] in Hj.
      destruct (IH (S j)) as (Hb & (row & Hrow & Heq) & Hmin); [lia| |exact Hrefl|].
      * replace (k - j)%nat with (S (k - S j)) in Hk by lia. exact Hk.
      * split; [lia|]. split.
        -- exists row. split; [|exact Heq].
           replace (matrix_index rest k item (S j) - j)%nat
             with (S (matrix_index rest k item (S j) - S j)) by lia. exact Hrow.
        -- intros i r' Hi Hr'. destruct (decide (i = j)) as [->|Hij].
           ++ rewrite Nat.sub_diag in Hr'. by injection Hr' as <-.
           ++ apply (Hmin i r'); [lia|].
              replace (i - j)%nat with (S (i - S j)) in Hr' by lia. exact Hr'.
Qed.

Lemma bppm_cell_entries matrix start end_ (k : nat) item bppm bppm' i :
  matrix !! k = Some item ->
  row_eq item item = true ->
  start <= i <= end_ ->
  Forall (bppm_entry_of matrix start end_) bppm ->
  bppm_cell matrix k item bppm i = Ok bppm' ->
  Forall (bppm_entry_of matrix start end_) bppm'.
Proof.
  intros Hk Hrefl Hi Hall. unfold bppm_cell.
  destruct (getitem item i) as [v|] eqn:Ev; [|discriminate]. cbn [mbind result_bind].
  destruct (PrimFloat.ltb 0 v) eqn:Epos; intros [= <-]; [|exact Hall].
  apply Forall_app. split; [exact Hall|]. apply Forall_singleton.
  destruct (matrix_index_spec matrix k item 0) as (Hb & (row & Hrow & Heq) & Hmin).
  { apply lookup_lt_Some in Hk. lia. }
  { by rewrite Nat.sub_0_r. }
  { exact Hrefl. }
  rewrite Nat.sub_0_r in Hrow.
  split; [exact Hi|]. split; [exact Epos|]. exists k, item. cbn [bp_base bp_mate bp_prob].
  split; [exact Hk|]. split; [exact Ev|]. split; [lia|]. split.
  - exists row. rewrite Nat2Z.id. by split.
  - intros j r Hj Hr. apply (Hmin j r); [lia|]. by rewrite Nat.sub_0_r.
Qed.

(** X26. What [_get_bppm] returns for the region [[start, end]] of a
    matrix of numbers: the region lies inside the matrix, and every entry
    stands for a probability above 0 at a column [mate] of the region, the
    end included. Its [base] comes from [matrix.index(item)]: it is the
    position of the first row equal to the row the value was read from, at
    most that row's own position, so the entries of two equal rows all
    carry the number of the first. *)
Theorem get_bppm_entries
    (matrix : list (list float)) (start end_ : Z) (bppm : list bpp_entry) :
  Forall (Forall (fun v => NP.isnan v = false)) matrix ->
  _get_bppm matrix start end_ = Some bppm ->
  0 <= start /\ end_ <= Z.of_nat (length matrix) /\
  forall e, e ∈ bppm ->
    start <= bp_mate e <= end_ /\
    PrimFloat.ltb 0 (bp_prob e) = true /\
    exists (k : nat) item,
      matrix !! k = Some item /\
      getitem item (bp_mate e) = Ok (bp_prob e) /\
      0 <= bp_base e <= Z.of_nat k /\
      (exists row, matrix !! Z.to_nat (bp_base e) = Some row /\ row_eq row item = true) /\
      (forall (j : nat) r,
         Z.of_nat j < bp_base e -> matrix !! j = Some r -> row_eq r item = false).
Proof.
  intros Hnum. unfold _get_bppm. destruct (Z.ltb_spec start 0); [discriminate|].
  destruct (Z.ltb_spec (Z.of_nat (length matrix)) end_); [discriminate|].
  cbn [orb]. destruct (for_each _ _ _) as [out|] eqn:E; [|discriminate].
  intros [= <-]. split; [lia|]. split; [lia|].
  assert (Hall : Forall (bppm_entry_of matrix start end_) out).
  { eapply (for_each_invariant _ (Forall (bppm_entry_of matrix start end_))) in E;
      [exact E| |apply Forall_nil_2].
    intros st [k item] st' Hx Hst. apply elem_of_lookup_imap in Hx as (k' & y & [= -> ->] & Hk).
    unfold bppm_row. cbn [fst snd]. intros Hrow.
    eapply (for_each_invariant _ (Forall (bppm_entry_of matrix start end_))) in Hrow;
      [exact Hrow| |exact Hst].
    intros st0 i st1 Hi Hst0. apply elem_of_range in Hi.
    apply bppm_cell_entries; [exact Hk| |lia|exact Hst0].
    apply row_eq_refl. eapply Forall_forall in Hnum; [exact Hnum|].
    by eapply list_elem_of_lookup_2. }
  intros e He. eapply Forall_forall in Hall; [|exact He]. exact Hall.
Qed.

(** Rows 0 and 2 are equal: the entry of row 2 carries base 0, the first
    of the two. *)
Lemma get_bppm_entries_witness :
  let matrix := [[0; 0.5; 0]; [0; 0.25; 0.75]; [0; 0.5; 0]]%float in
  exists bppm,
    _get_bppm matrix 1 2 = Some bppm /\
    map bp_base bppm = [0; 1; 1; 0] /\ map bp_mate bppm = [1; 1; 2; 1] /\
    forall e, e ∈ bppm ->
      1 <= bp_mate e <= 2 /\ PrimFloat.ltb 0 (bp_prob e) = true /\
      exists (k : nat) item,
        matrix !! k = Some item /\
        (exists row, matrix !! Z.to_nat (bp_base e) = Some row /\ row_eq row item = true) /\
        (forall (j : nat) r,
           Z.of_nat j < bp_base e -> matrix !! j = Some r -> row_eq r item = false).
Proof.
  intros matrix.
  destruct (_get_bppm matrix 1 2) as [bppm|] eqn:E; [|vm_compute in E; discriminate].
  exists bppm. split; [reflexivity|].
  assert (Hnum : Forall (Forall (fun v => NP.isnan v = false)) matrix).
  { repeat (apply Forall_cons_2 || apply Forall_nil_2); reflexivity. }
  destruct (get_bppm_entries _ _ _ _ Hnum E) as (_ & _ & Hall).
  split; [|split].
  - vm_compute in E. by injection E as <-.
  - vm_compute in E. by injection E as <-.
  - intros e He. destruct (Hall e He) as (H1 & H2 & k & item & Hk & _ & _ & Hrow & Hmin).
    split; [exact H1|]. split; [exact H2|]. by exists k, item.
Defined.

Lemma bppm_cell_out_of_row matrix (k : nat) item bppm i :
  Z.of_nat (length item) <= i -> is_Ok (bppm_cell matrix k item bppm i) = false.
Proof. intros Hi. unfold bppm_cell, getitem. by rewrite index_out. Qed.

(** X27. The columns run to [end] inclusive, while the check before the
    loop lets [end] be the number of rows. If one row has no column [end],
    reading it raises [IndexError] and [_get_bppm] returns [None]: for a
    square matrix and [end] equal to its size there is no result. *)
Theorem get_bppm_needs_column_end
    (matrix : list (list float)) (start end_ : Z) (item : list float) :
  0 <= start <= end_ ->
  item ∈ matrix ->
  Z.of_nat (length item) <= end_ ->
  _get_bppm matrix start end_ = None.
Proof.
  intros Hse Hin Hshort. unfold _get_bppm.
  destruct ((start <? 0) || _); [reflexivity|].
  apply list_elem_of_split in Hin as (pre & post & ->).
  rewrite imap_app, imap_cons.
  match goal with |- caught ?r = None => assert (Hr : is_Ok r = false); [|by destruct r] end.
  apply for_each_raising_entry. intros st. unfold bppm_row. cbn [fst snd].
  replace (end_ + 1) with (start + Z.of_nat (S (Z.to_nat (end_ - start)))) by lia.
  rewrite range_snoc, for_each_app.
  destruct (for_each _ (range start _) (Ok st)) as [st1|]; [|reflexivity].
  rewrite for_each_cons. cbn [for_each foldl].
  apply bppm_cell_out_of_row. lia.
Qed.

Lemma get_bppm_needs_column_end_witness :
  _get_bppm [[0; 0.5]; [0.5; 0]]%float 0 2 = None.
Proof.
  apply (get_bppm_needs_column_end _ 0 2 [0; 0.5]%float); [lia|by left|cbn [length]; lia].
Defined.

(** ** Valid values *)

(** X28. [_isinvalid] is the complement of [_isvalid]. A value counts as
    valid when it is a number, zero included, or a string that is neither
    empty nor one of [None], [nan], [none], [NA], [NAN]. A float that is
    NaN counts as valid too unless it is the object [np.nan] itself, since
    the test is [x is np.nan]. *)
Theorem isinvalid_is_the_complement_of_isvalid (x : pyobj) :
  _isinvalid x = negb (_isvalid x) /\
  (_isvalid x = true <->
   match x with
   | OFloat _ | OInt _ => True
   | OStr s => s <> "" /\ s ∉ ["None"; "nan"; "none"; "NA"; "NAN"]
   | ONone | ONpNan => False
   end).
Proof.
  split.
  - unfold _isinvalid, _isvalid. by destruct (truthy_or_zero x), (names_no_value x).
  - unfold _isvalid. destruct x as [| |f|z|s]; cbn [truthy_or_zero names_no_value].
    + split; [discriminate|done].
    + split; [discriminate|done].
    + by destruct (PrimFloat.eqb f 0).
    + by destruct (z =? 0).
    + destruct (String.eqb_spec s "") as [->|Hne]; cbn [negb].
      * split; [discriminate|]. by intros [? _].
      * destruct (bool_decide _) eqn:E.
        -- apply bool_decide_eq_true in E. split; [discriminate|]. by intros [_ ?].
        -- apply bool_decide_eq_false in E. by split.
Qed.

(** ** A raw value that is no number *)

Lemma seq_from (a k : nat) : seq a k = map (Nat.add a) (seq 0 k).
Proof.
  induction a as [|a IH]; [by rewrite map_id|].
  by rewrite <- seq_shift, IH, map_map.
Qed.

Lemma range_split (pos n : Z) :
  0 <= pos < n -> range 0 n = (range 0 pos ++ pos :: range (pos + 1) n)%list.
Proof.
  intros H. unfold range.
  replace (Z.to_nat (n - 0)) with (Z.to_nat (pos - 0) + S (Z.to_nat (n - (pos + 1))))%nat by lia.
  rewrite seq_app, map_app. apply (f_equal2 (@app Z)); [reflexivity|].
  rewrite seq_from, map_map. cbn [seq map].
  apply (f_equal2 cons); [lia|].
  rewrite <- seq_shift, map_map. apply map_ext. intros i. lia.
Qed.

(** X29. [judge_diff] converts the raw value with [int(noc[pos])] when
    it writes a record. If the window passes the cutoff and at one position
    outside the constraint the difference lies between the borders while the
    raw value is NaN, the conversion raises, the exception is logged, and
    [savelists] is not reached: no record of this window is written, also
    none of its other positions. *)
Theorem nan_raw_value_discards_the_window
    (name : window_name) (gs ge ulim : Z) (cutoff border1 border2 : float)
    (noc uc pc : list float) (pos : Z) (n0 v n : float) :
  let s := fit name gs ge ulim border1 border2 noc in
  getitem noc (sc_ce s) = Ok n0 ->
  PrimFloat.ltb cutoff (PrimFloat.abs n0) = true ->
  0 <= pos < Z.of_nat (length uc) ->
  ~ (sc_cs s <= pos <= sc_ce s) ->
  getitem uc pos = Ok v ->
  PrimFloat.ltb border1 v = true ->
  PrimFloat.ltb v border2 = true ->
  getitem noc pos = Ok n ->
  NP.isnan n = true ->
  is_Ok (judge_diff name gs ge ulim cutoff border1 border2 noc uc pc) = false /\
  CollectConsResults.written (judge_diff name gs ge ulim cutoff border1 border2 noc uc pc)
  = ([], []).
Proof.
  intros s Hce Hcut Hpos Hout Hv Hb1 Hb2 Hn Hnan.
  assert (Hs1 : sc_border1 s = border1) by (subst s; unfold fit; by destruct (negb _)).
  assert (Hs2 : sc_border2 s = border2) by (subst s; unfold fit; by destruct (negb _)).
  assert (Hs3 : sc_noc s = noc) by (subst s; unfold fit; by destruct (negb _)).
  assert (Hraise : is_Ok (judge_diff name gs ge ulim cutoff border1 border2 noc uc pc) = false).
  { unfold judge_diff. fold s. rewrite Hce. cbn [mbind result_bind]. rewrite Hcut.
    rewrite (range_split pos) by exact Hpos.
    apply for_each_raising_entry. intros out. unfold judge_pos.
    assert (Hneg : negb ((sc_cs s <=? pos) && (pos <? sc_ce s + 1)) = true).
    { apply negb_true_iff, andb_false_iff.
      destruct (Z.leb_spec (sc_cs s) pos); [right|by left]. apply Z.ltb_ge. lia. }
    rewrite Hneg. unfold judge_value. rewrite Hv. cbn [mbind result_bind].
    rewrite Hs1, Hs2, Hb1, Hb2. cbn [andb]. unfold bed_line. rewrite Hs3, Hn.
    cbn [mbind result_bind]. unfold NP.int_of_float.
    apply isnan_spec in Hnan. rewrite Hnan. reflexivity. }
  split; [exact Hraise|]. by destruct (judge_diff _ _ _ _ _ _ _ _ _ _).
Qed.

Lemma nan_raw_value_discards_the_window_witness :
  let name := {| wn_goi := "gene"; wn_chrom := "chr1"; wn_strand := "+";
                 wn_cons := "104-106"; wn_cs := 104; wn_ce := 106;
                 wn_ws := 100; wn_we := 110 |} in
  let noc := [0.5; PrimFloat.nan; 0.5; 0.5; 0.5; 0.5; 0.5; 0.5]%float in
  let uc := [0.4; 0.5; 0; 0; 0; 0; 0; 0]%float in
  is_Ok (judge_diff name 1 200 1 0.1%float 0.3%float 1%float noc uc uc) = false /\
  CollectConsResults.written (judge_diff name 1 200 1 0.1%float 0.3%float 1%float noc uc uc)
  = ([], []).
Proof.
  apply (nan_raw_value_discards_the_window _ 1 200 1 _ _ _ _ _ _ 1 0.5%float 0.5%float
           PrimFloat.nan); try reflexivity.
  - cbn [length]. lia.
  - vm_compute. intros [H1 H2]. by apply H2.
Defined.
